(** * Convex Tools extension: device-code authentication, session storage
      and the client-side log filter

    A shallow embedding of the authentication module of the extension (the
    "Convex OAuth Device Code Flow" document that follows the command in
    [run-function.tsx]: [discoverAuthEndpoints], [startDeviceAuthorization],
    [pollForDeviceToken], [exchangeForDashboardToken], [authenticate],
    [saveSession], [loadSession], [clearSession], [isSessionExpired],
    [saveSelectedContext], [loadSelectedContext]) and of the [filteredLogs]
    computation of [view-logs.tsx].

    Modelling conventions.
    - A JavaScript [number] that the code tests for truthiness or reads back
      with [parseInt] is a [number]: an integer-valued double or [NaN].
      [toString] and [parseInt] print and read as JavaScript does: exactly
      on the safe integers (up to 2^53 - 1 in magnitude), with the shortest
      digits that read back, and an exponent from 1e21 on, beyond them;
      fractions and the infinities are outside the model, and a statement
      that depends on a number being read back as it was written carries
      the bound.  Numbers that only come from JSON and enter arithmetic
      ([expires_in], [interval], [status]) are integers in [Z].
    - An optional or nullable property is an [option]; truthiness ([if (x)],
      [!x], [x ? a : b], [x || y]) is spelled out by [truthy].
    - Strings are [string]s of 8-bit characters.  [String.prototype.toLowerCase]
      follows the Unicode character database and is a parameter of the
      definitions that call it; where a property needs to know what it does,
      the theorem assumes it on ASCII text only, where it folds A-Z.
    - [LocalStorage] is a finite map from keys to strings; its operations
      always succeed.
    - The asynchronous code is sequential ([await] at every call), so it is
      embedded in a state-and-exception monad over a [World]: the clock, the
      storage, the toast and the log of the external actions performed.  The
      servers, the timing and the wording of the engine's errors are a
      script ([Network]); the [while] loop of [pollForDeviceToken] takes
      fuel, and a run that is out of fuel has no result.
    - The JSON body of a response has the shape its TypeScript type
      declares; the body of a token-endpoint response may also be the
      literal [null], which the polling loop tells apart. *)

From Stdlib Require Import ZArith Lia Bool List Ascii String.
From Stdlib Require Import DecimalString DecimalPos.
From stdpp Require Import base option gmap strings.
Import ListNotations.

Local Open Scope string_scope.
Local Open Scope Z_scope.

(* ===================================================================== *)
(** ** JavaScript values *)
(* ===================================================================== *)

Inductive number : Type :=
| Num (z : Z)
| NaN.

(** Truthiness, as used by [if (x)], [!x], [x ? a : b] and [x || y]. *)
Definition truthy_number (n : number) : bool :=
  match n with
  | Num z => negb (z =? 0)
  | NaN => false
  end.

Definition truthy_string (s : string) : bool :=
  match s with
  | EmptyString => false
  | String _ _ => true
  end.

(** An optional property: [None] is [undefined] (or [null]). *)
Definition truthy {A : Type} (t : A -> bool) (o : option A) : bool :=
  match o with
  | Some a => t a
  | None => false
  end.

Definition num_sub (a b : number) : number :=
  match a, b with
  | Num x, Num y => Num (x - y)
  | _, _ => NaN
  end.

(** [a > b]; every comparison with [NaN] is false. *)
Definition num_gtb (a b : number) : bool :=
  match a, b with
  | Num x, Num y => x >? y
  | _, _ => false
  end.

(** [Number.MAX_SAFE_INTEGER], 2^53 - 1: up to it every integer is a
    double. *)
Definition MAX_SAFE_INTEGER : Z := 9007199254740991.

(** A number, where there is one, is a safe integer
    ([Number.isSafeInteger]); [NaN] and an absent number pass. *)
Definition safe_integers (o : option number) : bool :=
  match o with
  | Some (Num z) => Z.abs z <=? MAX_SAFE_INTEGER
  | _ => true
  end.

(** The double nearest to the integer [m], ties to the even significand.
    The exponent is not bounded: 2^1024 and more, [Infinity] in JavaScript,
    is outside the model. *)
Definition to_double (m : Z) : Z :=
  let a := Z.abs m in
  if a <=? MAX_SAFE_INTEGER then m
  else
    let e := Z.log2 a - 52 in
    let q := Z.shiftr a e in
    let r := a - Z.shiftl q e in
    let half := Z.shiftl 1 (e - 1) in
    let q' := if (half <? r) || ((r =? half) && Z.odd q) then q + 1 else q in
    Z.sgn m * Z.shiftl q' e.

(** The decimal digits of an integer, with its sign. *)
Definition decimal (z : Z) : string :=
  NilZero.string_of_int (Z.to_int z).

(** The integer with [k] significant digits (of the [n] that [a] has)
    nearest to [a], if it reads back as [a]; of two that are equally near,
    the one with the even last digit. *)
Definition rounded_to (a n k : Z) : option Z :=
  let unit := 10 ^ (n - k) in
  let below := (a / unit) * unit in
  let above := below + unit in
  let reads_back v := to_double v =? a in
  let below_first :=
    (a - below <? above - a)
    || ((a - below =? above - a) && Z.even (a / unit)) in
  if below_first
  then if reads_back below then Some below
       else if reads_back above then Some above else None
  else if reads_back above then Some above
       else if reads_back below then Some below else None.

(** The integer with the fewest significant digits that reads back as the
    double [a]: [k] digits are tried, then one more. *)
Fixpoint shortest (tries : nat) (a n k : Z) : Z :=
  match tries with
  | O => a
  | S tries' =>
      match rounded_to a n k with
      | Some v => v
      | None => shortest tries' a n (k + 1)
      end
  end.

Fixpoint strip_zeros (s : string) : string :=
  match s with
  | EmptyString => EmptyString
  | String a rest =>
      match strip_zeros rest with
      | EmptyString =>
          if Ascii.eqb a "0" then EmptyString else String a EmptyString
      | rest' => String a rest'
      end
  end.

(** A double of 2^53 and more: the shortest digits, followed by zeros up
    to 21 digits, in exponent notation from there on. *)
Definition toString_large (a : Z) : string :=
  let n := Z.of_nat (String.length (decimal a)) in
  let v := shortest 17 a n 1 in
  let digits := decimal v in
  let n := Z.of_nat (String.length digits) in
  if n <=? 21 then digits
  else
    match strip_zeros digits with
    | String first rest =>
        String first
          ((match rest with
            | EmptyString => EmptyString
            | _ => String "." rest
            end) +:+ "e+" +:+ decimal (n - 1))
    | EmptyString => "0"
    end.

(** [Number.prototype.toString] on an integer-valued number. *)
Definition toString (z : Z) : string :=
  if Z.abs z <=? MAX_SAFE_INTEGER then decimal z
  else if z <? 0 then String "-" (toString_large (Z.abs z))
  else toString_large z.

Definition number_toString (n : number) : string :=
  match n with
  | Num z => toString z
  | NaN => "NaN"
  end.

(** *** [parseInt(s, 10)] *)

Definition is_white (a : ascii) : bool :=
  let n := nat_of_ascii a in
  ((n =? 32) || ((9 <=? n) && (n <=? 13)))%nat.

Fixpoint skip_white (s : string) : string :=
  match s with
  | String a rest => if is_white a then skip_white rest else s
  | EmptyString => s
  end.

Definition digit_of (a : ascii) : option Z :=
  let n := nat_of_ascii a in
  if ((48 <=? n) && (n <=? 57))%nat then Some (Z.of_nat n - 48) else None.

(** The value of the longest prefix of decimal digits, most significant
    digit first. *)
Fixpoint digits_value (s : string) (acc : Z) : Z :=
  match s with
  | String a rest =>
      match digit_of a with
      | Some d => digits_value rest (10 * acc + d)
      | None => acc
      end
  | EmptyString => acc
  end.

Definition starts_with_digit (s : string) : bool :=
  match s with
  | String a _ => match digit_of a with Some _ => true | None => false end
  | EmptyString => false
  end.

(** The digits are read as far as they go and the value is rounded to a
    double (the language leaves the digits after the 20th to the engine;
    V8 rounds the exact value). *)
Definition parseInt (s : string) : number :=
  let s1 := skip_white s in
  let '(negative, s2) :=
    match s1 with
    | String "-"%char rest => (true, rest)
    | String "+"%char rest => (false, rest)
    | _ => (false, s1)
    end in
  if starts_with_digit s2
  then Num (to_double (if negative then - digits_value s2 0
                       else digits_value s2 0))
  else NaN.

(* ===================================================================== *)
(** ** Session and selection storage *)
(* ===================================================================== *)

Module STORAGE_KEYS.
Definition ACCESS_TOKEN : string := "convex-access-token".
Definition TOKEN_EXPIRES_AT : string := "convex-token-expires-at".
Definition REFRESH_TOKEN : string := "convex-refresh-token".
Definition SELECTED_TEAM_ID : string := "convex-selected-team-id".
Definition SELECTED_PROJECT_ID : string := "convex-selected-project-id".
Definition SELECTED_DEPLOYMENT_NAME : string := "convex-selected-deployment-name".
End STORAGE_KEYS.
Import STORAGE_KEYS.

Abbreviation Storage := (gmap string string).

Record ConvexSession : Type := {
  accessToken : string;
  tokenType : string;
  expiresAt : option number;
  refreshToken : option string
}.

Record SelectedContext : Type := {
  teamId : option number;
  projectId : option number;
  deploymentName : option string
}.

(** [LocalStorage.setItem], [getItem] and [removeItem]. *)
Definition setItem (key value : string) (st : Storage) : Storage :=
  <[key := value]> st.

Definition getItem (key : string) (st : Storage) : option string :=
  st !! key.

Definition removeItem (key : string) (st : Storage) : Storage :=
  delete key st.

Definition saveSession (session : ConvexSession) (st : Storage) : Storage :=
  let st := setItem ACCESS_TOKEN (accessToken session) st in
  let st :=
    match expiresAt session with
    | Some e => if truthy_number e
                then setItem TOKEN_EXPIRES_AT (number_toString e) st else st
    | None => st
    end in
  match refreshToken session with
  | Some r => if truthy_string r then setItem REFRESH_TOKEN r st else st
  | None => st
  end.

Definition loadSession (st : Storage) : option ConvexSession :=
  let accessToken := getItem ACCESS_TOKEN st in
  match accessToken with
  | None => None
  | Some token =>
      if negb (truthy_string token) then None
      else
        let expiresAtStr := getItem TOKEN_EXPIRES_AT st in
        let refreshToken := getItem REFRESH_TOKEN st in
        Some {| accessToken := token;
                tokenType := "Bearer";
                expiresAt := if truthy truthy_string expiresAtStr
                             then parseInt <$> expiresAtStr else None;
                refreshToken := refreshToken |}
  end.

(** The six removals of the [Promise.all] touch six different keys; they
    commute, and are taken in the order they are listed. *)
Definition clearSession (st : Storage) : Storage :=
  removeItem SELECTED_DEPLOYMENT_NAME
    (removeItem SELECTED_PROJECT_ID
      (removeItem SELECTED_TEAM_ID
        (removeItem REFRESH_TOKEN
          (removeItem TOKEN_EXPIRES_AT
            (removeItem ACCESS_TOKEN st))))).

(** [Date.now()] is the first argument. *)
Definition isSessionExpired (now : Z) (session : ConvexSession) : bool :=
  if negb (truthy truthy_number (expiresAt session)) then false
  else
    match expiresAt session with
    | Some e => num_gtb (Num now) (num_sub e (Num (5 * 60 * 1000)))
    | None => false
    end.

Definition saveSelectedContext (context : SelectedContext) (st : Storage)
  : Storage :=
  let st :=
    match teamId context with
    | Some t => if truthy_number t
                then setItem SELECTED_TEAM_ID (number_toString t) st else st
    | None => st
    end in
  let st :=
    match projectId context with
    | Some p => if truthy_number p
                then setItem SELECTED_PROJECT_ID (number_toString p) st else st
    | None => st
    end in
  match deploymentName context with
  | Some d => if truthy_string d
              then setItem SELECTED_DEPLOYMENT_NAME d st else st
  | None => st
  end.

Definition loadSelectedContext (st : Storage) : SelectedContext :=
  let teamIdStr := getItem SELECTED_TEAM_ID st in
  let projectIdStr := getItem SELECTED_PROJECT_ID st in
  let deploymentName := getItem SELECTED_DEPLOYMENT_NAME st in
  {| teamId := if truthy truthy_string teamIdStr
               then parseInt <$> teamIdStr else None;
     projectId := if truthy truthy_string projectIdStr
                  then parseInt <$> projectIdStr else None;
     deploymentName := deploymentName |}.

(** What [loadSelectedContext] makes of a stored numeric identifier. *)
Definition read_id (stored : option string) : option number :=
  if truthy truthy_string stored then parseInt <$> stored else None.


(* ===================================================================== *)
(** ** The log view: filtering the fetched buffer by the search text *)
(* ===================================================================== *)

Module ViewLogs.

(** What [String.prototype.toLowerCase] does on ASCII text: it folds the
    letters A-Z. *)
Definition lower_char (a : ascii) : ascii :=
  let n := nat_of_ascii a in
  if ((65 <=? n) && (n <=? 90))%nat then ascii_of_nat (n + 32) else a.

Fixpoint toLowerCase_ascii (s : string) : string :=
  match s with
  | String a rest => String (lower_char a) (toLowerCase_ascii rest)
  | EmptyString => EmptyString
  end.

(** The string is ASCII text: every character is below 128. *)
Fixpoint is_ascii (s : string) : bool :=
  match s with
  | String a rest => (nat_of_ascii a <? 128)%nat && is_ascii rest
  | EmptyString => true
  end.

(** What is assumed of a [toLowerCase] where its result matters: on ASCII
    text it is the folding of A-Z. *)
Definition folds_ascii (toLowerCase : string -> string) : Prop :=
  forall s, is_ascii s = true -> toLowerCase s = toLowerCase_ascii s.

(** [s.includes(search)]: [search] occurs in [s] at some position. *)
Fixpoint includes (s search : string) : bool :=
  if String.prefix search s then true
  else
    match s with
    | String _ rest => includes rest search
    | EmptyString => false
    end.

(** [search] is a substring of [s]. *)
Definition substring_of (search s : string) : Prop :=
  exists before after, s = String.append before (String.append search after).

(** Modelled from the spec: the [LogEntry] type of [hooks/useConvexData],
    which is imported by [view-logs.tsx] and not part of the sources; the
    fields are those of the spec's data model that the log view reads (usage
    metrics and the raw payload are left out). *)
Record LogEntry : Type := {
  id : string;
  functionPath : string;
  functionType : string;
  status : string;
  requestId : string;
  timestamp : Z;
  executionTimeMs : Z;
  cached : bool;
  logLines : list string;
  errorMessage : option string
}.

(** The fields the search text is looked up in. *)
Definition searched_fields (log : LogEntry) : list string :=
  [functionPath log; requestId log; status log; functionType log].

Section Search.

(** [String.prototype.toLowerCase]. *)
Variable toLowerCase : string -> string.

(** The callback given to [logs.filter]. *)
Definition matches_search (searchText : string) (log : LogEntry) : bool :=
  if negb (truthy_string searchText) then true
  else
    let search := toLowerCase searchText in
    includes (toLowerCase (functionPath log)) search
    || includes (toLowerCase (requestId log)) search
    || includes (toLowerCase (status log)) search
    || includes (toLowerCase (functionType log)) search.

Definition filteredLogs (logs : list LogEntry) (searchText : string)
  : list LogEntry :=
  List.filter (matches_search searchText) logs.

(** The entry matches: the lowercased search text is a substring of one of
    the searched fields, lowercased. *)
Definition entry_matches (searchText : string) (log : LogEntry) : Prop :=
  exists field, In field (searched_fields log)
    /\ substring_of (toLowerCase searchText) (toLowerCase field).

End Search.

(** The state of the command that the log list depends on: what
    [useConvexAuth] gives, the function chosen in the dropdown and the text
    of the search bar. *)
Record ViewLogsState : Type := {
  session : option ConvexSession;
  selectedContext : SelectedContext;
  functionFilter : option string;
  searchText : string
}.

(** [onSearchTextChange={setSearchText}]. *)
Definition setSearchText (text : string) (state : ViewLogsState)
  : ViewLogsState :=
  {| session := session state; selectedContext := selectedContext state;
     functionFilter := functionFilter state; searchText := text |}.

(** The arguments of the call of [useLogs], the hook that fetches the logs
    from the deployment (the hook itself is in [hooks/useConvexData], not
    part of the sources). *)
Record UseLogsArguments : Type := {
  logs_accessToken : option string;
  logs_deploymentName : option string;
  logs_functionFilter : option string;
  autoRefresh : bool
}.

Definition useLogs_arguments (state : ViewLogsState) : UseLogsArguments :=
  let accessToken := accessToken <$> session state in
  let deploymentName := deploymentName (selectedContext state) in
  {| logs_accessToken := accessToken;
     logs_deploymentName := deploymentName;
     logs_functionFilter := functionFilter state;
     autoRefresh := true |}.

End ViewLogs.

(* ===================================================================== *)
(** ** The world the authentication code runs in *)
(* ===================================================================== *)

(** *** HTTP *)

Inductive Endpoint : Type :=
| OpenidConfiguration      (* GET {issuer}/.well-known/openid-configuration *)
| DeviceAuthorization      (* POST device_authorization_endpoint *)
| Token                    (* POST token_endpoint *)
| Authorize.               (* POST {BIG_BRAIN_URL}/api/authorize *)

Inductive Request : Type :=
| GetOpenidConfiguration
| PostDeviceAuthorization (url : string)
| PostToken (url device_code : string)
| PostAuthorize (authnToken : string).

Definition endpoint_of (r : Request) : Endpoint :=
  match r with
  | GetOpenidConfiguration => OpenidConfiguration
  | PostDeviceAuthorization _ => DeviceAuthorization
  | PostToken _ _ => Token
  | PostAuthorize _ => Authorize
  end.

Definition Endpoint_eqb (a b : Endpoint) : bool :=
  match a, b with
  | OpenidConfiguration, OpenidConfiguration
  | DeviceAuthorization, DeviceAuthorization
  | Token, Token
  | Authorize, Authorize => true
  | _, _ => false
  end.

(** A [Response]: [ok] and [status] as [fetch] gives them; [text] and [json]
    are the results of reading the body, [None] when the read is rejected
    (for [json]: the body is not JSON, and the rejection carries the
    engine's message, see [syntax_error]). *)
Record Response (B : Type) : Type := {
  ok : bool;
  status : Z;
  text : option string;
  json : option B
}.
Arguments ok {B} _.
Arguments status {B} _.
Arguments text {B} _.
Arguments json {B} _.

(** What one [fetch] comes to: a response, or a rejected promise. *)
Inductive Fetched (B : Type) : Type :=
| Responded (r : Response B)
| Rejected (message : string).
Arguments Responded {B} _.
Arguments Rejected {B} _.

Record AuthEndpoints : Type := {
  device_authorization_endpoint : string;
  token_endpoint : string
}.

Record DeviceAuthResponse : Type := {
  device_code : string;
  user_code : string;
  verification_uri : string;
  verification_uri_complete : string;
  expires_in : Z;
  interval : option Z
}.

(** The JSON body of a token-endpoint response, when it is an object: the
    fields of [TokenResponse], and the [error] member the polling loop reads
    from a response that is not [ok].  The body may also be the literal
    [null]: the endpoint's bodies are [option TokenResponse], [None] being
    [null]. *)
Record TokenResponse : Type := {
  error : option string;
  access_token : string;
  token_type : string;
  token_expires_in : option Z;
  refresh_token : option string
}.

(** The JSON body [data] of the reply of [/api/authorize]. *)
Record AuthorizeData : Type := {
  data_accessToken : string;
  data_tokenType : option string;
  data_expiresAt : option Z;
  data_refreshToken : option string
}.

(** The servers, the timing and the engine, as a script: the answer to the
    n-th request to each endpoint, how long that request takes, by how much
    the n-th timer fires late, whether the browser opens ([Some m]: [open] is
    rejected with message [m]), and the message of the error that
    [response.json()] is rejected with, which the engine words from the text
    of the body. *)
Record Network : Type := {
  openid_configuration : nat -> Fetched AuthEndpoints;
  device_authorization : nat -> Fetched DeviceAuthResponse;
  token : nat -> Fetched (option TokenResponse);
  authorize : nat -> Fetched AuthorizeData;
  latency : Endpoint -> nat -> Z;
  timer_lag : nat -> Z;
  open_fails : option string;
  syntax_error : option string -> string
}.

(** *** The observable actions *)

Inductive Event : Type :=
| Fetch (r : Request)
| Open (url : string)
| SetTimeout (ms : Z)
| ShouldStop
| OnPoll.

Definition is_request_to (e : Endpoint) (ev : Event) : bool :=
  match ev with
  | Fetch r => Endpoint_eqb (endpoint_of r) e
  | _ => false
  end.

Definition is_timer (ev : Event) : bool :=
  match ev with
  | SetTimeout _ => true
  | _ => false
  end.

Definition is_network_call (ev : Event) : bool :=
  match ev with
  | Fetch _ => true
  | _ => false
  end.

Inductive ToastStyle : Type := Animated | Success | Failure.

Record Toast : Type := {
  style : ToastStyle;
  title : string;
  message : option string
}.

(** The clock (milliseconds), the local storage, the toast on screen and the
    actions performed so far, the latest first. *)
Record World : Type := {
  now : Z;
  storage : Storage;
  toast : option Toast;
  log : list Event
}.

Definition requests_to (e : Endpoint) (w : World) : nat :=
  length (List.filter (is_request_to e) (log w)).

Definition timers (w : World) : nat :=
  length (List.filter is_timer (log w)).

(** The actions in the order they happened. *)
Definition history (w : World) : list Event := rev (log w).

(** The world after action [ev], which took [took] milliseconds. *)
Definition after (ev : Event) (took : Z) (w : World) : World :=
  {| now := now w + took; storage := storage w; toast := toast w;
     log := ev :: log w |}.

(** The world after action [ev], which took no time. *)
Definition note (ev : Event) (w : World) : World :=
  {| now := now w; storage := storage w; toast := toast w;
     log := ev :: log w |}.

Definition initial (t : Z) (st : Storage) : World :=
  {| now := t; storage := st; toast := None; log := [] |}.

(** *** The monad: state, exceptions, and fuel for the polling loop *)

Inductive Outcome (A : Type) : Type :=
| Return (a : A)
| Throw (message : string).
Arguments Return {A} _.
Arguments Throw {A} _.

(** [None]: the fuel ran out before the code returned. *)
Definition M (A : Type) : Type := World -> option (Outcome A * World).

Definition ret {A : Type} (a : A) : M A := fun w => Some (Return a, w).

Definition throw {A : Type} (message : string) : M A :=
  fun w => Some (Throw message, w).

Definition bind {A B : Type} (m : M A) (k : A -> M B) : M B :=
  fun w =>
    match m w with
    | Some (Return a, w') => k a w'
    | Some (Throw e, w') => Some (Throw e, w')
    | None => None
    end.

(** [try { m } catch (error) { handler error }]. *)
Definition try_catch {A : Type} (m : M A) (handler : string -> M A) : M A :=
  fun w =>
    match m w with
    | Some (Throw e, w') => handler e w'
    | other => other
    end.

Notation "'do' x <- m ;; k" := (bind m (fun x => k))
  (at level 10, x name, m at level 99, k at level 200,
   format "'[v' 'do'  x  <-  m  ;; '/' k ']'").

Definition Date_now : M Z := fun w => Some (Return (now w), w).

Definition perform (ev : Event) (took : Z) : M unit :=
  fun w => Some (Return tt, after ev took w).

Definition callback (ev : Event) : M unit :=
  fun w => Some (Return tt, note ev w).

(** [await fetch(...)]: the request is logged, time passes, and the script
    of the endpoint gives the response or the rejection. *)
Definition fetch {B : Type} (net : Network) (r : Request)
    (server : nat -> Fetched B) : M (Response B) :=
  fun w =>
    let n := requests_to (endpoint_of r) w in
    let w' := after (Fetch r) (latency net (endpoint_of r) n) w in
    match server n with
    | Responded response => Some (Return response, w')
    | Rejected e => Some (Throw e, w')
    end.

(** [await new Promise((resolve) => setTimeout(resolve, ms))]: a negative
    delay counts as none. *)
Definition setTimeout (net : Network) (ms : Z) : M unit :=
  fun w => perform (SetTimeout ms) (Z.max 0 ms + timer_lag net (timers w)) w.

(** [await response.json()]. *)
Definition response_json {B : Type} (net : Network) (response : Response B)
  : M B :=
  match json response with
  | Some body => ret body
  | None => throw (syntax_error net (text response))
  end.

(** [await response.text().catch(() => "Unknown error")]. *)
Definition response_text {B : Type} (response : Response B) : string :=
  match text response with
  | Some t => t
  | None => "Unknown error"
  end.

Definition set_toast (t : Toast) : M unit :=
  fun w => Some (Return tt,
                 {| now := now w; storage := storage w; toast := Some t;
                    log := log w |}).

Definition update_storage (f : Storage -> Storage) : M unit :=
  fun w => Some (Return tt,
                 {| now := now w; storage := f (storage w); toast := toast w;
                    log := log w |}).

(** [await open(url)]. *)
Definition open (net : Network) (url : string) : M unit :=
  fun w =>
    match open_fails net with
    | None => Some (Return tt, note (Open url) w)
    | Some e => Some (Throw e, note (Open url) w)
    end.

(* ===================================================================== *)
(** ** The device-code flow *)
(* ===================================================================== *)

Definition discoverAuthEndpoints (net : Network) : M AuthEndpoints :=
  do response <- fetch net GetOpenidConfiguration (openid_configuration net) ;;
  if negb (ok response) then
    throw ("Failed to discover auth configuration: "
           +:+ toString (status response))
  else response_json net response.

Definition startDeviceAuthorization (net : Network) : M DeviceAuthResponse :=
  do config <- discoverAuthEndpoints net ;;
  do response <- fetch net
      (PostDeviceAuthorization (device_authorization_endpoint config))
      (device_authorization net) ;;
  if negb (ok response) then
    let errorText := response_text response in
    throw ("Failed to start device authorization: "
           +:+ toString (status response) +:+ " " +:+ errorText)
  else response_json net response.

(** [(auth.interval || 5) * 1000]. *)
Definition pollInterval (auth : DeviceAuthResponse) : Z :=
  (match interval auth with
   | Some i => if i =? 0 then 5 else i
   | None => 5
   end) * 1000.

(** [shouldStop?.()]: the callback, when given, is called (and the call
    logged); it may read anything of the world. *)
Definition call_shouldStop (shouldStop : option (World -> bool)) : M bool :=
  match shouldStop with
  | Some f => fun w => Some (Return (f w), note ShouldStop w)
  | None => ret false
  end.

(** [onPoll?.()]. *)
Definition call_onPoll (onPoll : bool) : M unit :=
  if onPoll then callback OnPoll else ret tt.

(** The body of the response is the literal [null]. *)
Definition body_is_null (response : Response (option TokenResponse)) : bool :=
  match json response with
  | Some None => true
  | _ => false
  end.

(** The [error] member of the body of a failed response that is not
    [null]: [errorBody] is [{}] when the body is not JSON. *)
Definition error_of (response : Response (option TokenResponse))
  : option string :=
  match json response with
  | Some (Some errorBody) => error errorBody
  | _ => None
  end.

(** The message of the [TypeError] that reading [errorBody.error] throws
    when [errorBody] is [null], in V8's words. *)
Definition null_error : string :=
  "Cannot read properties of null (reading 'error')".

Definition error_is (e : option string) (code : string) : bool :=
  match e with
  | Some s => String.eqb s code
  | None => false
  end.

(** The [while (Date.now() < expiresAt)] loop; [fuel] bounds the number of
    iterations. *)
Fixpoint poll_loop (fuel : nat) (net : Network) (auth : DeviceAuthResponse)
    (onPoll : bool) (shouldStop : option (World -> bool))
    (token_endpoint : string) (expiresAt : Z) : M (option TokenResponse) :=
  match fuel with
  | O => fun _ => None
  | S fuel' =>
      do t <- Date_now ;;
      if t <? expiresAt then
        do stop <- call_shouldStop shouldStop ;;
        if stop then ret None
        else
          do _ <- call_onPoll onPoll ;;
          do response <- fetch net (PostToken token_endpoint (device_code auth))
                           (token net) ;;
          if ok response then response_json net response
          else if body_is_null response then throw null_error
          else
            let error := error_of response in
            if error_is error "authorization_pending"
               || error_is error "slow_down" then
              do _ <- setTimeout net (pollInterval auth) ;;
              poll_loop fuel' net auth onPoll shouldStop token_endpoint
                expiresAt
            else if error_is error "expired_token" then
              throw "Authentication expired. Please try again."
            else if error_is error "access_denied" then
              throw "Authentication was denied."
            else
              throw ("Authentication failed: "
                     +:+ (if truthy truthy_string error
                          then default "" error
                          else toString (status response)))
      else ret None
  end.

Definition pollForDeviceToken (fuel : nat) (net : Network)
    (auth : DeviceAuthResponse) (onPoll : bool)
    (shouldStop : option (World -> bool)) : M (option TokenResponse) :=
  do endpoints <- discoverAuthEndpoints net ;;
  do t <- Date_now ;;
  let expiresAt := t + expires_in auth * 1000 in
  poll_loop fuel net auth onPoll shouldStop (token_endpoint endpoints)
    expiresAt.

Definition exchangeForDashboardToken (net : Network) (oidcToken : string)
  : M ConvexSession :=
  do response <- fetch net (PostAuthorize oidcToken) (authorize net) ;;
  if negb (ok response) then
    let errorText := response_text response in
    throw ("Failed to authorize with Convex: "
           +:+ toString (status response) +:+ " " +:+ errorText)
  else
    do data <- response_json net response ;;
    do t <- Date_now ;;
    ret {| accessToken := data_accessToken data;
           tokenType := default "Bearer" (data_tokenType data);
           expiresAt :=
             match data_expiresAt data with
             | Some e => if e =? 0 then None else Some (Num (t + e * 1000))
             | None => None
             end;
           refreshToken := data_refreshToken data |}.

(** The toast is one object whose fields the flow assigns. *)
Definition update_toast (f : Toast -> Toast) : M unit :=
  fun w => Some (Return tt,
                 {| now := now w; storage := storage w;
                    toast := f <$> toast w; log := log w |}).

Definition authenticate (fuel : nat) (net : Network) : M ConvexSession :=
  do _ <- set_toast {| style := Animated;
                       title := "Starting authentication...";
                       message := None |} ;;
  try_catch
    (do deviceAuth <- startDeviceAuthorization net ;;
     do _ <- update_toast (fun _ =>
               {| style := Animated;
                  title := "Waiting for authentication";
                  message := Some ("Code: " +:+ user_code deviceAuth) |}) ;;
     do _ <- open net (verification_uri_complete deviceAuth) ;;
     do tokens <- pollForDeviceToken fuel net deviceAuth false None ;;
     match tokens with
     | None => throw "Authentication expired or cancelled"
     | Some tokens =>
         do _ <- update_toast (fun t =>
                   {| style := style t;
                      title := "Completing authentication...";
                      message := None |}) ;;
         do session <- exchangeForDashboardToken net (access_token tokens) ;;
         do _ <- update_storage (saveSession session) ;;
         do _ <- update_toast (fun t =>
                   {| style := Success;
                      title := "Authenticated successfully";
                      message := message t |}) ;;
         ret session
     end)
    (fun error =>
       do _ <- update_toast (fun _ =>
                 {| style := Failure;
                    title := "Authentication failed";
                    message := Some error |}) ;;
       throw error).

(* ===================================================================== *)
(** ** Vocabulary for the statements about polling *)
(* ===================================================================== *)

(** The stop signal fires in world [w]. *)
Definition stops (shouldStop : option (World -> bool)) (w : World) : bool :=
  match shouldStop with
  | Some f => f w
  | None => false
  end.

(** The world in which an iteration that goes on issues its token request:
    the callbacks that were given have been called. *)
Definition polled (onPoll : bool) (shouldStop : option (World -> bool))
    (w : World) : World :=
  let w1 := match shouldStop with
            | Some _ => note ShouldStop w
            | None => w
            end in
  if onPoll then note OnPoll w1 else w1.

(** The world after the token request of the iteration entered in [w]. *)
Definition requested (net : Network) (auth : DeviceAuthResponse)
    (onPoll : bool) (shouldStop : option (World -> bool)) (url : string)
    (w : World) : World :=
  after (Fetch (PostToken url (device_code auth)))
    (latency net Token (requests_to Token w)) (polled onPoll shouldStop w).

(** The world after the timer that follows that request. *)
Definition slept (net : Network) (auth : DeviceAuthResponse)
    (onPoll : bool) (shouldStop : option (World -> bool)) (url : string)
    (w : World) : World :=
  after (SetTimeout (pollInterval auth))
    (Z.max 0 (pollInterval auth) + timer_lag net (timers w))
    (requested net auth onPoll shouldStop url w).

(** The world after [k] iterations that each made their request and then
    waited. *)
Fixpoint rounds (net : Network) (auth : DeviceAuthResponse)
    (onPoll : bool) (shouldStop : option (World -> bool)) (url : string)
    (k : nat) (w : World) : World :=
  match k with
  | O => w
  | S k' => slept net auth onPoll shouldStop url
              (rounds net auth onPoll shouldStop url k' w)
  end.

(** The token endpoint answers with an error response (a response that is
    not [ok]) whose body carries the error [code]. *)
Definition carries_error (reply : Fetched (option TokenResponse))
    (code : string)
  : Prop :=
  exists r, reply = Responded r /\ ok r = false /\ error_of r = Some code.

(** The token endpoint answers with a token payload. *)
Definition carries_token (reply : Fetched (option TokenResponse))
    (tokens : TokenResponse) : Prop :=
  exists r, reply = Responded r /\ ok r = true /\ json r = Some (Some tokens).

(** Discovery number [n] succeeds and gives [endpoints]. *)
Definition discovers (net : Network) (n : nat) (endpoints : AuthEndpoints)
  : Prop :=
  exists r, openid_configuration net n = Responded r
            /\ ok r = true /\ json r = Some endpoints.

(** The world after a discovery request made in [w]. *)
Definition discovered (net : Network) (w : World) : World :=
  after (Fetch GetOpenidConfiguration)
    (latency net OpenidConfiguration (requests_to OpenidConfiguration w)) w.

(** The error codes that end the polling, each with the message of the
    error thrown for it. *)
Definition fatal_errors : list (string * string) :=
  [("expired_token", "Authentication expired. Please try again.");
   ("access_denied", "Authentication was denied.")].

(** The time the first [k] iterations take when each one is answered
    [authorization_pending] or [slow_down]: the request, then the timer. *)
Fixpoint waited (net : Network) (auth : DeviceAuthResponse) (k : nat) : Z :=
  match k with
  | O => 0
  | S k' => waited net auth k'
            + latency net Token k'
            + (Z.max 0 (pollInterval auth) + timer_lag net k')
  end.

(** The network requests and the timers of a run, in the order they
    happened. *)
Definition calls_and_timers (w : World) : list Event :=
  List.filter (fun ev => is_network_call ev || is_timer ev) (history w).

(** The discipline of the stop signal, read off a log (latest action
    first): [Some checked] when every token request so far was preceded by
    exactly one call of [shouldStop] since the request before it, [checked]
    telling whether a call is waiting for its request; [None] when a token
    request went out unchecked or the signal was read twice in a row. *)
Fixpoint stop_discipline (l : list Event) : option bool :=
  match l with
  | [] => Some false
  | ev :: earlier =>
      match stop_discipline earlier with
      | None => None
      | Some checked =>
          match ev with
          | ShouldStop => if checked then None else Some true
          | Fetch (PostToken _ _) => if checked then Some false else None
          | _ => Some checked
          end
      end
  end.

(** [m] leaves the local storage as it found it, however it ends. *)
Definition keeps_storage {A : Type} (m : M A) : Prop :=
  forall w out w', m w = Some (out, w') -> storage w' = storage w.

(** [m] leaves the local storage as it found it when it throws. *)
Definition keeps_storage_on_throw {A : Type} (m : M A) : Prop :=
  forall w e w', m w = Some (Throw e, w') -> storage w' = storage w.

(** *** Mock servers *)

Definition reply_error (code : string) : Fetched (option TokenResponse) :=
  Responded {| ok := false; status := 400; text := None;
               json := Some (Some {| error := Some code; access_token := "";
                                     token_type := "";
                                     token_expires_in := None;
                                     refresh_token := None |}) |}.

(** A response whose body is the literal [null]. *)
Definition reply_null (ok : bool) (status : Z)
  : Fetched (option TokenResponse) :=
  Responded {| ok := ok; status := status; text := Some "null";
               json := Some None |}.

Definition reply_token (tokens : TokenResponse)
  : Fetched (option TokenResponse) :=
  Responded {| ok := true; status := 200; text := None;
               json := Some (Some tokens) |}.

Definition sample_tokens : TokenResponse :=
  {| error := None; access_token := "oidc-token"; token_type := "Bearer";
     token_expires_in := Some 3600; refresh_token := None |}.

Definition sample_endpoints : AuthEndpoints :=
  {| device_authorization_endpoint := "https://auth.convex.dev/oauth/device/code";
     token_endpoint := "https://auth.convex.dev/oauth/token" |}.

Definition sample_auth (expires interval_s : Z) : DeviceAuthResponse :=
  {| device_code := "device-1"; user_code := "ABCD-EFGH";
     verification_uri := "https://auth.convex.dev/activate";
     verification_uri_complete :=
       "https://auth.convex.dev/activate?user_code=ABCD-EFGH";
     expires_in := expires; interval := Some interval_s |}.

(** A network whose token endpoint answers from the list [replies], then
    [rest] for ever; discovery and device authorization succeed, the
    authorize endpoint answers [authorized], every request takes [took]
    milliseconds and timers fire on time. *)
Definition mock (replies : list (Fetched (option TokenResponse)))
    (rest : Fetched (option TokenResponse))
    (authorized : Fetched AuthorizeData) (took : Z) : Network :=
  {| openid_configuration := fun _ =>
       Responded {| ok := true; status := 200; text := None;
                    json := Some sample_endpoints |};
     device_authorization := fun _ =>
       Responded {| ok := true; status := 200; text := None;
                    json := Some (sample_auth 900 5) |};
     token := fun n => nth n replies rest;
     authorize := fun _ => authorized;
     latency := fun _ _ => took;
     timer_lag := fun _ => 0;
     open_fails := None;
     syntax_error := fun _ => "Unexpected token in JSON" |}.

(* ===================================================================== *)
(** * Beyond the claims: more of the code *)
(* ===================================================================== *)

(** ** Vocabulary for the storage properties *)

(** A session whose fields [saveSession] writes in full: a non-empty access
    token, and optional fields that are absent or pass the [if (...)] of
    [saveSession], the expiry being a safe integer. *)
Definition storable (s : ConvexSession) : Prop :=
  accessToken s <> ""
  /\ (expiresAt s = None
      \/ truthy truthy_number (expiresAt s) = true
         /\ safe_integers (expiresAt s) = true)
  /\ (refreshToken s = None \/ truthy truthy_string (refreshToken s) = true).

(** The session as [loadSession] gives it back: the token type is not
    stored, it is always ["Bearer"]. *)
Definition as_loaded (s : ConvexSession) : ConvexSession :=
  {| accessToken := accessToken s; tokenType := "Bearer";
     expiresAt := expiresAt s; refreshToken := refreshToken s |}.

Definition session_keys : list string :=
  [ACCESS_TOKEN; TOKEN_EXPIRES_AT; REFRESH_TOKEN].

Definition selection_keys : list string :=
  [SELECTED_TEAM_ID; SELECTED_PROJECT_ID; SELECTED_DEPLOYMENT_NAME].

(** ** Vocabulary for the flow properties *)

(** The token endpoint answers with an [ok] response whose body is the
    literal [null]. *)
Definition carries_null (reply : Fetched (option TokenResponse)) : Prop :=
  exists r, reply = Responded r /\ ok r = true /\ json r = Some None.

(** [m] leaves the part [part] of the world as it found it, however it
    ends. *)
Definition unchanged {X A : Type} (part : World -> X) (m : M A) : Prop :=
  forall w out w', m w = Some (out, w') -> part w' = part w.

(** What the user sees and what is stored. *)
Definition screen_and_storage (w : World) : option Toast * Storage :=
  (toast w, storage w).

(** The world after the exchange request made in [w]. *)
Definition authorized (net : Network) (oidcToken : string) (w : World)
  : World :=
  after (Fetch (PostAuthorize oidcToken))
    (latency net Authorize (requests_to Authorize w)) w.

(** [m] keeps a toast on screen once one is shown. *)
Definition keeps_toast_shown {A : Type} (m : M A) : Prop :=
  forall w out w', is_Some (toast w) -> m w = Some (out, w') ->
    is_Some (toast w').

(* ===================================================================== *)
(** ** More of JavaScript's strings *)
(* ===================================================================== *)

Fixpoint string_take (n : nat) (s : string) : string :=
  match n, s with
  | S n', String a rest => String a (string_take n' rest)
  | _, _ => EmptyString
  end.

Fixpoint string_drop (n : nat) (s : string) : string :=
  match n, s with
  | S n', String _ rest => string_drop n' rest
  | _, _ => s
  end.

(** [s.length]. *)
Definition string_length (s : string) : Z := Z.of_nat (String.length s).

(** [s.substring(start, finish)]: both indices are clamped to the string and
    taken in increasing order. *)
Definition substring (s : string) (start finish : Z) : string :=
  let clamp i := Z.max 0 (Z.min i (string_length s)) in
  let from := Z.min (clamp start) (clamp finish) in
  let to := Z.max (clamp start) (clamp finish) in
  string_take (Z.to_nat (to - from)) (string_drop (Z.to_nat from) s).

(** [s.substring(start)]. *)
Definition substring_from (s : string) (start : Z) : string :=
  substring s start (string_length s).

(** The position of the last occurrence of [search] in [s], if any. *)
Fixpoint last_index (s search : string) : option nat :=
  match s with
  | EmptyString => if String.prefix search s then Some O else None
  | String _ rest =>
      match last_index rest search with
      | Some i => Some (S i)
      | None => if String.prefix search s then Some O else None
      end
  end.

(** [s.lastIndexOf(search)]: -1 when [search] does not occur. *)
Definition lastIndexOf (s search : string) : Z :=
  match last_index s search with
  | Some i => Z.of_nat i
  | None => -1
  end.

(** [s.startsWith(search)]. *)
Definition startsWith (s search : string) : bool := String.prefix search s.

(** [parts.join(separator)]. *)
Fixpoint join (separator : string) (parts : list string) : string :=
  match parts with
  | [] => EmptyString
  | [part] => part
  | part :: rest => part +:+ separator +:+ join separator rest
  end.

Definition newline : string := String (ascii_of_nat 10) EmptyString.

Definition quote : string := String (ascii_of_nat 34) EmptyString.

(* ===================================================================== *)
(** ** The colours and icons of the lists *)
(* ===================================================================== *)

(** The members of [Color] and [Icon] of the Raycast API that the helpers
    return. *)
Inductive Color : Type :=
| Blue | Orange | Purple | Green | Red | SecondaryText.

Inductive Icon : Type :=
| MagnifyingGlass | Pencil | Bolt | Globe | Code | XMarkCircle.

(* ===================================================================== *)
(** ** The helpers of the log view *)
(* ===================================================================== *)

Module LogView.
Import ViewLogs.

Definition getFunctionName (path : string) : string :=
  let colonIndex := lastIndexOf path ":" in
  if colonIndex >? -1 then substring_from path (colonIndex + 1) else path.

Definition getFunctionTypeColor (type : string) : Color :=
  if String.eqb type "query" then Blue
  else if String.eqb type "mutation" then Orange
  else if String.eqb type "action" then Purple
  else if String.eqb type "http" then Green
  else SecondaryText.

(** The object [{ source, tintColor }] as a pair. *)
Definition getLogIcon (log : LogEntry) : Icon * Color :=
  if String.eqb (status log) "failure" then (XMarkCircle, Red)
  else if String.eqb (functionType log) "query" then (MagnifyingGlass, Blue)
  else if String.eqb (functionType log) "mutation" then (Pencil, Orange)
  else if String.eqb (functionType log) "action" then (Bolt, Purple)
  else if String.eqb (functionType log) "http" then (Globe, Green)
  else (Code, SecondaryText).

Definition truncation_notice : string :=
  newline +:+ "... (copy full error with Cmd+Opt+C)".

Definition truncateError (error : string) (maxLength : Z) : string :=
  if string_length error <=? maxLength then error
  else substring error 0 maxLength +:+ truncation_notice.

End LogView.

(* ===================================================================== *)
(** ** The function list of the run command *)
(* ===================================================================== *)

Module RunFunction.

(** The [FunctionSpec] and module types are declared in [lib/api] and
    [hooks/useConvexData], outside the sources: the records have the members
    that [run-function.tsx] reads ([visibility] holds [visibility?.kind]). *)
Record FunctionSpec : Type := {
  identifier : string;
  functionType : string;
  visibility : option string;
  args : option string
}.

Record ModuleSpec : Type := {
  path : string;
  functions : list FunctionSpec
}.

(** [{ ...fn, fullPath, modulePath, identifier: functionName }]. *)
Record FunctionWithPath : Type := {
  spec : FunctionSpec;
  fullPath : string;
  modulePath : string
}.

Definition getFunctionIcon (type : string) : Icon :=
  if String.eqb type "query" then MagnifyingGlass
  else if String.eqb type "mutation" then Pencil
  else if String.eqb type "action" then Bolt
  else Code.

Definition getFunctionColor (type : string) : Color :=
  if String.eqb type "query" then Blue
  else if String.eqb type "mutation" then Orange
  else if String.eqb type "action" then Purple
  else SecondaryText.

Definition formatArgsPreview (args : string) : string :=
  if string_length args >? 100 then substring args 0 100 +:+ "..."
  else args.

Definition is_public (fn : FunctionSpec) : bool :=
  match visibility fn with
  | Some kind => String.eqb kind "public"
  | None => false
  end.

Definition with_path (module : ModuleSpec) (fn : FunctionSpec)
  : FunctionWithPath :=
  let colonIndex := lastIndexOf (identifier fn) ":" in
  let functionName :=
    if colonIndex >? -1
    then substring_from (identifier fn) (colonIndex + 1)
    else identifier fn in
  {| spec := {| identifier := functionName;
                functionType := functionType fn;
                visibility := visibility fn;
                args := args fn |};
     fullPath := identifier fn;
     modulePath := path module |}.

Definition allFunctions (modules : list ModuleSpec) : list FunctionWithPath :=
  flat_map (fun module =>
              map (with_path module) (List.filter is_public (functions module)))
    modules.

Section Search.

(** [String.prototype.toLowerCase]. *)
Variable toLowerCase : string -> string.

Definition matches_function (searchText : string) (fn : FunctionWithPath)
  : bool :=
  let searchLower := toLowerCase searchText in
  ViewLogs.includes (toLowerCase (fullPath fn)) searchLower
  || ViewLogs.includes (toLowerCase (identifier (spec fn))) searchLower
  || ViewLogs.includes (toLowerCase (functionType (spec fn))) searchLower.

Definition filteredFunctions (all : list FunctionWithPath)
    (searchText : string) : list FunctionWithPath :=
  List.filter (matches_function searchText) all.

End Search.

(** The property names every object literal inherits from
    [Object.prototype]: [acc[module]] finds them although [acc] has no such
    key of its own. *)
Definition Object_prototype_keys : list string :=
  ["constructor"; "hasOwnProperty"; "isPrototypeOf"; "propertyIsEnumerable";
   "toLocaleString"; "toString"; "valueOf"; "__proto__"; "__defineGetter__";
   "__defineSetter__"; "__lookupGetter__"; "__lookupSetter__"].

Definition is_inherited (key : string) : bool :=
  existsb (String.eqb key) Object_prototype_keys.

(** One step of the [reduce]: [None] is the [TypeError] of
    [acc[module].push] when [acc[module]] is an inherited member, which is
    truthy and has no [push]. *)
Definition group_step (acc : option (gmap string (list FunctionWithPath)))
    (fn : FunctionWithPath) : option (gmap string (list FunctionWithPath)) :=
  match acc with
  | None => None
  | Some groups =>
      let module := modulePath fn in
      match groups !! module with
      | Some members => Some (<[module := (members ++ [fn])%list]> groups)
      | None =>
          if is_inherited module then None
          else Some (<[module := [fn]]> groups)
      end
  end.

(** The groups by module, as a map: the order of the keys of the object is
    not part of the model. *)
Definition groupedFunctions (filtered : list FunctionWithPath)
  : option (gmap string (list FunctionWithPath)) :=
  fold_left group_step filtered (Some ∅).

Definition in_module (module : string) (fn : FunctionWithPath) : bool :=
  String.eqb (modulePath fn) module.

End RunFunction.

(* ===================================================================== *)
(** ** The document list of the table browser *)
(* ===================================================================== *)

Module BrowseTables.

(** The values a document holds. *)
#[warnings="-register-all"]
Inductive value : Type :=
| VNull
| VUndefined
| VBool (b : bool)
| VNumber (n : number)
| VString (s : string)
| VArray (items : list value)
| VObject (fields : list (string * value)).

(** A document: its entries in the order [Object.entries] gives them (the
    keys of a JavaScript object are distinct). *)
Definition Document : Type := list (string * value).

(** [doc[field]]. *)
Fixpoint get (doc : Document) (field : string) : option value :=
  match doc with
  | [] => None
  | (key, v) :: rest => if String.eqb key field then Some v else get rest field
  end.

Definition formatFieldValue (v : value) : string :=
  match v with
  | VNull => "null"
  | VUndefined => "undefined"
  | VBool b => if b then "true" else "false"
  | VNumber n => number_toString n
  | VString s =>
      if string_length s >? 50
      then quote +:+ substring s 0 50 +:+ "..." +:+ quote
      else quote +:+ s +:+ quote
  | VArray items => "[" +:+ toString (Z.of_nat (length items)) +:+ " items]"
  | VObject fields => "{" +:+ toString (Z.of_nat (length fields)) +:+ " fields}"
  end.

Definition is_user_field (entry : string * value) : bool :=
  negb (startsWith (fst entry) "_").

Definition getDocumentSubtitle (doc : Document) : string :=
  let fields := firstn 2 (List.filter is_user_field doc) in
  if (length fields =? 0)%nat then "Empty document"
  else join " | "
         (map (fun entry => fst entry +:+ ": " +:+ formatFieldValue (snd entry))
            fields).

Definition titleFields : list string :=
  ["name"; "title"; "label"; "text"; "email"; "username"; "id"].

(** The [for] loop of [getDocumentTitle] over the fields still to try. *)
Fixpoint first_title (doc : Document) (fields : list string)
  : option string :=
  match fields with
  | [] => None
  | field :: rest =>
      match get doc field with
      | Some (VString s) =>
          if truthy_string s
          then Some (if string_length s >? 40
                     then substring s 0 40 +:+ "..." else s)
          else first_title doc rest
      | _ => first_title doc rest
      end
  end.

(** [formatDocumentId] is a function of [lib/api], outside the sources: it
    is a parameter. *)
Definition getDocumentTitle (formatDocumentId : option value -> string)
    (doc : Document) : string :=
  match first_title doc titleFields with
  | Some title => title
  | None => formatDocumentId (get doc "_id")
  end.

End BrowseTables.
(* ===================================================================== *)
(** * Properties *)
(* ===================================================================== *)

Example toString_examples :
  toString 0 = "0" /\ toString 42 = "42" /\ toString (-7) = "-7"
  /\ toString 9007199254740991 = "9007199254740991"
  /\ toString (2 ^ 60) = "1152921504606847000"
  /\ toString (10 ^ 21) = "1e+21"
  /\ toString (- 2 ^ 70) = "-1.1805916207174113e+21".
Proof. repeat split; vm_compute; reflexivity. Qed.

Example parseInt_examples :
  parseInt "42" = Num 42 /\ parseInt "  -17px" = Num (-17) /\
  parseInt "+0" = Num 0 /\ parseInt "abc" = NaN /\ parseInt "" = NaN /\
  parseInt "1e+21" = Num 1 /\
  parseInt "9007199254740993" = Num 9007199254740992.
Proof. repeat split; vm_compute; reflexivity. Qed.

(* ===================================================================== *)
(** ** Decimal printing and [parseInt] *)
(* ===================================================================== *)

Lemma digits_value_acc (d : Decimal.uint) (p : positive) :
  digits_value (NilEmpty.string_of_uint d) (Z.pos p)
  = Z.pos (Pos.of_uint_acc d p).
Proof.
  revert p.
  induction d as [|d IH|d IH|d IH|d IH|d IH|d IH|d IH|d IH|d IH|d IH];
    intros p; [reflexivity | ..];
    cbn [NilEmpty.string_of_uint digits_value Pos.of_uint_acc];
    change (digit_of _) with (Some 0) || change (digit_of _) with (Some 1)
    || change (digit_of _) with (Some 2) || change (digit_of _) with (Some 3)
    || change (digit_of _) with (Some 4) || change (digit_of _) with (Some 5)
    || change (digit_of _) with (Some 6) || change (digit_of _) with (Some 7)
    || change (digit_of _) with (Some 8) || change (digit_of _) with (Some 9);
    rewrite <- IH; f_equal; lia.
Qed.

Lemma digits_value_uint (d : Decimal.uint) :
  digits_value (NilEmpty.string_of_uint d) 0 = Z.of_N (Pos.of_uint d).
Proof.
  induction d as [|d IH|d IH|d IH|d IH|d IH|d IH|d IH|d IH|d IH|d IH];
    [reflexivity | exact IH | ..];
    cbn [NilEmpty.string_of_uint digits_value Pos.of_uint Z.of_N];
    rewrite <- digits_value_acc; reflexivity.
Qed.

Lemma parseInt_unsigned (d : Decimal.uint) :
  d <> Decimal.Nil ->
  parseInt (NilEmpty.string_of_uint d)
  = Num (to_double (Z.of_N (Pos.of_uint d))).
Proof.
  intros Hd. rewrite <- digits_value_uint.
  destruct d; [congruence | reflexivity ..].
Qed.

Lemma parseInt_negated (d : Decimal.uint) :
  d <> Decimal.Nil ->
  parseInt (String "-" (NilEmpty.string_of_uint d))
  = Num (to_double (- Z.of_N (Pos.of_uint d))).
Proof.
  intros Hd. rewrite <- digits_value_uint.
  destruct d; [congruence | reflexivity ..].
Qed.

(** Reading the decimal digits of an integer gives the double nearest to
    it. *)
Lemma parseInt_decimal (z : Z) : parseInt (decimal z) = Num (to_double z).
Proof.
  destruct z as [|p|p]; [reflexivity | ..]; unfold decimal;
    cbn [Z.to_int NilZero.string_of_int].
  - pose proof (DecimalPos.Unsigned.to_uint_nonnil p) as Hnil.
    unfold NilZero.string_of_uint.
    destruct (Pos.to_uint p) eqn:E; [congruence | ..];
      rewrite <- E, parseInt_unsigned by (rewrite E; discriminate);
      rewrite DecimalPos.Unsigned.of_to; reflexivity.
  - pose proof (DecimalPos.Unsigned.to_uint_nonnil p) as Hnil.
    unfold NilZero.string_of_uint.
    destruct (Pos.to_uint p) eqn:E; [congruence | ..];
      rewrite <- E, parseInt_negated by (rewrite E; discriminate);
      rewrite DecimalPos.Unsigned.of_to; reflexivity.
Qed.

(** Printing a safe integer and reading it back gives the integer. *)
Lemma parseInt_toString (z : Z) :
  Z.abs z <= MAX_SAFE_INTEGER -> parseInt (toString z) = Num z.
Proof.
  intros Hsafe. apply Z.leb_le in Hsafe. unfold toString. rewrite Hsafe.
  rewrite parseInt_decimal. unfold to_double. rewrite Hsafe. reflexivity.
Qed.

(** Beyond the safe integers it need not: 1e21 is printed with an exponent,
    of which [parseInt] reads the digit before the [e]. *)
Example parseInt_toString_large :
  parseInt (toString (10 ^ 21)) = Num 1
  /\ parseInt (toString (2 ^ 60)) = Num 1152921504606846976
  /\ parseInt (toString (2 ^ 70)) = Num 1.
Proof. repeat split; vm_compute; reflexivity. Qed.

Lemma decimal_truthy (z : Z) : truthy_string (decimal z) = true.
Proof.
  destruct z as [|p|p]; [reflexivity | ..]; unfold decimal;
    cbn [Z.to_int NilZero.string_of_int]; [|reflexivity].
  pose proof (DecimalPos.Unsigned.to_uint_nonnil p) as Hnil.
  unfold NilZero.string_of_uint.
  destruct (Pos.to_uint p); [congruence | reflexivity ..].
Qed.

Lemma toString_truthy (z : Z) : truthy_string (toString z) = true.
Proof.
  assert (Hlarge : forall a, truthy_string (toString_large a) = true).
  { intros a. unfold toString_large.
    destruct (_ <=? 21); [apply decimal_truthy|].
    destruct (strip_zeros _); reflexivity. }
  unfold toString. destruct (Z.abs z <=? MAX_SAFE_INTEGER);
    [apply decimal_truthy|].
  destruct (z <? 0); [reflexivity | apply Hlarge].
Qed.

(* ===================================================================== *)
(** ** Storage: which keys an operation touches *)
(* ===================================================================== *)

Ltac unfold_keys :=
  unfold ACCESS_TOKEN, TOKEN_EXPIRES_AT, REFRESH_TOKEN, SELECTED_TEAM_ID,
    SELECTED_PROJECT_ID, SELECTED_DEPLOYMENT_NAME in *.

Ltac storage_simpl :=
  unfold getItem, setItem, removeItem in *; unfold_keys;
  repeat first
    [ rewrite lookup_insert_eq
    | rewrite lookup_insert_ne by discriminate
    | rewrite lookup_delete_eq
    | rewrite lookup_delete_ne by discriminate ].

(** A number that passes the truthiness test is an integer, and reading the
    decimal form of a safe integer back gives it again. *)
Lemma reread_number (n : number) :
  truthy_number n = true -> safe_integers (Some n) = true ->
  truthy truthy_string (Some (number_toString n)) = true
  /\ parseInt (number_toString n) = n.
Proof.
  destruct n as [z|]; [|discriminate]. intros _ Hsafe.
  cbn [number_toString truthy].
  split; [apply toString_truthy | apply parseInt_toString].
  apply Z.leb_le, Hsafe.
Qed.

Lemma saveSession_ACCESS_TOKEN (s : ConvexSession) (st : Storage) :
  getItem ACCESS_TOKEN (saveSession s st) = Some (accessToken s).
Proof.
  unfold saveSession.
  destruct (expiresAt s) as [e|]; [destruct (truthy_number e)|];
    (destruct (refreshToken s) as [r|]; [destruct (truthy_string r)|]);
    storage_simpl; reflexivity.
Qed.

Lemma saveSession_TOKEN_EXPIRES_AT (s : ConvexSession) (st : Storage) :
  getItem TOKEN_EXPIRES_AT (saveSession s st)
  = if truthy truthy_number (expiresAt s)
    then number_toString <$> expiresAt s
    else getItem TOKEN_EXPIRES_AT st.
Proof.
  unfold saveSession.
  destruct (expiresAt s) as [e|]; cbn [truthy]; [destruct (truthy_number e)|];
    (destruct (refreshToken s) as [r|]; [destruct (truthy_string r)|]);
    storage_simpl; reflexivity.
Qed.

Lemma saveSelectedContext_TEAM (c : SelectedContext) (st : Storage) :
  getItem SELECTED_TEAM_ID (saveSelectedContext c st)
  = if truthy truthy_number (teamId c)
    then number_toString <$> teamId c
    else getItem SELECTED_TEAM_ID st.
Proof.
  unfold saveSelectedContext.
  destruct (teamId c) as [t|]; cbn [truthy]; [destruct (truthy_number t)|];
    (destruct (projectId c) as [p|]; [destruct (truthy_number p)|]);
    (destruct (deploymentName c) as [d|]; [destruct (truthy_string d)|]);
    storage_simpl; reflexivity.
Qed.

Lemma saveSelectedContext_PROJECT (c : SelectedContext) (st : Storage) :
  getItem SELECTED_PROJECT_ID (saveSelectedContext c st)
  = if truthy truthy_number (projectId c)
    then number_toString <$> projectId c
    else getItem SELECTED_PROJECT_ID st.
Proof.
  unfold saveSelectedContext.
  destruct (teamId c) as [t|]; [destruct (truthy_number t)|];
    (destruct (projectId c) as [p|]; cbn [truthy];
       [destruct (truthy_number p)|]);
    (destruct (deploymentName c) as [d|]; [destruct (truthy_string d)|]);
    storage_simpl; reflexivity.
Qed.

Lemma saveSelectedContext_DEPLOYMENT (c : SelectedContext) (st : Storage) :
  getItem SELECTED_DEPLOYMENT_NAME (saveSelectedContext c st)
  = if truthy truthy_string (deploymentName c)
    then deploymentName c
    else getItem SELECTED_DEPLOYMENT_NAME st.
Proof.
  unfold saveSelectedContext.
  destruct (teamId c) as [t|]; [destruct (truthy_number t)|];
    (destruct (projectId c) as [p|]; [destruct (truthy_number p)|]);
    (destruct (deploymentName c) as [d|]; cbn [truthy];
       [destruct (truthy_string d)|]);
    storage_simpl; reflexivity.
Qed.

Lemma read_id_saved (new : option number) (old : option string) :
  safe_integers new = true ->
  read_id (if truthy truthy_number new then number_toString <$> new else old)
  = if truthy truthy_number new then new else read_id old.
Proof.
  intros Hsafe.
  destruct new as [n|]; cbn [truthy]; [|reflexivity].
  destruct (truthy_number n) eqn:Hn; [|reflexivity].
  destruct (reread_number n Hn Hsafe) as [Ht Hp].
  unfold read_id. cbn [fmap option_fmap option_map] in *.
  rewrite Ht. cbn. rewrite Hp. reflexivity.
Qed.

(* ===================================================================== *)
(** ** Session expiry *)
(* ===================================================================== *)

(** C5, as claimed, fails: a session whose [expiresAt] is the timestamp 0
    has an expiry that is set and lies, with the margin, far in the past,
    yet [!session.expiresAt] takes 0 for "no expiry" and the session never
    expires. *)
Lemma isSessionExpired_zero_expiry :
  let s := {| accessToken := "t"; tokenType := "Bearer";
              expiresAt := Some (Num 0); refreshToken := None |} in
  let now := 1700000000000 in
  ~ (isSessionExpired now s = true
     <-> exists e, expiresAt s = Some (Num e) /\ now > e - 300000).
Proof.
  intros s now [_ H].
  assert (Hexp : isSessionExpired now s = true).
  { apply H. exists 0. split; [reflexivity | reflexivity]. }
  discriminate Hexp.
Qed.

(** C5 (amended): [isSessionExpired] returns true iff the session's
    [expiresAt] is set to a nonzero timestamp and the current time exceeds
    [expiresAt] minus 300000 ms; so it returns true whenever such an
    [expiresAt] plus the margin lies in the past, and false for every session
    with no [expiresAt] (or with [expiresAt] 0 or [NaN]). *)
Theorem isSessionExpired_iff (now : Z) (s : ConvexSession) :
  (isSessionExpired now s = true
   <-> exists e, expiresAt s = Some (Num e) /\ e <> 0 /\ now > e - 300000)
  /\ (forall e, expiresAt s = Some (Num e) -> e <> 0 -> e + 300000 < now ->
        isSessionExpired now s = true)
  /\ (expiresAt s = None -> isSessionExpired now s = false).
Proof.
  assert (Hiff : isSessionExpired now s = true
     <-> exists e, expiresAt s = Some (Num e) /\ e <> 0 /\ now > e - 300000).
  { unfold isSessionExpired.
    destruct (expiresAt s) as [[e|]|]; cbn [truthy truthy_number negb].
    - destruct (Z.eqb_spec e 0) as [->|Hne]; cbn [negb num_sub num_gtb].
      + split; [discriminate|]. intros (e & He & Hne & _).
        congruence.
      + change (5 * 60 * 1000) with 300000. split.
        * intros H. exists e. repeat split; [assumption|].
          apply Z.gtb_lt in H. lia.
        * intros (e' & He & _ & Hgt). inversion He; subst e'.
          apply Z.gtb_lt. lia.
    - split; [discriminate|]. intros (e & He & _). discriminate.
    - split; [discriminate|]. intros (e & He & _). discriminate. }
  split; [exact Hiff|]. split.
  - intros e He Hne Hpast. apply Hiff. exists e. repeat split; [assumption.. | lia].
  - intros Hnone. unfold isSessionExpired. rewrite Hnone. reflexivity.
Qed.

Lemma isSessionExpired_iff_witness :
  isSessionExpired 1700000000000
    {| accessToken := "t"; tokenType := "Bearer";
       expiresAt := Some (Num 1600000000000); refreshToken := None |} = true.
Proof.
  refine (proj1 (proj2 (isSessionExpired_iff 1700000000000 _))
            1600000000000 _ _ _);
    [reflexivity | discriminate | reflexivity].
Defined.

(* ===================================================================== *)
(** ** Sign-out *)
(* ===================================================================== *)

Lemma clearSession_lookup (st : Storage) (key : string) :
  In key [ACCESS_TOKEN; TOKEN_EXPIRES_AT; REFRESH_TOKEN; SELECTED_TEAM_ID;
          SELECTED_PROJECT_ID; SELECTED_DEPLOYMENT_NAME] ->
  getItem key (clearSession st) = None.
Proof.
  unfold clearSession. cbn [In].
  intros [<-|[<-|[<-|[<-|[<-|[<-|[]]]]]]]; storage_simpl; reflexivity.
Qed.

(** C7: after [clearSession] each of the six stored keys is absent, whatever
    the storage held; [loadSession] then returns null and
    [loadSelectedContext] a context whose three fields are null. *)
Theorem clearSession_absent (st : Storage) :
  Forall (fun key => getItem key (clearSession st) = None)
    [ACCESS_TOKEN; TOKEN_EXPIRES_AT; REFRESH_TOKEN; SELECTED_TEAM_ID;
     SELECTED_PROJECT_ID; SELECTED_DEPLOYMENT_NAME]
  /\ loadSession (clearSession st) = None
  /\ loadSelectedContext (clearSession st)
     = {| teamId := None; projectId := None; deploymentName := None |}.
Proof.
  split; [|split].
  - apply Forall_forall. intros key Hkey. apply clearSession_lookup, list_elem_of_In, Hkey.
  - unfold loadSession.
    rewrite (clearSession_lookup st ACCESS_TOKEN) by (cbn; tauto).
    reflexivity.
  - unfold loadSelectedContext.
    rewrite (clearSession_lookup st SELECTED_TEAM_ID) by (cbn; tauto).
    rewrite (clearSession_lookup st SELECTED_PROJECT_ID) by (cbn; tauto).
    rewrite (clearSession_lookup st SELECTED_DEPLOYMENT_NAME) by (cbn; tauto).
    reflexivity.
Qed.

(* ===================================================================== *)
(** ** The selected context *)
(* ===================================================================== *)

(** C8, as claimed, fails when a field of the saved context is null: the
    field is not written, and the value stored by an earlier save is the one
    loaded. *)
Lemma saveSelectedContext_null_field_stale :
  let prior :=
    saveSelectedContext
      {| teamId := Some (Num 7); projectId := Some (Num 3);
         deploymentName := Some "happy-otter-123" |} ∅ in
  let c := {| teamId := Some (Num 8); projectId := None;
              deploymentName := None |} in
  loadSelectedContext (saveSelectedContext c prior) <> c.
Proof.
  intros prior c H.
  assert (Hp : projectId (loadSelectedContext (saveSelectedContext c prior))
               = Some (Num 3)) by (vm_compute; reflexivity).
  rewrite H in Hp. discriminate Hp.
Qed.

(** It also fails, with no field null, for an identifier that is not a safe
    integer: 1e21 is stored as ["1e+21"], which [parseInt] reads as 1. *)
Example saveSelectedContext_large_id :
  let c := {| teamId := Some (Num (10 ^ 21)); projectId := Some (Num 3);
              deploymentName := Some "happy-otter-123" |} in
  getItem SELECTED_TEAM_ID (saveSelectedContext c ∅) = Some "1e+21"
  /\ teamId (loadSelectedContext (saveSelectedContext c ∅)) = Some (Num 1).
Proof. split; vm_compute; reflexivity. Qed.

(** C8 (amended): for a context [c] whose numeric identifiers are safe
    integers, [saveSelectedContext c] followed by [loadSelectedContext]
    returns, field by field, the value of [c] where it is non-null (a nonzero
    number, a non-empty name) and the value loaded before the save where it
    is null (or 0, or empty); so it returns [c] when the three fields of [c]
    are non-null, whatever the storage held. *)
Theorem saveSelectedContext_then_load (c : SelectedContext) (st : Storage) :
  safe_integers (teamId c) = true ->
  safe_integers (projectId c) = true ->
  loadSelectedContext (saveSelectedContext c st)
  = {| teamId := if truthy truthy_number (teamId c)
                 then teamId c else teamId (loadSelectedContext st);
       projectId := if truthy truthy_number (projectId c)
                    then projectId c else projectId (loadSelectedContext st);
       deploymentName := if truthy truthy_string (deploymentName c)
                         then deploymentName c
                         else deploymentName (loadSelectedContext st) |}
  /\ (truthy truthy_number (teamId c) = true ->
      truthy truthy_number (projectId c) = true ->
      truthy truthy_string (deploymentName c) = true ->
      loadSelectedContext (saveSelectedContext c st) = c).
Proof.
  intros Hteam Hproject.
  assert (Hgen : loadSelectedContext (saveSelectedContext c st)
    = {| teamId := if truthy truthy_number (teamId c)
                   then teamId c else teamId (loadSelectedContext st);
         projectId := if truthy truthy_number (projectId c)
                      then projectId c else projectId (loadSelectedContext st);
         deploymentName := if truthy truthy_string (deploymentName c)
                           then deploymentName c
                           else deploymentName (loadSelectedContext st) |}).
  { unfold loadSelectedContext at 1.
    rewrite saveSelectedContext_TEAM, saveSelectedContext_PROJECT,
      saveSelectedContext_DEPLOYMENT.
    fold (read_id (if truthy truthy_number (teamId c)
                   then number_toString <$> teamId c
                   else getItem SELECTED_TEAM_ID st)).
    fold (read_id (if truthy truthy_number (projectId c)
                   then number_toString <$> projectId c
                   else getItem SELECTED_PROJECT_ID st)).
    rewrite !read_id_saved by assumption. reflexivity. }
  split; [exact Hgen|].
  intros Ht Hp Hd. rewrite Hgen, Ht, Hp, Hd. destruct c; reflexivity.
Qed.

Lemma saveSelectedContext_then_load_witness :
  let c := {| teamId := Some (Num 41); projectId := Some (Num 1207);
              deploymentName := Some "happy-otter-123" |} in
  loadSelectedContext
    (saveSelectedContext c (<[SELECTED_TEAM_ID := "7"]> ∅)) = c.
Proof.
  intros c.
  exact (proj2 (saveSelectedContext_then_load c (<[SELECTED_TEAM_ID := "7"]> ∅)
                  eq_refl eq_refl)
           eq_refl eq_refl eq_refl).
Defined.

(* ===================================================================== *)
(** ** Saving over an older session *)
(* ===================================================================== *)

Lemma saveSession_REFRESH_TOKEN (s : ConvexSession) (st : Storage) :
  getItem REFRESH_TOKEN (saveSession s st)
  = if truthy truthy_string (refreshToken s)
    then refreshToken s
    else getItem REFRESH_TOKEN st.
Proof.
  unfold saveSession.
  destruct (expiresAt s) as [e|]; [destruct (truthy_number e)|];
    (destruct (refreshToken s) as [r|]; cbn [truthy];
       [destruct (truthy_string r)|]);
    storage_simpl; reflexivity.
Qed.


(** It fails too for an older expiry that is not a safe integer: 1e21 is
    stored as ["1e+21"] and loaded as 1. *)
Example saveSession_large_expiry :
  let older := {| accessToken := "old-token"; tokenType := "Bearer";
                  expiresAt := Some (Num (10 ^ 21)); refreshToken := None |} in
  let s := {| accessToken := "new-token"; tokenType := "Bearer";
              expiresAt := None; refreshToken := None |} in
  expiresAt <$> loadSession (saveSession s (saveSession older ∅))
  = Some (Some (Num 1)).
Proof. vm_compute. reflexivity. Qed.



(* ===================================================================== *)
(** ** The log filter *)
(* ===================================================================== *)

Module ViewLogsFacts.
Import ViewLogs.

Lemma prefix_append (p s : string) :
  String.prefix p s = true <-> exists after, s = String.append p after.
Proof.
  revert s. induction p as [|a p IH]; intros s.
  - split; [intros _; exists s; reflexivity | intros _; destruct s; reflexivity].
  - destruct s as [|b s]; cbn.
    + split; [discriminate | intros [after H]; discriminate H].
    + destruct (Ascii.ascii_dec a b) as [->|Hne].
      * rewrite IH. split; intros [after H]; exists after.
        -- rewrite H. reflexivity.
        -- injection H as H. exact H.
      * split; [discriminate|]. intros [after H]. cbn in H.
        injection H as Hab _. congruence.
Qed.

Lemma includes_substring_of (s search : string) :
  includes s search = true <-> substring_of search s.
Proof.
  induction s as [|a s IH]; cbn [includes].
  - destruct (String.prefix search "") eqn:Ep.
    + split; [intros _ | reflexivity].
      apply prefix_append in Ep as [after H]. exists "", after. exact H.
    + split; [discriminate|]. intros (before & after & H).
      destruct before; [|discriminate H].
      assert (String.prefix search "" = true) as Hp
        by (apply prefix_append; exists after; exact H).
      congruence.
  - destruct (String.prefix search (String a s)) eqn:Ep.
    + split; [intros _ | reflexivity].
      apply prefix_append in Ep as [after H]. exists "", after. exact H.
    + rewrite IH. split.
      * intros (before & after & H). exists (String a before), after.
        cbn. rewrite H. reflexivity.
      * intros (before & after & H). destruct before as [|b before].
        -- assert (String.prefix search (String a s) = true) as Hp
             by (apply prefix_append; exists after; exact H).
           congruence.
        -- cbn in H. injection H as _ H. exists before, after. exact H.
Qed.

Lemma matches_search_entry_matches (toLowerCase : string -> string)
    (searchText : string) (log : LogEntry) :
  toLowerCase "" = "" ->
  matches_search toLowerCase searchText log = true
  <-> entry_matches toLowerCase searchText log.
Proof.
  intros Hempty. unfold matches_search, entry_matches, searched_fields.
  destruct searchText as [|a rest]; cbn [truthy_string negb].
  - split; [intros _ | reflexivity].
    exists (functionPath log). split; [left; reflexivity|].
    rewrite Hempty. exists "", (toLowerCase (functionPath log)). reflexivity.
  - rewrite !orb_true_iff, !includes_substring_of. cbn [In]. split.
    + intros [[[H|H]|H]|H]; eexists; (split; [|exact H]); tauto.
    + intros (field & [<-|[<-|[<-|[<-|[]]]]] & H); tauto.
Qed.

(** C10: whatever [toLowerCase] does to other text, as long as it leaves
    the empty string empty, the filter keeps exactly the entries that match
    (the lowercased search text is a substring of the lowercased
    functionPath, requestId, status or functionType), in the order of the
    buffer; the empty search text keeps every entry.  The filter works on the
    buffer that [useLogs] returned, and a change of the search text changes
    none of the arguments that the command passes to [useLogs], the hook
    that fetches. *)
Theorem filteredLogs_spec (toLowerCase : string -> string)
    (logs : list LogEntry) (searchText : string) :
  toLowerCase "" = "" ->
  (forall log, In log (filteredLogs toLowerCase logs searchText)
               <-> In log logs /\ entry_matches toLowerCase searchText log)
  /\ sublist (filteredLogs toLowerCase logs searchText) logs
  /\ (forall log rest,
        (entry_matches toLowerCase searchText log ->
         filteredLogs toLowerCase (log :: rest) searchText
         = log :: filteredLogs toLowerCase rest searchText)
        /\ (~ entry_matches toLowerCase searchText log ->
            filteredLogs toLowerCase (log :: rest) searchText
            = filteredLogs toLowerCase rest searchText))
  /\ filteredLogs toLowerCase logs "" = logs
  /\ (forall state text,
        useLogs_arguments (setSearchText text state)
        = useLogs_arguments state).
Proof.
  intros Hempty.
  pose proof (fun log => matches_search_entry_matches toLowerCase searchText
                           log Hempty) as Hmatch.
  unfold filteredLogs. split; [|split; [|split; [|split]]].
  - intros log. rewrite filter_In, Hmatch. reflexivity.
  - induction logs as [|log logs IH]; cbn [List.filter]; [constructor|].
    destruct (matches_search toLowerCase searchText log); constructor;
      exact IH.
  - intros log rest. split; intros Hm; cbn [List.filter].
    + apply Hmatch in Hm. rewrite Hm. reflexivity.
    + destruct (matches_search toLowerCase searchText log) eqn:E;
        [|reflexivity].
      apply Hmatch in E. contradiction.
  - induction logs as [|log logs IH]; cbn; [reflexivity|].
    cbn in IH. rewrite IH. reflexivity.
  - intros state text. reflexivity.
Qed.

Lemma filteredLogs_spec_witness :
  let entry path type st req :=
    {| id := req; functionPath := path; functionType := type; status := st;
       requestId := req; timestamp := 0; executionTimeMs := 1;
       cached := false; logLines := []; errorMessage := None |} in
  let a := entry "messages:list" "query" "success" "REQ-1f" in
  let b := entry "users:create" "Mutation" "failure" "req-2a" in
  sublist (filteredLogs toLowerCase_ascii [a; b] "MUT") [a; b].
Proof.
  intros entry a b.
  exact (proj1 (proj2 (filteredLogs_spec toLowerCase_ascii [a; b] "MUT"
                         eq_refl))).
Defined.

Example filteredLogs_example :
  let entry path type st req :=
    {| id := req; functionPath := path; functionType := type; status := st;
       requestId := req; timestamp := 0; executionTimeMs := 1;
       cached := false; logLines := []; errorMessage := None |} in
  let a := entry "messages:list" "query" "success" "REQ-1f" in
  let b := entry "users:create" "Mutation" "failure" "req-2a" in
  let c := entry "crons:sweep" "action" "success" "req-3c" in
  filteredLogs toLowerCase_ascii [a; b; c] "MUT" = [b]
  /\ filteredLogs toLowerCase_ascii [a; b; c] "req-" = [a; b; c]
  /\ filteredLogs toLowerCase_ascii [a; b; c] "success" = [a; c]
  /\ filteredLogs toLowerCase_ascii [a; b; c] "zzz" = [].
Proof. repeat split; reflexivity. Qed.

End ViewLogsFacts.

(* ===================================================================== *)
(** ** One iteration of the polling loop *)
(* ===================================================================== *)

Section PollLoop.

Variable net : Network.
Variable auth : DeviceAuthResponse.
Variable onPoll : bool.
Variable shouldStop : option (World -> bool).
Variable url : string.
Variable expiresAt : Z.

Local Abbreviation loop fuel :=
  (poll_loop fuel net auth onPoll shouldStop url expiresAt).
Local Abbreviation req := (requested net auth onPoll shouldStop url).
Local Abbreviation nap := (slept net auth onPoll shouldStop url).

Lemma requests_to_note (e : Endpoint) (ev : Event) (w : World) :
  is_request_to e ev = false -> requests_to e (note ev w) = requests_to e w.
Proof. intros H. unfold requests_to. cbn. rewrite H. reflexivity. Qed.

Lemma requests_to_polled (e : Endpoint) (w : World) :
  requests_to e (polled onPoll shouldStop w) = requests_to e w.
Proof.
  unfold polled. destruct shouldStop, onPoll;
    rewrite ?requests_to_note by reflexivity; reflexivity.
Qed.

Lemma timers_polled (w : World) :
  timers (polled onPoll shouldStop w) = timers w.
Proof. unfold polled. destruct shouldStop, onPoll; reflexivity. Qed.

Lemma now_polled (w : World) : now (polled onPoll shouldStop w) = now w.
Proof. unfold polled. destruct shouldStop, onPoll; reflexivity. Qed.

Lemma poll_loop_deadline (fuel : nat) (w : World) :
  expiresAt <= now w -> loop (S fuel) w = Some (Return None, w).
Proof.
  intros H. cbn [poll_loop]. unfold bind, Date_now.
  destruct (Z.ltb_spec (now w) expiresAt); [lia | reflexivity].
Qed.

Lemma poll_loop_cancelled (fuel : nat) (w : World) :
  now w < expiresAt -> stops shouldStop w = true ->
  loop (S fuel) w = Some (Return None, note ShouldStop w).
Proof.
  intros Hd Hs. cbn [poll_loop]. unfold bind at 1, Date_now.
  destruct (Z.ltb_spec (now w) expiresAt); [|lia].
  destruct shouldStop as [f|]; [|discriminate Hs].
  cbn in Hs. unfold bind, call_shouldStop. rewrite Hs. reflexivity.
Qed.

(** An iteration that goes on: what becomes of the reply. *)
Lemma poll_loop_request (fuel : nat) (w : World) :
  now w < expiresAt -> stops shouldStop w = false ->
  loop (S fuel) w
  = match token net (requests_to Token w) with
    | Rejected e => Some (Throw e, req w)
    | Responded response =>
        if ok response then
          match json response with
          | Some body => Some (Return body, req w)
          | None => Some (Throw (syntax_error net (text response)), req w)
          end
        else if body_is_null response then Some (Throw null_error, req w)
        else
          let error := error_of response in
          if error_is error "authorization_pending"
             || error_is error "slow_down"
          then loop fuel (nap w)
          else if error_is error "expired_token" then
            Some (Throw "Authentication expired. Please try again.",
                  req w)
          else if error_is error "access_denied" then
            Some (Throw "Authentication was denied.", req w)
          else
            Some (Throw ("Authentication failed: "
                         +:+ (if truthy truthy_string error
                              then default "" error
                              else toString (status response))),
                  req w)
    end.
Proof.
  intros Hd Hs. cbn [poll_loop]. unfold bind at 1, Date_now.
  destruct (Z.ltb_spec (now w) expiresAt); [|lia].
  assert (Hw : exists w1, w1 = polled onPoll shouldStop w) by eauto.
  destruct Hw as [w1 Hw1].
  unfold requested, slept, requested. rewrite <- Hw1.
  assert (Hn : requests_to Token w1 = requests_to Token w)
    by (subst w1; apply requests_to_polled).
  assert (Ht : timers w1 = timers w) by (subst w1; apply timers_polled).
  assert (Hrun :
    forall k : Response (option TokenResponse) -> M (option TokenResponse),
      bind (call_shouldStop shouldStop)
        (fun stop => if stop then ret None
                     else bind (call_onPoll onPoll) (fun _ =>
                            bind (fetch net
                                    (PostToken url (device_code auth))
                                    (token net)) k)) w
      = bind (fetch net (PostToken url (device_code auth)) (token net)) k w1).
  { intros k. subst w1. unfold polled, bind at 1, call_shouldStop.
    destruct shouldStop as [f|]; cbn in Hs |- *; rewrite ?Hs;
      destruct onPoll; reflexivity. }
  rewrite Hrun. unfold bind at 1, fetch. cbn [endpoint_of]. rewrite Hn.
  destruct (token net (requests_to Token w)) as [response|e]; [|reflexivity].
  destruct (ok response).
  - unfold response_json. destruct (json response); reflexivity.
  - destruct (body_is_null response); [reflexivity|]. cbn zeta.
    destruct (error_is (error_of response) "authorization_pending"
              || error_is (error_of response) "slow_down").
    + unfold bind at 1, setTimeout, perform.
      replace (timers (after _ _ w1)) with (timers w) by (rewrite <- Ht; reflexivity).
      reflexivity.
    + destruct (error_is (error_of response) "expired_token"); [reflexivity|].
      destruct (error_is (error_of response) "access_denied"); reflexivity.
Qed.

Lemma requests_to_requested (w : World) :
  requests_to Token (req w) = S (requests_to Token w).
Proof.
  unfold requested, requests_to at 1. cbn.
  f_equal. apply requests_to_polled.
Qed.

Lemma requests_to_slept (w : World) :
  requests_to Token (nap w) = S (requests_to Token w).
Proof. unfold slept. apply requests_to_requested. Qed.

(** A body that carries an error code is not [null]. *)
Lemma error_of_not_null (r : Response (option TokenResponse))
    (code : string) :
  error_of r = Some code -> body_is_null r = false.
Proof.
  unfold error_of, body_is_null.
  destruct (json r) as [[body|]|]; [reflexivity | discriminate | reflexivity].
Qed.

(** A run of the loop in which the token endpoint answers request [k] with
    [expired_token] or [access_denied] ends there, with the error of that
    answer. *)
Lemma poll_loop_fatal (fuel : nat) :
  forall (w : World) out w',
    loop fuel w = Some (out, w') ->
    forall (k : nat) (code : string),
      (requests_to Token w <= k < requests_to Token w')%nat ->
      code = "expired_token" \/ code = "access_denied" ->
      carries_error (token net k) code ->
      out = Throw (if String.eqb code "expired_token"
                   then "Authentication expired. Please try again."
                   else "Authentication was denied.")
      /\ requests_to Token w' = S k.
Proof.
  induction fuel as [|fuel IH]; intros w out w' Hrun k code Hk Hcode Hreply;
    [discriminate Hrun|].
  destruct (Z.le_gt_cases expiresAt (now w)) as [Hpast|Hleft].
  { rewrite poll_loop_deadline in Hrun by assumption.
    injection Hrun as <- <-. lia. }
  destruct (stops shouldStop w) eqn:Hstop.
  { rewrite poll_loop_cancelled in Hrun by assumption.
    injection Hrun as <- <-.
    rewrite requests_to_note in Hk by reflexivity. lia. }
  rewrite poll_loop_request in Hrun by assumption.
  assert (Hhere : k = requests_to Token w ->
            exists r, token net (requests_to Token w) = Responded r
                      /\ ok r = false /\ error_of r = Some code).
  { intros ->. exact Hreply. }
  destruct (token net (requests_to Token w)) as [r|e] eqn:Ereply.
  2:{ injection Hrun as <- <-. rewrite requests_to_requested in Hk.
      destruct Hhere as (r & Hr & _); [lia | discriminate Hr]. }
  destruct (ok r) eqn:Eok.
  { assert (w' = req w) as ->
      by (destruct (json r); injection Hrun as <- <-; reflexivity).
    rewrite requests_to_requested in Hk.
    destruct Hhere as (r' & Hr & Hok & _); [lia|].
    injection Hr as <-. congruence. }
  destruct (body_is_null r) eqn:Enull.
  { injection Hrun as <- <-. rewrite requests_to_requested in Hk.
    destruct Hhere as (r' & Hr & _ & Herr); [lia|].
    injection Hr as <-. apply error_of_not_null in Herr. congruence. }
  cbn zeta in Hrun.
  destruct (error_is (error_of r) "authorization_pending"
            || error_is (error_of r) "slow_down") eqn:Epending.
  { destruct (Nat.eq_dec k (requests_to Token w)) as [Hk0|Hk0].
    - destruct (Hhere Hk0) as (r' & Hr & _ & Herr). injection Hr as <-.
      rewrite Herr in Epending.
      destruct Hcode as [-> | ->]; discriminate Epending.
    - apply (IH _ _ _ Hrun k code); [|assumption..].
      rewrite requests_to_slept. lia. }
  assert (Hend : k = requests_to Token w /\ requests_to Token (req w) = S k).
  { rewrite requests_to_requested.
    destruct (error_is (error_of r) "expired_token");
      [|destruct (error_is (error_of r) "access_denied")];
      injection Hrun as <- <-; rewrite requests_to_requested in Hk; lia. }
  destruct Hend as [Hk0 Hcount].
  destruct (Hhere Hk0) as (r' & Hr & _ & Herr). injection Hr as <-.
  rewrite Herr in Hrun.
  destruct Hcode as [-> | ->]; cbn in Hrun; injection Hrun as <- <-;
    split; [reflexivity | exact Hcount | reflexivity | exact Hcount].
Qed.

Lemma timers_slept (w : World) : timers (nap w) = S (timers w).
Proof.
  unfold slept, requested, timers at 1. cbn. f_equal. apply timers_polled.
Qed.

Lemma now_slept (w : World) :
  now (nap w)
  = now w + latency net Token (requests_to Token w)
    + (Z.max 0 (pollInterval auth) + timer_lag net (timers w)).
Proof. unfold slept, requested. cbn. rewrite now_polled. reflexivity. Qed.

Lemma storage_slept (w : World) : storage (nap w) = storage w.
Proof.
  unfold slept, requested, polled. cbn. destruct shouldStop, onPoll; reflexivity.
Qed.

(** An iteration answered [authorization_pending] or [slow_down] waits and
    goes round again. *)
Lemma poll_loop_pending (fuel : nat) (w : World) :
  now w < expiresAt -> stops shouldStop w = false ->
  carries_error (token net (requests_to Token w)) "authorization_pending"
  \/ carries_error (token net (requests_to Token w)) "slow_down" ->
  loop (S fuel) w = loop fuel (nap w).
Proof.
  intros Hleft Hgo Hreply. rewrite poll_loop_request by assumption.
  destruct Hreply as [(r & -> & -> & Herr) | (r & -> & -> & Herr)];
    rewrite (error_of_not_null _ _ Herr); cbn zeta; rewrite Herr;
    reflexivity.
Qed.

(** An iteration answered with a token payload returns it. *)
Lemma poll_loop_token (fuel : nat) (w : World) (tokens : TokenResponse) :
  now w < expiresAt -> stops shouldStop w = false ->
  carries_token (token net (requests_to Token w)) tokens ->
  loop (S fuel) w = Some (Return (Some tokens), req w).
Proof.
  intros Hleft Hgo (r & Hr & Hok & Hjson).
  rewrite poll_loop_request by assumption. rewrite Hr, Hok, Hjson.
  reflexivity.
Qed.

(** While every answer is [authorization_pending] or [slow_down] and each
    iteration takes time, the loop ends at the deadline, and it ends by
    returning null. *)
Lemma poll_loop_times_out (fuel : nat) :
  (forall n, carries_error (token net n) "authorization_pending"
             \/ carries_error (token net n) "slow_down") ->
  (forall w, stops shouldStop w = false) ->
  (forall n m, 0 < latency net Token n
                   + (Z.max 0 (pollInterval auth) + timer_lag net m)) ->
  forall w, (Z.to_nat (expiresAt - now w) < fuel)%nat ->
    exists w', loop fuel w = Some (Return None, w')
               /\ expiresAt <= now w' /\ storage w' = storage w.
Proof.
  intros Hpending Hgo Hprogress.
  induction fuel as [|fuel IH]; intros w Hfuel; [lia|].
  destruct (Z.le_gt_cases expiresAt (now w)) as [Hpast|Hleft].
  - exists w. rewrite poll_loop_deadline by assumption. auto.
  - rewrite poll_loop_pending by auto.
    destruct (IH (nap w)) as (w' & Hrun & Hnow & Hst).
    + rewrite now_slept.
      specialize (Hprogress (requests_to Token w) (timers w)). lia.
    + exists w'. rewrite storage_slept in Hst. auto.
Qed.

(** An iteration that goes on either waits and goes round again, or ends
    the loop right after its token request. *)
Lemma poll_loop_iteration (fuel : nat) (w : World) :
  now w < expiresAt -> stops shouldStop w = false ->
  loop (S fuel) w = loop fuel (nap w)
  \/ exists out, loop (S fuel) w = Some (out, req w).
Proof.
  intros Hleft Hgo. rewrite poll_loop_request by assumption.
  destruct (token net (requests_to Token w)) as [r|e]; [|eauto].
  destruct (ok r); [destruct (json r); eauto|].
  destruct (body_is_null r); [eauto|]. cbn zeta.
  destruct (error_is (error_of r) "authorization_pending"
            || error_is (error_of r) "slow_down"); [auto|].
  destruct (error_is (error_of r) "expired_token"); [eauto|].
  destruct (error_is (error_of r) "access_denied"); eauto.
Qed.

(** ** Iterations that wait *)

Lemma requests_to_rounds (k : nat) (w : World) :
  requests_to Token (rounds net auth onPoll shouldStop url k w)
  = (k + requests_to Token w)%nat.
Proof.
  induction k as [|k IH]; [reflexivity|].
  cbn [rounds]. rewrite requests_to_slept, IH. reflexivity.
Qed.

Lemma timers_rounds (k : nat) (w : World) :
  timers (rounds net auth onPoll shouldStop url k w) = (k + timers w)%nat.
Proof.
  induction k as [|k IH]; [reflexivity|].
  cbn [rounds]. rewrite timers_slept, IH. reflexivity.
Qed.

(** From a world with no token request and no timer yet, [k] iterations
    that wait take the time [waited]. *)
Lemma now_rounds (k : nat) (w : World) :
  requests_to Token w = 0%nat -> timers w = 0%nat ->
  now (rounds net auth onPoll shouldStop url k w)
  = now w + waited net auth k.
Proof.
  intros Hn Hm. induction k as [|k IH]; [cbn; lia|].
  cbn [rounds waited]. rewrite now_slept, IH, requests_to_rounds,
    timers_rounds, Hn, Hm, !Nat.add_0_r. lia.
Qed.

(** While the answers are [authorization_pending] or [slow_down] and the
    deadline is ahead, the loop goes round. *)
Lemma poll_loop_rounds (k fuel : nat) (w : World) :
  requests_to Token w = 0%nat -> timers w = 0%nat ->
  (forall w, stops shouldStop w = false) ->
  (forall j, (j < k)%nat ->
     carries_error (token net j) "authorization_pending"
     \/ carries_error (token net j) "slow_down") ->
  (forall j, (j < k)%nat -> now w + waited net auth j < expiresAt) ->
  loop (k + fuel) w = loop fuel (rounds net auth onPoll shouldStop url k w).
Proof.
  intros Hn Hm Hgo. revert fuel.
  induction k as [|k IH]; intros fuel Hpending Hleft; [reflexivity|].
  replace (S k + fuel)%nat with (k + S fuel)%nat by lia.
  rewrite IH by (intros j Hj; auto with arith).
  cbn [rounds]. apply poll_loop_pending.
  - rewrite now_rounds by assumption. apply Hleft. lia.
  - apply Hgo.
  - rewrite requests_to_rounds, Hn, Nat.add_0_r. apply Hpending. lia.
Qed.

End PollLoop.

(* ===================================================================== *)
(** ** Discovery, then the loop *)
(* ===================================================================== *)

Lemma discoverAuthEndpoints_world (net : Network) (w : World) :
  exists out, discoverAuthEndpoints net w = Some (out, discovered net w).
Proof.
  unfold discoverAuthEndpoints, bind, fetch, discovered. cbn [endpoint_of].
  destruct (openid_configuration net _) as [r|e]; [|eauto].
  destruct (ok r); cbn [negb]; [|unfold throw; eauto].
  unfold response_json. destruct (json r); [unfold ret | unfold throw]; eauto.
Qed.

Lemma discoverAuthEndpoints_ok (net : Network) (w : World)
    (endpoints : AuthEndpoints) :
  discovers net (requests_to OpenidConfiguration w) endpoints ->
  discoverAuthEndpoints net w = Some (Return endpoints, discovered net w).
Proof.
  intros (r & Hr & Hok & Hjson).
  unfold discoverAuthEndpoints, bind, fetch, discovered. cbn [endpoint_of].
  rewrite Hr, Hok. cbn [negb]. unfold response_json. rewrite Hjson.
  reflexivity.
Qed.

Lemma requests_to_discovered (net : Network) (w : World) :
  requests_to Token (discovered net w) = requests_to Token w.
Proof. reflexivity. Qed.

(** Once discovery has succeeded, [pollForDeviceToken] is its loop, run
    with the deadline taken from the clock after discovery. *)
Lemma pollForDeviceToken_loop (fuel : nat) (net : Network)
    (auth : DeviceAuthResponse) (onPoll : bool)
    (shouldStop : option (World -> bool)) (w : World)
    (endpoints : AuthEndpoints) :
  discovers net (requests_to OpenidConfiguration w) endpoints ->
  pollForDeviceToken fuel net auth onPoll shouldStop w
  = poll_loop fuel net auth onPoll shouldStop (token_endpoint endpoints)
      (now (discovered net w) + expires_in auth * 1000) (discovered net w).
Proof.
  intros Hd. unfold pollForDeviceToken, bind at 1.
  rewrite (discoverAuthEndpoints_ok _ _ _ Hd). reflexivity.
Qed.

(** When discovery fails, [pollForDeviceToken] throws and the loop is not
    entered. *)
Lemma pollForDeviceToken_undiscovered (fuel : nat) (net : Network)
    (auth : DeviceAuthResponse) (onPoll : bool)
    (shouldStop : option (World -> bool)) (w : World) (e : string) :
  discoverAuthEndpoints net w = Some (Throw e, discovered net w) ->
  pollForDeviceToken fuel net auth onPoll shouldStop w
  = Some (Throw e, discovered net w).
Proof. intros Hd. unfold pollForDeviceToken, bind at 1. rewrite Hd. reflexivity. Qed.

(** In a run from a fresh world, once discovery has succeeded: when the
    stop signal does not fire, the first [k] token requests are answered
    [authorization_pending] or [slow_down], and the device code has not
    expired when request [k] is due, the run comes to request [k], and what
    becomes of it is what the loop makes of the answer to that request. *)
Lemma pollForDeviceToken_reaches (net : Network) (auth : DeviceAuthResponse)
    (onPoll : bool) (shouldStop : option (World -> bool)) (t : Z)
    (st : Storage) (endpoints : AuthEndpoints) (k fuel : nat) :
  discovers net 0 endpoints ->
  (forall w, stops shouldStop w = false) ->
  (forall j, (j < k)%nat ->
     carries_error (token net j) "authorization_pending"
     \/ carries_error (token net j) "slow_down") ->
  (forall j, (j <= k)%nat -> waited net auth j < expires_in auth * 1000) ->
  let w1 := discovered net (initial t st) in
  let deadline := now w1 + expires_in auth * 1000 in
  let wk := rounds net auth onPoll shouldStop (token_endpoint endpoints) k w1 in
  pollForDeviceToken (k + fuel) net auth onPoll shouldStop (initial t st)
  = poll_loop fuel net auth onPoll shouldStop (token_endpoint endpoints)
      deadline wk
  /\ now wk < deadline
  /\ requests_to Token wk = k.
Proof.
  intros Hd Hgo Hpending Hleft w1 deadline wk.
  rewrite (pollForDeviceToken_loop _ _ _ _ _ (initial t st) endpoints)
    by exact Hd.
  fold w1 deadline. split; [|split].
  - apply poll_loop_rounds; [reflexivity | reflexivity | exact Hgo
                            | exact Hpending |].
    intros j Hj. unfold deadline. specialize (Hleft j). lia.
  - unfold wk. rewrite now_rounds by reflexivity.
    unfold deadline. specialize (Hleft k). lia.
  - unfold wk. rewrite requests_to_rounds. unfold w1.
    rewrite requests_to_discovered. cbn. lia.
Qed.

(* ===================================================================== *)
(** ** Fatal answers of the token endpoint *)
(* ===================================================================== *)

(** C4: an error response of the token endpoint (a response that is not
    [ok]) whose body carries [expired_token] (resp. [access_denied]) makes
    [pollForDeviceToken] throw the authentication-expired error (resp. the
    authentication-denied error), and that request is its last.  In a run
    from a fresh world in which discovery succeeds, the stop signal does not
    fire, the first [k] token requests are answered [authorization_pending]
    or [slow_down] and the device code has not expired when request [k] is
    due, an answer to request [k] that carries the code makes
    [pollForDeviceToken] throw the error, with [k + 1] token requests made
    in all, the last action being that request.  In every run of
    [pollForDeviceToken], whatever the world and the callbacks, a token
    request so answered is the last token request of the run, which ends
    with that error; and every iteration of the loop whose request is so
    answered throws right after the request. *)
Theorem pollForDeviceToken_fatal_errors (net : Network)
    (auth : DeviceAuthResponse) (onPoll : bool)
    (shouldStop : option (World -> bool)) (code message : string) :
  In (code, message) fatal_errors ->
  (forall t st endpoints k fuel,
     discovers net 0 endpoints ->
     (forall w, stops shouldStop w = false) ->
     (forall j, (j < k)%nat ->
        carries_error (token net j) "authorization_pending"
        \/ carries_error (token net j) "slow_down") ->
     carries_error (token net k) code ->
     (forall j, (j <= k)%nat -> waited net auth j < expires_in auth * 1000) ->
     (k < fuel)%nat ->
     exists w',
       pollForDeviceToken fuel net auth onPoll shouldStop (initial t st)
       = Some (Throw message, w')
       /\ requests_to Token w' = S k
       /\ head (log w')
          = Some (Fetch (PostToken (token_endpoint endpoints)
                           (device_code auth))))
  /\ (forall fuel w out w' k,
        pollForDeviceToken fuel net auth onPoll shouldStop w = Some (out, w') ->
        (requests_to Token w <= k < requests_to Token w')%nat ->
        carries_error (token net k) code ->
        out = Throw message /\ requests_to Token w' = S k)
  /\ (forall fuel url expiresAt w,
        now w < expiresAt -> stops shouldStop w = false ->
        carries_error (token net (requests_to Token w)) code ->
        poll_loop (S fuel) net auth onPoll shouldStop url expiresAt w
        = Some (Throw message, requested net auth onPoll shouldStop url w)
        /\ requests_to Token (requested net auth onPoll shouldStop url w)
           = S (requests_to Token w)).
Proof.
  intros Hfatal.
  assert (Hcode : (code = "expired_token" \/ code = "access_denied")
                  /\ message = if String.eqb code "expired_token"
                               then "Authentication expired. Please try again."
                               else "Authentication was denied.").
  { destruct Hfatal as [H|[H|[]]]; injection H as <- <-; split; auto. }
  destruct Hcode as [Hcode ->].
  assert (Hiteration : forall fuel url expiresAt w,
    now w < expiresAt -> stops shouldStop w = false ->
    carries_error (token net (requests_to Token w)) code ->
    poll_loop (S fuel) net auth onPoll shouldStop url expiresAt w
    = Some (Throw (if String.eqb code "expired_token"
                   then "Authentication expired. Please try again."
                   else "Authentication was denied."),
            requested net auth onPoll shouldStop url w)).
  { intros fuel url expiresAt w Hleft Hgo (r & Hr & Hok & Herr).
    rewrite poll_loop_request by assumption.
    rewrite Hr, Hok, (error_of_not_null _ _ Herr). cbn zeta.
    rewrite Herr. destruct Hcode as [-> | ->]; reflexivity. }
  split; [|split].
  - intros t st endpoints k fuel Hd Hgo Hpending Hreply Hleft Hfuel.
    destruct (pollForDeviceToken_reaches net auth onPoll shouldStop t st
                endpoints k (fuel - k) Hd Hgo Hpending Hleft)
      as (Hrun & Hnow & Hcount).
    replace (k + (fuel - k))%nat with fuel in Hrun by lia.
    destruct (fuel - k)%nat as [|rest] eqn:Efuel; [lia|].
    rewrite Hiteration in Hrun;
      [| exact Hnow | apply Hgo | rewrite Hcount; exact Hreply].
    eexists. split; [exact Hrun|]. split.
    + rewrite requests_to_requested, Hcount. reflexivity.
    + reflexivity.
  - intros fuel w out w' k Hrun Hk Hreply.
    destruct (discoverAuthEndpoints_world net w) as [[endpoints|e] Hd].
    + unfold pollForDeviceToken, bind at 1 in Hrun. rewrite Hd in Hrun.
      unfold bind, Date_now in Hrun.
      apply (poll_loop_fatal _ _ _ _ _ _ _ _ _ _ Hrun k code);
        [rewrite requests_to_discovered; exact Hk | exact Hcode | exact Hreply].
    + rewrite (pollForDeviceToken_undiscovered _ _ _ _ _ _ _ Hd) in Hrun.
      injection Hrun as <- <-. rewrite requests_to_discovered in Hk. lia.
  - intros fuel url expiresAt w Hleft Hgo Hreply.
    split; [apply Hiteration; assumption | apply requests_to_requested].
Qed.

Lemma pollForDeviceToken_fatal_errors_witness :
  let net := mock [reply_error "authorization_pending"]
               (reply_error "access_denied") (Rejected "offline") 120 in
  let auth := sample_auth 900 5 in
  exists w',
    pollForDeviceToken 2 net auth true None (initial 0 ∅)
    = Some (Throw "Authentication was denied.", w')
    /\ requests_to Token w' = 2%nat
    /\ head (log w')
       = Some (Fetch (PostToken (token_endpoint sample_endpoints)
                        "device-1")).
Proof.
  intros net auth.
  refine (proj1 (pollForDeviceToken_fatal_errors net auth true None
                   "access_denied" "Authentication was denied." _)
            0 ∅ sample_endpoints 1%nat 2%nat _ _ _ _ _ _).
  - right. left. reflexivity.
  - eexists. split; [reflexivity | split; reflexivity].
  - reflexivity.
  - intros [|j] Hj; [|lia]. left. eexists.
    split; [reflexivity | split; reflexivity].
  - eexists. split; [reflexivity | split; reflexivity].
  - intros [|[|j]] Hj; [reflexivity | reflexivity | lia].
  - lia.
Defined.

(* ===================================================================== *)
(** ** Pending twice, then a token *)
(* ===================================================================== *)

(** C1, as claimed, fails for a device authorization that expires before the
    third request is due: with [expires_in] 8 s and [interval] 5 s the
    second wait ends after the deadline, and polling returns null after two
    requests although the endpoint would have answered the third with a
    token. *)
Lemma pollForDeviceToken_short_lived_code :
  let net := mock [reply_error "authorization_pending";
                   reply_error "authorization_pending"]
               (reply_token sample_tokens) (Rejected "offline") 100 in
  let auth := sample_auth 8 5 in
  carries_error (token net 0) "authorization_pending"
  /\ carries_error (token net 1) "authorization_pending"
  /\ carries_token (token net 2) sample_tokens
  /\ exists w', pollForDeviceToken 10 net auth false None (initial 0 ∅)
                = Some (Return None, w')
                /\ requests_to Token w' = 2%nat.
Proof.
  intros net auth.
  split; [eexists; split; [reflexivity | split; reflexivity]|].
  split; [eexists; split; [reflexivity | split; reflexivity]|].
  split; [eexists; split; [reflexivity | split; reflexivity]|].
  eexists. split; [vm_compute; reflexivity | reflexivity].
Qed.

(** C1 (amended): in a run from a fresh world, when discovery has
    succeeded, the stop signal does not fire, and the device code has not
    expired when each of the three requests is due (the time waited before
    request [k], for [k < 3], is less than [expires_in] seconds), a token
    endpoint that answers
    [authorization_pending] twice and then a token payload makes
    [pollForDeviceToken] perform exactly 3 token requests, with one timer of
    the advertised interval (5 seconds when none, or 0, is advertised)
    between consecutive requests, and return the payload of the third
    request; nothing is requested after it. *)
Theorem pollForDeviceToken_third_time (net : Network)
    (auth : DeviceAuthResponse) (onPoll : bool)
    (shouldStop : option (World -> bool)) (t : Z) (st : Storage)
    (endpoints : AuthEndpoints) (tokens : TokenResponse) (fuel : nat) :
  discovers net 0 endpoints ->
  (forall w, stops shouldStop w = false) ->
  carries_error (token net 0) "authorization_pending" ->
  carries_error (token net 1) "authorization_pending" ->
  carries_token (token net 2) tokens ->
  (forall k, (k < 3)%nat -> waited net auth k < expires_in auth * 1000) ->
  (3 <= fuel)%nat ->
  let post := Fetch (PostToken (token_endpoint endpoints) (device_code auth)) in
  let wait := SetTimeout (pollInterval auth) in
  exists w',
    pollForDeviceToken fuel net auth onPoll shouldStop (initial t st)
    = Some (Return (Some tokens), w')
    /\ requests_to Token w' = 3%nat
    /\ calls_and_timers w'
       = [Fetch GetOpenidConfiguration; post; wait; post; wait; post]
    /\ pollInterval auth
       = 1000 * match interval auth with
                | Some advertised => if advertised =? 0 then 5 else advertised
                | None => 5
                end.
Proof.
  intros Hd Hgo H0 H1 H2 Hleft Hfuel post wait.
  rewrite (pollForDeviceToken_loop _ _ _ _ _ (initial t st) endpoints)
    by exact Hd.
  set (w1 := discovered net (initial t st)).
  set (url := token_endpoint endpoints).
  set (deadline := now w1 + expires_in auth * 1000).
  set (w2 := slept net auth onPoll shouldStop url w1).
  set (w3 := slept net auth onPoll shouldStop url w2).
  assert (Hn1 : requests_to Token w1 = 0%nat) by reflexivity.
  assert (Hm1 : timers w1 = 0%nat) by reflexivity.
  assert (Hn2 : requests_to Token w2 = 1%nat)
    by (unfold w2; rewrite requests_to_slept, Hn1; reflexivity).
  assert (Hm2 : timers w2 = 1%nat)
    by (unfold w2; rewrite timers_slept, Hm1; reflexivity).
  assert (Hn3 : requests_to Token w3 = 2%nat)
    by (unfold w3; rewrite requests_to_slept, Hn2; reflexivity).
  assert (Ht2 : now w2 = now w1 + waited net auth 1).
  { unfold w2. rewrite now_slept, Hn1, Hm1. cbn [waited]. lia. }
  assert (Ht3 : now w3 = now w1 + waited net auth 2).
  { unfold w3. rewrite now_slept, Hn2, Hm2, Ht2. cbn [waited]. lia. }
  pose proof (Hleft 0%nat ltac:(lia)) as Hl0. cbn [waited] in Hl0.
  pose proof (Hleft 1%nat ltac:(lia)) as Hl1.
  pose proof (Hleft 2%nat ltac:(lia)) as Hl2.
  destruct fuel as [|[|[|fuel]]]; [lia..|].
  rewrite (poll_loop_pending net auth onPoll shouldStop url deadline _ w1);
    [| unfold deadline; lia | apply Hgo | left; rewrite Hn1; exact H0].
  fold w2.
  rewrite (poll_loop_pending net auth onPoll shouldStop url deadline _ w2);
    [| unfold deadline; lia | apply Hgo | left; rewrite Hn2; exact H1].
  fold w3.
  rewrite (poll_loop_token net auth onPoll shouldStop url deadline _ w3 tokens);
    [| unfold deadline; lia | apply Hgo | rewrite Hn3; exact H2].
  eexists. split; [reflexivity|]. split; [|split].
  - rewrite requests_to_requested, Hn3. reflexivity.
  - unfold calls_and_timers, history, w3, w2, w1, slept, requested, polled,
      discovered.
    destruct shouldStop, onPoll; reflexivity.
  - unfold pollInterval. lia.
Qed.

Lemma pollForDeviceToken_third_time_witness :
  let net := mock [reply_error "authorization_pending";
                   reply_error "authorization_pending"]
               (reply_token sample_tokens) (Rejected "offline") 100 in
  let auth := sample_auth 900 5 in
  let post := Fetch (PostToken (token_endpoint sample_endpoints) "device-1") in
  exists w',
    pollForDeviceToken 3 net auth false None (initial 0 ∅)
    = Some (Return (Some sample_tokens), w')
    /\ requests_to Token w' = 3%nat
    /\ calls_and_timers w'
       = [Fetch GetOpenidConfiguration; post; SetTimeout 5000; post;
          SetTimeout 5000; post]
    /\ 5000 = 5000.
Proof.
  intros net auth post.
  refine (pollForDeviceToken_third_time net auth false None 0 ∅
            sample_endpoints sample_tokens 3 _ _ _ _ _ _ _).
  - eexists. split; [reflexivity | split; reflexivity].
  - reflexivity.
  - eexists. split; [reflexivity | split; reflexivity].
  - eexists. split; [reflexivity | split; reflexivity].
  - eexists. split; [reflexivity | split; reflexivity].
  - intros [|[|[|k]]] Hk; [reflexivity.. | lia].
  - lia.
Defined.

(* ===================================================================== *)
(** ** The stop signal *)
(* ===================================================================== *)

Lemma poll_loop_discipline (net : Network) (auth : DeviceAuthResponse)
    (onPoll : bool) (f : World -> bool) (url : string) (expiresAt : Z)
    (fuel : nat) :
  forall w out w',
    stop_discipline (log w) = Some false ->
    poll_loop fuel net auth onPoll (Some f) url expiresAt w = Some (out, w') ->
    stop_discipline (log w') <> None.
Proof.
  induction fuel as [|fuel IH]; intros w out w' Hlog Hrun;
    [discriminate Hrun|].
  destruct (Z.le_gt_cases expiresAt (now w)) as [Hpast|Hleft].
  { rewrite poll_loop_deadline in Hrun by assumption.
    injection Hrun as <- <-. congruence. }
  destruct (stops (Some f) w) eqn:Hstop.
  { rewrite poll_loop_cancelled in Hrun by assumption.
    injection Hrun as <- <-. cbn. rewrite Hlog. discriminate. }
  assert (Hreq : stop_discipline
                   (log (requested net auth onPoll (Some f) url w))
                 = Some false).
  { unfold requested, polled. destruct onPoll; cbn; rewrite Hlog; reflexivity. }
  destruct (poll_loop_iteration net auth onPoll (Some f) url expiresAt fuel w
              Hleft Hstop) as [Hnext | [out' Hend]].
  - rewrite Hnext in Hrun. refine (IH _ _ _ _ Hrun).
    unfold slept. cbn [log after stop_discipline]. rewrite Hreq. reflexivity.
  - rewrite Hend in Hrun. injection Hrun as <- <-. congruence.
Qed.

(** C3, as claimed, fails: with the stop signal true from the start,
    [pollForDeviceToken] returns null, but only after the discovery request,
    which is a network call. *)
Lemma pollForDeviceToken_stopped_after_discovery :
  let net := mock [] (reply_token sample_tokens) (Rejected "offline") 100 in
  let auth := sample_auth 900 5 in
  exists w',
    pollForDeviceToken 5 net auth false (Some (fun _ => true)) (initial 0 ∅)
    = Some (Return None, w')
    /\ List.filter is_network_call (history w')
       = [Fetch GetOpenidConfiguration]
    /\ List.filter is_network_call (history w') <> [].
Proof.
  intros net auth. eexists. split; [vm_compute; reflexivity|].
  split; [reflexivity | discriminate].
Qed.

(** C3 (amended): if the stop signal is true when the first iteration reads
    it, then, discovery having succeeded, [pollForDeviceToken] returns null
    without any token request: the discovery request is the only network
    call it makes.  In general an iteration reads the stop signal once,
    before its token request: a signal that fires makes the loop return null
    (it does not throw) with no request made in that iteration, and in every
    run each token request is preceded by exactly one reading of the signal
    since the request before it. *)
Theorem pollForDeviceToken_stop_signal (net : Network)
    (auth : DeviceAuthResponse) (onPoll : bool) (f : World -> bool) :
  (forall fuel w endpoints,
     discovers net (requests_to OpenidConfiguration w) endpoints ->
     f (discovered net w) = true ->
     exists w',
       pollForDeviceToken (S fuel) net auth onPoll (Some f) w
       = Some (Return None, w')
       /\ requests_to Token w' = requests_to Token w
       /\ List.filter is_network_call (log w')
          = Fetch GetOpenidConfiguration
            :: List.filter is_network_call (log w))
  /\ (forall fuel url expiresAt w,
        now w < expiresAt -> f w = true ->
        poll_loop (S fuel) net auth onPoll (Some f) url expiresAt w
        = Some (Return None, note ShouldStop w))
  /\ (forall fuel w out w',
        stop_discipline (log w) = Some false ->
        pollForDeviceToken fuel net auth onPoll (Some f) w = Some (out, w') ->
        stop_discipline (log w') <> None).
Proof.
  split; [|split].
  - intros fuel w endpoints Hd Hstop.
    rewrite (pollForDeviceToken_loop _ _ _ _ _ _ _ Hd).
    destruct (Z.le_gt_cases (now (discovered net w) + expires_in auth * 1000)
                (now (discovered net w))) as [Hpast|Hleft].
    + rewrite poll_loop_deadline by assumption. eexists.
      split; [reflexivity|]. split; reflexivity.
    + rewrite poll_loop_cancelled by assumption. eexists.
      split; [reflexivity|]. split; reflexivity.
  - intros fuel url expiresAt w Hleft Hstop.
    apply poll_loop_cancelled; assumption.
  - intros fuel w out w' Hlog Hrun.
    destruct (discoverAuthEndpoints_world net w) as [[endpoints|e] Hd].
    + unfold pollForDeviceToken, bind at 1 in Hrun. rewrite Hd in Hrun.
      unfold bind, Date_now in Hrun.
      refine (poll_loop_discipline _ _ _ _ _ _ _ _ _ _ _ Hrun).
      cbn. rewrite Hlog. reflexivity.
    + rewrite (pollForDeviceToken_undiscovered _ _ _ _ _ _ _ Hd) in Hrun.
      injection Hrun as <- <-. cbn. rewrite Hlog. discriminate.
Qed.

Lemma pollForDeviceToken_stop_signal_witness :
  let net := mock [] (reply_token sample_tokens) (Rejected "offline") 100 in
  let auth := sample_auth 900 5 in
  exists w',
    pollForDeviceToken 1 net auth true (Some (fun _ => true)) (initial 0 ∅)
    = Some (Return None, w')
    /\ requests_to Token w' = 0%nat
    /\ List.filter is_network_call (log w') = [Fetch GetOpenidConfiguration].
Proof.
  intros net auth.
  refine (proj1 (pollForDeviceToken_stop_signal net auth true (fun _ => true))
            0%nat (initial 0 ∅) sample_endpoints _ _).
  - eexists. split; [reflexivity | split; reflexivity].
  - reflexivity.
Defined.

(* ===================================================================== *)
(** ** What the flow writes to the storage *)
(* ===================================================================== *)

Create HintDb storage discriminated.

Section KeepsStorage.

Context {A B : Type}.

Lemma keeps_ret (a : A) : keeps_storage (ret a).
Proof. intros w out w' H. injection H as <- <-. reflexivity. Qed.

Lemma keeps_throw (e : string) : keeps_storage (@throw A e).
Proof. intros w out w' H. injection H as <- <-. reflexivity. Qed.

Lemma keeps_bind (m : M A) (k : A -> M B) :
  keeps_storage m -> (forall a, keeps_storage (k a)) ->
  keeps_storage (bind m k).
Proof.
  intros Hm Hk w out w' H. unfold bind in H.
  destruct (m w) as [[[a|e] w1]|] eqn:E; [| |discriminate H].
  - rewrite (Hk a _ _ _ H). exact (Hm _ _ _ E).
  - injection H as <- <-. exact (Hm _ _ _ E).
Qed.

Lemma keeps_fetch (net : Network) (r : Request) (server : nat -> Fetched A) :
  keeps_storage (fetch net r server).
Proof.
  intros w out w' H. unfold fetch in H.
  destruct (server _); injection H as <- <-; reflexivity.
Qed.

Lemma keeps_response_json (net : Network) (response : Response A) :
  keeps_storage (response_json net response).
Proof.
  unfold response_json. destruct (json response);
    [apply keeps_ret | apply keeps_throw].
Qed.

Lemma keeps_on_throw_of_keeps (m : M A) :
  keeps_storage m -> keeps_storage_on_throw m.
Proof. intros Hm w e w' H. exact (Hm _ _ _ H). Qed.

Lemma keeps_on_throw_bind (m : M A) (k : A -> M B) :
  keeps_storage m -> (forall a, keeps_storage_on_throw (k a)) ->
  keeps_storage_on_throw (bind m k).
Proof.
  intros Hm Hk w e w' H. unfold bind in H.
  destruct (m w) as [[[a|e1] w1]|] eqn:E; [| |discriminate H].
  - rewrite (Hk a _ _ _ H). exact (Hm _ _ _ E).
  - injection H as <- <-. exact (Hm _ _ _ E).
Qed.

Lemma keeps_on_throw_try_catch (m : M A) (handler : string -> M A) :
  keeps_storage_on_throw m -> (forall e, keeps_storage (handler e)) ->
  keeps_storage_on_throw (try_catch m handler).
Proof.
  intros Hm Hh w e w' H. unfold try_catch in H.
  destruct (m w) as [[[a|e1] w1]|] eqn:E; [discriminate H| |discriminate H].
  rewrite (Hh _ _ _ _ H). exact (Hm _ _ _ E).
Qed.

End KeepsStorage.

Lemma keeps_Date_now : keeps_storage Date_now.
Proof. intros w out w' H. injection H as <- <-. reflexivity. Qed.

Lemma keeps_perform (ev : Event) (took : Z) : keeps_storage (perform ev took).
Proof. intros w out w' H. injection H as <- <-. reflexivity. Qed.

Lemma keeps_callback (ev : Event) : keeps_storage (callback ev).
Proof. intros w out w' H. injection H as <- <-. reflexivity. Qed.

Lemma keeps_setTimeout (net : Network) (ms : Z) :
  keeps_storage (setTimeout net ms).
Proof. intros w out w' H. injection H as <- <-. reflexivity. Qed.

Lemma keeps_open (net : Network) (url : string) : keeps_storage (open net url).
Proof.
  intros w out w' H. unfold open in H.
  destruct (open_fails net); injection H as <- <-; reflexivity.
Qed.

Lemma keeps_set_toast (t : Toast) : keeps_storage (set_toast t).
Proof. intros w out w' H. injection H as <- <-. reflexivity. Qed.

Lemma keeps_update_toast (f : Toast -> Toast) : keeps_storage (update_toast f).
Proof. intros w out w' H. injection H as <- <-. reflexivity. Qed.

Lemma keeps_call_shouldStop (shouldStop : option (World -> bool)) :
  keeps_storage (call_shouldStop shouldStop).
Proof.
  destruct shouldStop; intros w out w' H; injection H as <- <-; reflexivity.
Qed.

Lemma keeps_call_onPoll (onPoll : bool) : keeps_storage (call_onPoll onPoll).
Proof. destruct onPoll; [apply keeps_callback | apply keeps_ret]. Qed.

#[local] Hint Resolve keeps_ret keeps_throw keeps_fetch keeps_response_json
  keeps_Date_now keeps_perform keeps_callback keeps_setTimeout keeps_open
  keeps_set_toast keeps_update_toast keeps_call_shouldStop keeps_call_onPoll
  : storage.

Ltac keeps_step :=
  match goal with
  | |- keeps_storage (bind _ _) => apply keeps_bind; [|intros ?]
  | |- keeps_storage (if ?b then _ else _) => destruct b
  | |- keeps_storage (match ?o with Some _ => _ | None => _ end) =>
      destruct o
  | |- keeps_storage _ => solve [auto with storage]
  end.

Lemma keeps_discoverAuthEndpoints (net : Network) :
  keeps_storage (discoverAuthEndpoints net).
Proof. unfold discoverAuthEndpoints. repeat keeps_step. Qed.

Lemma keeps_startDeviceAuthorization (net : Network) :
  keeps_storage (startDeviceAuthorization net).
Proof.
  unfold startDeviceAuthorization.
  apply keeps_bind; [apply keeps_discoverAuthEndpoints | intros config].
  repeat keeps_step.
Qed.

Lemma keeps_poll_loop (net : Network) (auth : DeviceAuthResponse)
    (onPoll : bool) (shouldStop : option (World -> bool)) (url : string)
    (expiresAt : Z) (fuel : nat) :
  keeps_storage (poll_loop fuel net auth onPoll shouldStop url expiresAt).
Proof.
  induction fuel as [|fuel IH]; [intros w out w' H; discriminate H|].
  cbn [poll_loop].
  apply keeps_bind; [auto with storage | intros t].
  destruct (t <? expiresAt); [|auto with storage].
  apply keeps_bind; [auto with storage | intros stop].
  destruct stop; [auto with storage|].
  apply keeps_bind; [auto with storage | intros _].
  apply keeps_bind; [auto with storage | intros response].
  destruct (ok response); [repeat keeps_step|].
  destruct (body_is_null response); [auto with storage|]. cbn zeta.
  destruct (_ || _).
  - apply keeps_bind; [auto with storage | intros _; exact IH].
  - repeat keeps_step.
Qed.

Lemma keeps_pollForDeviceToken (fuel : nat) (net : Network)
    (auth : DeviceAuthResponse) (onPoll : bool)
    (shouldStop : option (World -> bool)) :
  keeps_storage (pollForDeviceToken fuel net auth onPoll shouldStop).
Proof.
  unfold pollForDeviceToken.
  apply keeps_bind; [apply keeps_discoverAuthEndpoints | intros endpoints].
  apply keeps_bind; [auto with storage | intros t].
  apply keeps_poll_loop.
Qed.

Lemma keeps_exchangeForDashboardToken (net : Network) (oidcToken : string) :
  keeps_storage (exchangeForDashboardToken net oidcToken).
Proof. unfold exchangeForDashboardToken. repeat keeps_step. Qed.

(** Saving the session and reporting success cannot fail. *)
Lemma save_and_report_returns (session : ConvexSession) (w : World) :
  exists w',
    (do _ <- update_storage (saveSession session) ;;
     do _ <- update_toast (fun t =>
               {| style := Success; title := "Authenticated successfully";
                  message := message t |}) ;;
     ret session) w = Some (Return session, w')
    /\ storage w' = saveSession session (storage w).
Proof. eexists. split; reflexivity. Qed.

(** C6: a run of [authenticate] that fails (discovery, the device
    authorization request, opening the browser, polling or the exchange
    throws, or polling yields no token) leaves the local storage exactly as
    it was: no key of the session is written. *)
Theorem authenticate_failure_keeps_storage (fuel : nat) (net : Network)
    (w : World) (e : string) (w' : World) :
  authenticate fuel net w = Some (Throw e, w') ->
  storage w' = storage w.
Proof.
  revert w e w'. change (keeps_storage_on_throw (authenticate fuel net)).
  unfold authenticate.
  apply keeps_on_throw_bind; [auto with storage | intros _].
  apply keeps_on_throw_try_catch;
    [| intros e; apply keeps_bind; [auto with storage | intros _];
       auto with storage].
  apply keeps_on_throw_bind;
    [apply keeps_startDeviceAuthorization | intros deviceAuth].
  apply keeps_on_throw_bind; [auto with storage | intros _].
  apply keeps_on_throw_bind; [auto with storage | intros _].
  apply keeps_on_throw_bind;
    [apply keeps_pollForDeviceToken | intros [tokens|]];
    [|apply keeps_on_throw_of_keeps; auto with storage].
  apply keeps_on_throw_bind; [auto with storage | intros _].
  apply keeps_on_throw_bind;
    [apply keeps_exchangeForDashboardToken | intros session].
  intros w1 e w' H.
  destruct (save_and_report_returns session w1) as (w2 & Hrun & _).
  rewrite Hrun in H. discriminate H.
Qed.

Lemma authenticate_failure_keeps_storage_witness :
  let net := mock [reply_error "authorization_pending"]
               (reply_error "access_denied") (Rejected "offline") 100 in
  let st : Storage := <[ACCESS_TOKEN := "older-token"]> ∅ in
  exists e w',
    authenticate 5 net (initial 0 st) = Some (Throw e, w')
    /\ storage w' = st.
Proof.
  intros net st.
  assert (H : exists e w',
             authenticate 5 net (initial 0 st) = Some (Throw e, w'))
    by (eexists _, _; vm_compute; reflexivity).
  destruct H as (e & w' & H). exists e, w'.
  split; [exact H|].
  exact (authenticate_failure_keeps_storage 5 net (initial 0 st) e w' H).
Defined.

(** A run that succeeds does write the session: the frame above is not the
    frame of a flow that never saves. *)
Example authenticate_success_saves :
  let data := {| data_accessToken := "dashboard-token";
                 data_tokenType := None; data_expiresAt := Some 3600;
                 data_refreshToken := None |} in
  let net := mock [reply_error "authorization_pending"]
               (reply_token sample_tokens)
               (Responded {| ok := true; status := 200; text := None;
                             json := Some data |}) 100 in
  exists session w',
    authenticate 5 net (initial 1000 ∅) = Some (Return session, w')
    /\ loadSession (storage w') = Some session
    /\ accessToken session = "dashboard-token"
    /\ expiresAt session = Some (Num 3606600).
Proof.
  intros data net. eexists _, _.
  split; [vm_compute; reflexivity|].
  split; [vm_compute; reflexivity|]. split; reflexivity.
Qed.


(* ===================================================================== *)
(** ** The whole flow when the user never completes the login *)
(* ===================================================================== *)

(** It is [authenticate] that turns the null of [pollForDeviceToken] into an
    error: when the device authorization is granted, the browser opens and
    the token endpoint answers [authorization_pending] or [slow_down] until
    the deadline, the flow throws "Authentication expired or cancelled". *)
Lemma authenticate_times_out (net : Network) (w : World)
    (endpoints : AuthEndpoints) (deviceAuth : DeviceAuthResponse) :
  (forall n, discovers net n endpoints) ->
  (exists r, device_authorization net (requests_to DeviceAuthorization w)
             = Responded r /\ ok r = true /\ json r = Some deviceAuth) ->
  open_fails net = None ->
  (forall n, carries_error (token net n) "authorization_pending"
             \/ carries_error (token net n) "slow_down") ->
  (forall n m, 0 < latency net Token n
                   + (Z.max 0 (pollInterval deviceAuth) + timer_lag net m)) ->
  exists fuel0, forall fuel, (fuel0 <= fuel)%nat ->
    exists w', authenticate fuel net w
               = Some (Throw "Authentication expired or cancelled", w').
Proof.
  intros Hd (r & Hr & Hok & Hjson) Hopen Hpending Hprogress.
  set (w0 := {| now := now w; storage := storage w;
                toast := Some {| style := Animated;
                                 title := "Starting authentication...";
                                 message := None |};
                log := log w |}).
  assert (Hstart : exists w1,
            startDeviceAuthorization net w0 = Some (Return deviceAuth, w1)).
  { unfold startDeviceAuthorization, bind at 1.
    rewrite (discoverAuthEndpoints_ok net w0 endpoints) by apply Hd.
    unfold bind, fetch. cbn [endpoint_of].
    change (requests_to DeviceAuthorization (discovered net w0))
      with (requests_to DeviceAuthorization w).
    rewrite Hr, Hok. cbn [negb]. unfold response_json. rewrite Hjson.
    eexists. reflexivity. }
  destruct Hstart as [w1 Hstart].
  set (w2 := note (Open (verification_uri_complete deviceAuth))
               {| now := now w1; storage := storage w1;
                  toast := (fun _ =>
                     {| style := Animated;
                        title := "Waiting for authentication";
                        message := Some ("Code: " +:+ user_code deviceAuth) |})
                    <$> toast w1;
                  log := log w1 |}).
  exists (S (Z.to_nat (expires_in deviceAuth * 1000))). intros fuel Hfuel.
  destruct (poll_loop_times_out net deviceAuth false None
              (token_endpoint endpoints)
              (now (discovered net w2) + expires_in deviceAuth * 1000)
              fuel Hpending (fun _ => eq_refl) Hprogress (discovered net w2))
    as (w3 & Hrun & _); [lia|].
  rewrite <- (pollForDeviceToken_loop _ _ _ _ _ _ _ (Hd _)) in Hrun.
  unfold authenticate, bind at 1, set_toast. fold w0.
  unfold try_catch, bind at 1. rewrite Hstart.
  unfold bind at 1, update_toast. unfold bind at 1, open. rewrite Hopen.
  fold w2. unfold bind at 1. rewrite Hrun.
  unfold throw, bind, update_toast. eexists. reflexivity.
Qed.

(* ===================================================================== *)
(** ** Polling until the deadline *)
(* ===================================================================== *)

(** C2, as claimed, fails: when every answer until the deadline is
    [authorization_pending], [pollForDeviceToken] does not fail; it returns
    null. *)
Lemma pollForDeviceToken_deadline_returns_null :
  let net := mock [] (reply_error "authorization_pending")
               (Rejected "offline") 100 in
  let auth := sample_auth 12 5 in
  (forall n, carries_error (token net n) "authorization_pending")
  /\ exists w', pollForDeviceToken 10 net auth false None (initial 0 ∅)
                = Some (Return None, w')
                /\ requests_to Token w' = 3%nat
                /\ now w' = 15400.
Proof.
  intros net auth. split.
  - intros n. exists {| ok := false; status := 400; text := None;
                        json := Some (Some
                                  {| error := Some "authorization_pending";
                                     access_token := ""; token_type := "";
                                     token_expires_in := None;
                                     refresh_token := None |}) |}.
    split; [|split; reflexivity].
    unfold net, mock, token. destruct n; reflexivity.
  - eexists. split; [vm_compute; reflexivity|]. split; reflexivity.
Qed.

(** C2 (amended): when discovery succeeds, the stop signal never fires,
    every answer of the token endpoint is [authorization_pending] or
    [slow_down] and each iteration takes time, [pollForDeviceToken]
    terminates once the [expires_in] deadline has elapsed, and it does so by
    returning null ("no token"), not by throwing: with enough fuel the run
    ends with [Return None] at a time not before the deadline.  The terminal
    error is raised by its caller: [authenticate], given that device
    authorization, then throws "Authentication expired or cancelled". *)
Theorem pollForDeviceToken_times_out (net : Network)
    (auth : DeviceAuthResponse) (endpoints : AuthEndpoints) :
  (forall n, discovers net n endpoints) ->
  (forall n, carries_error (token net n) "authorization_pending"
             \/ carries_error (token net n) "slow_down") ->
  (forall n m, 0 < latency net Token n
                   + (Z.max 0 (pollInterval auth) + timer_lag net m)) ->
  (forall onPoll shouldStop w,
     (forall w, stops shouldStop w = false) ->
     exists fuel0, forall fuel, (fuel0 <= fuel)%nat ->
       exists w', pollForDeviceToken fuel net auth onPoll shouldStop w
                  = Some (Return None, w')
                  /\ now (discovered net w) + expires_in auth * 1000 <= now w'
                  /\ storage w' = storage w)
  /\ (forall w,
        (exists r, device_authorization net (requests_to DeviceAuthorization w)
                   = Responded r /\ ok r = true /\ json r = Some auth) ->
        open_fails net = None ->
        exists fuel0, forall fuel, (fuel0 <= fuel)%nat ->
          exists w', authenticate fuel net w
                     = Some (Throw "Authentication expired or cancelled", w')).
Proof.
  intros Hd Hpending Hprogress. split.
  - intros onPoll shouldStop w Hgo.
    exists (S (Z.to_nat (expires_in auth * 1000))). intros fuel Hfuel.
    rewrite (pollForDeviceToken_loop _ _ _ _ _ _ _ (Hd _)).
    destruct (poll_loop_times_out net auth onPoll shouldStop
                (token_endpoint endpoints)
                (now (discovered net w) + expires_in auth * 1000)
                fuel Hpending Hgo Hprogress (discovered net w))
      as (w' & Hrun & Hnow & Hst); [lia|].
    exists w'. auto.
  - intros w Hgranted Hopen.
    exact (authenticate_times_out net w endpoints auth Hd Hgranted Hopen
             Hpending Hprogress).
Qed.

Lemma pollForDeviceToken_times_out_witness :
  let net := mock [reply_error "slow_down"]
               (reply_error "authorization_pending")
               (Rejected "offline") 100 in
  let auth := sample_auth 12 5 in
  exists fuel0, forall fuel, (fuel0 <= fuel)%nat ->
    exists w', pollForDeviceToken fuel net auth true None (initial 0 ∅)
               = Some (Return None, w')
               /\ 12100 <= now w'
               /\ storage w' = ∅.
Proof.
  intros net auth.
  refine (proj1 (pollForDeviceToken_times_out net auth sample_endpoints _ _ _)
            true None (initial 0 ∅) _).
  - intros n. eexists. split; [reflexivity | split; reflexivity].
  - intros [|n]; [right | left]; eexists;
      (split; [unfold net, mock, token; try destruct n; reflexivity
              | split; reflexivity]).
  - intros n m. vm_compute. reflexivity.
  - reflexivity.
Defined.


(* ===================================================================== *)
(** * Beyond the claims *)
(* ===================================================================== *)

(* ===================================================================== *)
(** ** Sessions and selections in the storage *)
(* ===================================================================== *)

(** What [loadSession] returns after [saveSession], field by field. *)
Lemma loadSession_after_save (s : ConvexSession) (st : Storage) :
  accessToken s <> "" ->
  safe_integers (expiresAt s) = true ->
  loadSession (saveSession s st)
  = Some {| accessToken := accessToken s; tokenType := "Bearer";
            expiresAt := if truthy truthy_number (expiresAt s)
                         then expiresAt s
                         else read_id (getItem TOKEN_EXPIRES_AT st);
            refreshToken := if truthy truthy_string (refreshToken s)
                            then refreshToken s
                            else getItem REFRESH_TOKEN st |}.
Proof.
  intros Htok Hsafe. unfold loadSession.
  rewrite saveSession_ACCESS_TOKEN, saveSession_TOKEN_EXPIRES_AT,
    saveSession_REFRESH_TOKEN.
  destruct (accessToken s) as [|a rest]; [congruence|].
  cbn [truthy_string negb].
  fold (read_id (if truthy truthy_number (expiresAt s)
                 then number_toString <$> expiresAt s
                 else getItem TOKEN_EXPIRES_AT st)).
  rewrite read_id_saved by exact Hsafe. reflexivity.
Qed.

(** X1: after a sign-out, saving a session and loading it gives the session
    back (its access token, expiry and refresh token), with the token type
    ["Bearer"], for every session with a non-empty access token whose
    expiry is absent or a safe integer other than 0 and whose refresh token
    is absent or non-empty. *)
Theorem saveSession_round_trip (s : ConvexSession) (st : Storage) :
  storable s ->
  loadSession (saveSession s (clearSession st)) = Some (as_loaded s).
Proof.
  intros (Htok & Hexp & Hrefresh).
  rewrite loadSession_after_save;
    [| exact Htok | destruct Hexp as [-> | [_ Hsafe]]; [reflexivity | exact Hsafe]].
  unfold as_loaded.
  rewrite !clearSession_lookup by (cbn; tauto).
  f_equal. f_equal.
  - destruct Hexp as [-> | [-> _]]; reflexivity.
  - destruct Hrefresh as [-> | ->]; reflexivity.
Qed.

Lemma saveSession_round_trip_witness :
  let s := {| accessToken := "dashboard-token"; tokenType := "bearer";
              expiresAt := Some (Num 1700000360000);
              refreshToken := None |} in
  loadSession (saveSession s (clearSession (<[REFRESH_TOKEN := "stale"]> ∅)))
  = Some (as_loaded s).
Proof.
  intros s. apply (saveSession_round_trip s).
  split; [discriminate
         | split; [right; split; reflexivity | left; reflexivity]].
Defined.

(** Beyond the safe integers the expiry does not come back: 2^60 is stored
    with the 16 digits that identify the double, which [parseInt] reads as
    another number. *)
Example saveSession_round_trip_large :
  let s := {| accessToken := "dashboard-token"; tokenType := "Bearer";
              expiresAt := Some (Num (10 ^ 21)); refreshToken := None |} in
  loadSession (saveSession s ∅)
  = Some {| accessToken := "dashboard-token"; tokenType := "Bearer";
            expiresAt := Some (Num 1); refreshToken := None |}.
Proof. vm_compute. reflexivity. Qed.

Lemma saveSession_frame (s : ConvexSession) (st : Storage) (key : string) :
  ~ In key session_keys ->
  getItem key (saveSession s st) = getItem key st.
Proof.
  unfold session_keys. cbn [In]. intros Hkey. unfold saveSession.
  destruct (expiresAt s) as [e|]; [destruct (truthy_number e)|];
    (destruct (refreshToken s) as [r|]; [destruct (truthy_string r)|]);
    unfold getItem, setItem;
    rewrite ?lookup_insert_ne by (intros <-; tauto); reflexivity.
Qed.

Lemma saveSelectedContext_frame (c : SelectedContext) (st : Storage)
    (key : string) :
  ~ In key selection_keys ->
  getItem key (saveSelectedContext c st) = getItem key st.
Proof.
  unfold selection_keys. cbn [In]. intros Hkey. unfold saveSelectedContext.
  destruct (teamId c) as [t|]; [destruct (truthy_number t)|];
    (destruct (projectId c) as [p|]; [destruct (truthy_number p)|]);
    (destruct (deploymentName c) as [d|]; [destruct (truthy_string d)|]);
    unfold getItem, setItem;
    rewrite ?lookup_insert_ne by (intros <-; tauto); reflexivity.
Qed.

Lemma session_key_not_selection (key : string) :
  In key session_keys -> ~ In key selection_keys.
Proof.
  unfold session_keys, selection_keys. cbn [In]. unfold_keys.
  intros [<-|[<-|[<-|[]]]] [H|[H|[H|[]]]]; discriminate H.
Qed.

Lemma selection_key_not_session (key : string) :
  In key selection_keys -> ~ In key session_keys.
Proof. intros Hsel Hses. exact (session_key_not_selection key Hses Hsel). Qed.

(** X2: the session and the selection are stored independently: saving a
    session writes no key outside the three session keys and so changes
    nothing of what [loadSelectedContext] returns; saving a selection writes
    no key outside the three selection keys and so changes nothing of what
    [loadSession] returns. *)
Theorem session_and_selection_independent (s : ConvexSession)
    (c : SelectedContext) (st : Storage) :
  (forall key, ~ In key session_keys ->
     getItem key (saveSession s st) = getItem key st)
  /\ loadSelectedContext (saveSession s st) = loadSelectedContext st
  /\ (forall key, ~ In key selection_keys ->
        getItem key (saveSelectedContext c st) = getItem key st)
  /\ loadSession (saveSelectedContext c st) = loadSession st.
Proof.
  split; [intros key; apply saveSession_frame|].
  split.
  { unfold loadSelectedContext.
    rewrite !saveSession_frame
      by (apply selection_key_not_session; cbn; tauto).
    reflexivity. }
  split; [intros key; apply saveSelectedContext_frame|].
  unfold loadSession.
  rewrite !saveSelectedContext_frame
    by (apply session_key_not_selection; cbn; tauto).
  reflexivity.
Qed.

Lemma loadSelectedContext_after_save (c : SelectedContext) (st : Storage) :
  safe_integers (teamId c) = true ->
  safe_integers (projectId c) = true ->
  loadSelectedContext (saveSelectedContext c st)
  = {| teamId := if truthy truthy_number (teamId c)
                 then teamId c else teamId (loadSelectedContext st);
       projectId := if truthy truthy_number (projectId c)
                    then projectId c else projectId (loadSelectedContext st);
       deploymentName := if truthy truthy_string (deploymentName c)
                         then deploymentName c
                         else deploymentName (loadSelectedContext st) |}.
Proof.
  intros Hteam Hproject. unfold loadSelectedContext at 1.
  rewrite saveSelectedContext_TEAM, saveSelectedContext_PROJECT,
    saveSelectedContext_DEPLOYMENT.
  fold (read_id (if truthy truthy_number (teamId c)
                 then number_toString <$> teamId c
                 else getItem SELECTED_TEAM_ID st)).
  fold (read_id (if truthy truthy_number (projectId c)
                 then number_toString <$> projectId c
                 else getItem SELECTED_PROJECT_ID st)).
  rewrite !read_id_saved by assumption. reflexivity.
Qed.

(** X3: saving back what was loaded changes nothing that can be loaded, as
    long as the numbers loaded are safe integers (or [NaN]):
    [saveSelectedContext (loadSelectedContext st)] then leaves the loaded
    selection as it was, and when [loadSession] finds a session, saving that
    session leaves the loaded session as it was. *)
Theorem save_what_was_loaded (st : Storage) :
  (safe_integers (teamId (loadSelectedContext st)) = true ->
   safe_integers (projectId (loadSelectedContext st)) = true ->
   loadSelectedContext (saveSelectedContext (loadSelectedContext st) st)
   = loadSelectedContext st)
  /\ (forall s, loadSession st = Some s ->
        safe_integers (expiresAt s) = true ->
        loadSession (saveSession s st) = Some s).
Proof.
  split.
  - intros Hteam Hproject.
    rewrite loadSelectedContext_after_save by assumption.
    destruct (loadSelectedContext st) as [t p d]. cbn [teamId projectId deploymentName].
    destruct (truthy truthy_number t), (truthy truthy_number p),
      (truthy truthy_string d); reflexivity.
  - intros s Hs Hsafe. unfold loadSession in Hs.
    destruct (getItem ACCESS_TOKEN st) as [token|] eqn:Etok; [|discriminate].
    destruct token as [|a rest]; [discriminate|].
    cbn [truthy_string negb] in Hs. injection Hs as <-.
    rewrite loadSession_after_save; [| cbn; discriminate | exact Hsafe].
    cbn [accessToken expiresAt refreshToken].
    fold (read_id (getItem TOKEN_EXPIRES_AT st)).
    f_equal. f_equal.
    + destruct (truthy truthy_number (read_id (getItem TOKEN_EXPIRES_AT st)));
        reflexivity.
    + destruct (truthy truthy_string (getItem REFRESH_TOKEN st)); reflexivity.
Qed.

Lemma save_what_was_loaded_witness :
  let st : Storage :=
    <[SELECTED_TEAM_ID := "41"]> (<[SELECTED_PROJECT_ID := "7abc"]> ∅) in
  loadSelectedContext (saveSelectedContext (loadSelectedContext st) st)
  = loadSelectedContext st.
Proof.
  intros st.
  refine (proj1 (save_what_was_loaded st) _ _); vm_compute; reflexivity.
Defined.

(** With a stored identifier beyond the safe integers it does change: the
    22 digits of 1e21 are loaded as 1e21, saved as ["1e+21"] and then loaded
    as 1. *)
Example save_what_was_loaded_large :
  let st : Storage := <[SELECTED_TEAM_ID := "1000000000000000000000"]> ∅ in
  teamId (loadSelectedContext st) = Some (Num (10 ^ 21))
  /\ teamId (loadSelectedContext
               (saveSelectedContext (loadSelectedContext st) st))
     = Some (Num 1).
Proof. split; vm_compute; reflexivity. Qed.

(* ===================================================================== *)
(** ** Runs of the polling loop *)
(* ===================================================================== *)

Section PollRuns.

Variable net : Network.
Variable auth : DeviceAuthResponse.
Variable onPoll : bool.
Variable shouldStop : option (World -> bool).
Variable url : string.
Variable expiresAt : Z.

Local Abbreviation run fuel :=
  (poll_loop fuel net auth onPoll shouldStop url expiresAt).
Local Abbreviation sent := (requested net auth onPoll shouldStop url).
Local Abbreviation rested := (slept net auth onPoll shouldStop url).

(** More fuel does not change a result. *)
Lemma poll_loop_more_fuel (fuel : nat) :
  forall w r, run fuel w = Some r -> run (S fuel) w = Some r.
Proof.
  induction fuel as [|fuel IH]; intros w r Hrun; [discriminate Hrun|].
  destruct (Z.le_gt_cases expiresAt (now w)) as [Hpast|Hleft].
  { rewrite poll_loop_deadline in * by assumption. exact Hrun. }
  destruct (stops shouldStop w) eqn:Hstop.
  { rewrite poll_loop_cancelled in * by assumption. exact Hrun. }
  rewrite poll_loop_request in Hrun by assumption.
  rewrite poll_loop_request by assumption.
  destruct (token net (requests_to Token w)) as [response|e]; [|exact Hrun].
  destruct (ok response); [exact Hrun|].
  destruct (body_is_null response); [exact Hrun|]. cbn zeta in *.
  destruct (error_is (error_of response) "authorization_pending"
            || error_is (error_of response) "slow_down"); [|exact Hrun].
  apply IH. exact Hrun.
Qed.

Lemma poll_loop_any_more_fuel (fuel extra : nat) (w : World) r :
  run fuel w = Some r -> run (extra + fuel) w = Some r.
Proof.
  intros Hrun. induction extra as [|extra IH]; [exact Hrun|].
  apply poll_loop_more_fuel. exact IH.
Qed.

(** When each iteration takes time the loop ends, whatever the answers. *)
Lemma poll_loop_terminates (fuel : nat) :
  (forall n m, 0 < latency net Token n
                   + (Z.max 0 (pollInterval auth) + timer_lag net m)) ->
  forall w, (Z.to_nat (expiresAt - now w) < fuel)%nat ->
    exists r, run fuel w = Some r.
Proof.
  intros Hprogress.
  induction fuel as [|fuel IH]; intros w Hfuel; [lia|].
  destruct (Z.le_gt_cases expiresAt (now w)) as [Hpast|Hleft].
  { rewrite poll_loop_deadline by assumption. eauto. }
  destruct (stops shouldStop w) eqn:Hstop.
  { rewrite poll_loop_cancelled by assumption. eauto. }
  destruct (poll_loop_iteration net auth onPoll shouldStop url expiresAt
              fuel w Hleft Hstop) as [-> | [out ->]]; [|eauto].
  apply IH. rewrite now_slept.
  specialize (Hprogress (requests_to Token w) (timers w)). lia.
Qed.

(** The timers of the loop all have the same delay. *)
Lemma poll_loop_timers (fuel : nat) :
  forall w out w', run fuel w = Some (out, w') ->
    forall ms, In (SetTimeout ms) (log w') ->
      In (SetTimeout ms) (log w) \/ ms = pollInterval auth.
Proof.
  induction fuel as [|fuel IH]; intros w out w' Hrun ms Hin;
    [discriminate Hrun|].
  destruct (Z.le_gt_cases expiresAt (now w)) as [Hpast|Hleft].
  { rewrite poll_loop_deadline in Hrun by assumption.
    injection Hrun as <- <-. auto. }
  destruct (stops shouldStop w) eqn:Hstop.
  { rewrite poll_loop_cancelled in Hrun by assumption.
    injection Hrun as <- <-. destruct Hin as [H|H]; [discriminate H | auto]. }
  assert (Hsent : In (SetTimeout ms) (log (sent w)) ->
                  In (SetTimeout ms) (log w)).
  { unfold requested, polled. destruct shouldStop, onPoll; cbn;
      intuition discriminate. }
  destruct (poll_loop_iteration net auth onPoll shouldStop url expiresAt
              fuel w Hleft Hstop) as [Hnext | [out' Hend]].
  - rewrite Hnext in Hrun.
    destruct (IH _ _ _ Hrun ms Hin) as [[H|H]|H]; auto.
    injection H as <-. auto.
  - rewrite Hend in Hrun. injection Hrun as <- <-. auto.
Qed.


(** A token is returned only as the payload of the last request. *)
Lemma poll_loop_token_sound (fuel : nat) :
  forall w tokens w', run fuel w = Some (Return (Some tokens), w') ->
    exists k, requests_to Token w' = S k
              /\ (requests_to Token w <= k)%nat
              /\ carries_token (token net k) tokens.
Proof.
  induction fuel as [|fuel IH]; intros w tokens w' Hrun; [discriminate Hrun|].
  destruct (Z.le_gt_cases expiresAt (now w)) as [Hpast|Hleft].
  { rewrite poll_loop_deadline in Hrun by assumption. discriminate Hrun. }
  destruct (stops shouldStop w) eqn:Hstop.
  { rewrite poll_loop_cancelled in Hrun by assumption. discriminate Hrun. }
  rewrite poll_loop_request in Hrun by assumption.
  destruct (token net (requests_to Token w)) as [response|e] eqn:Ereply;
    [|discriminate Hrun].
  destruct (ok response) eqn:Eok.
  - destruct (json response) as [body|] eqn:Ejson; [|discriminate Hrun].
    injection Hrun as -> <-. exists (requests_to Token w).
    rewrite requests_to_requested. split; [reflexivity|]. split; [lia|].
    rewrite Ereply. exists response. auto.
  - destruct (body_is_null response); [discriminate Hrun|].
    cbn zeta in Hrun.
    destruct (error_is (error_of response) "authorization_pending"
              || error_is (error_of response) "slow_down").
    + destruct (IH _ _ _ Hrun) as (k & Hk & Hle & Htok).
      rewrite requests_to_slept in Hle. exists k.
      split; [exact Hk|]. split; [lia | exact Htok].
    + destruct (error_is (error_of response) "expired_token");
        [discriminate Hrun|].
      destruct (error_is (error_of response) "access_denied");
        discriminate Hrun.
Qed.

(** Null is returned only at the deadline, on the stop signal, or as the
    body of the last answer. *)
Lemma poll_loop_null_reason (fuel : nat) :
  forall w w', run fuel w = Some (Return None, w') ->
    expiresAt <= now w'
    \/ (exists w0, stops shouldStop w0 = true /\ w' = note ShouldStop w0)
    \/ (exists k, requests_to Token w' = S k
                  /\ (requests_to Token w <= k)%nat
                  /\ carries_null (token net k)).
Proof.
  induction fuel as [|fuel IH]; intros w w' Hrun; [discriminate Hrun|].
  destruct (Z.le_gt_cases expiresAt (now w)) as [Hpast|Hleft].
  { rewrite poll_loop_deadline in Hrun by assumption.
    injection Hrun as <-. auto. }
  destruct (stops shouldStop w) eqn:Hstop.
  { rewrite poll_loop_cancelled in Hrun by assumption.
    injection Hrun as <-. eauto. }
  rewrite poll_loop_request in Hrun by assumption.
  destruct (token net (requests_to Token w)) as [response|e] eqn:Ereply;
    [|discriminate Hrun].
  destruct (ok response) eqn:Eok.
  - destruct (json response) as [[body|]|] eqn:Ejson; [discriminate Hrun | |
      discriminate Hrun].
    injection Hrun as <-. right. right. exists (requests_to Token w).
    rewrite requests_to_requested. split; [reflexivity|]. split; [lia|].
    rewrite Ereply. exists response. auto.
  - destruct (body_is_null response); [discriminate Hrun|].
    cbn zeta in Hrun.
    destruct (error_is (error_of response) "authorization_pending"
              || error_is (error_of response) "slow_down").
    + destruct (IH _ _ Hrun) as [H | [H | (k & Hk & Hle & Hnull)]]; auto.
      right. right. exists k. rewrite requests_to_slept in Hle.
      split; [exact Hk|]. split; [lia | exact Hnull].
    + destruct (error_is (error_of response) "expired_token");
        [discriminate Hrun|].
      destruct (error_is (error_of response) "access_denied");
        discriminate Hrun.
Qed.

End PollRuns.

Lemma pollForDeviceToken_cases (fuel : nat) (net : Network)
    (auth : DeviceAuthResponse) (onPoll : bool)
    (shouldStop : option (World -> bool)) (w : World) :
  (exists e, pollForDeviceToken fuel net auth onPoll shouldStop w
             = Some (Throw e, discovered net w))
  \/ (exists endpoints,
        pollForDeviceToken fuel net auth onPoll shouldStop w
        = poll_loop fuel net auth onPoll shouldStop (token_endpoint endpoints)
            (now (discovered net w) + expires_in auth * 1000)
            (discovered net w)).
Proof.
  destruct (discoverAuthEndpoints_world net w) as [[endpoints|e] Hd].
  - right. exists endpoints. unfold pollForDeviceToken, bind at 1.
    rewrite Hd. reflexivity.
  - left. exists e. apply pollForDeviceToken_undiscovered. exact Hd.
Qed.

(** X4: an error response of the token endpoint that carries none of the
    four codes the loop knows ends [pollForDeviceToken] with an error, and
    the request so answered is the last one.  In a run from a fresh world
    that comes to request [k] (discovery succeeds, the stop signal does not
    fire, the requests before are answered [authorization_pending] or
    [slow_down], the device code has not expired), an error response to
    request [k] whose body is an object, or not JSON, makes the run throw
    "Authentication failed: " followed by the error code, or by the HTTP
    status when there is no error member or it is empty; an error response
    whose body is the literal [null] makes it throw the [TypeError] of
    reading a member of [null]. *)
Theorem pollForDeviceToken_other_error (net : Network)
    (auth : DeviceAuthResponse) (onPoll : bool)
    (shouldStop : option (World -> bool)) (t : Z) (st : Storage)
    (endpoints : AuthEndpoints) (k fuel : nat)
    (response : Response (option TokenResponse)) :
  discovers net 0 endpoints ->
  (forall w, stops shouldStop w = false) ->
  (forall j, (j < k)%nat ->
     carries_error (token net j) "authorization_pending"
     \/ carries_error (token net j) "slow_down") ->
  (forall j, (j <= k)%nat -> waited net auth j < expires_in auth * 1000) ->
  (k < fuel)%nat ->
  token net k = Responded response ->
  ok response = false ->
  ~ In (error_of response)
      [Some "authorization_pending"; Some "slow_down"; Some "expired_token";
       Some "access_denied"] ->
  exists w',
    pollForDeviceToken fuel net auth onPoll shouldStop (initial t st)
    = Some (Throw (if body_is_null response then null_error
                   else "Authentication failed: "
                        +:+ match error_of response with
                            | Some (String a code) => String a code
                            | _ => toString (status response)
                            end),
            w')
    /\ requests_to Token w' = S k.
Proof.
  intros Hd Hgo Hpending Hleft Hfuel Hreply Hok Hother.
  destruct (pollForDeviceToken_reaches net auth onPoll shouldStop t st
              endpoints k (fuel - k) Hd Hgo Hpending Hleft)
    as (Hrun & Hnow & Hcount).
  replace (k + (fuel - k))%nat with fuel in Hrun by lia.
  destruct (fuel - k)%nat as [|rest] eqn:Efuel; [lia|].
  rewrite poll_loop_request in Hrun by (auto using Hgo).
  rewrite Hcount, Hreply, Hok in Hrun.
  eexists. split; [|rewrite requests_to_requested, Hcount; reflexivity].
  rewrite Hrun.
  destruct (body_is_null response); [reflexivity|]. cbn zeta.
  assert (Hno : forall code, error_of response <> Some code ->
                  error_is (error_of response) code = false).
  { intros code Hne. unfold error_is.
    destruct (error_of response) as [s|]; [|reflexivity].
    destruct (String.eqb_spec s code); congruence. }
  cbn [In] in Hother.
  rewrite (Hno "authorization_pending"), (Hno "slow_down"),
    (Hno "expired_token"), (Hno "access_denied")
    by (intros H; apply Hother; rewrite H; tauto).
  cbn [orb].
  destruct (error_of response) as [[|a code]|]; reflexivity.
Qed.

Lemma pollForDeviceToken_other_error_witness :
  let response := {| ok := false; status := 503; text := Some "<html>";
                     json := None |} in
  let net := mock [reply_error "slow_down"; Responded response]
               (reply_token sample_tokens) (Rejected "offline") 100 in
  let auth := sample_auth 900 5 in
  exists w',
    pollForDeviceToken 2 net auth false None (initial 0 ∅)
    = Some (Throw "Authentication failed: 503", w')
    /\ requests_to Token w' = 2%nat.
Proof.
  intros response net auth.
  refine (pollForDeviceToken_other_error net auth false None 0 ∅
            sample_endpoints 1 2 response _ _ _ _ _ _ _ _).
  - eexists. split; [reflexivity | split; reflexivity].
  - reflexivity.
  - intros [|j] Hj; [|lia]. right. eexists.
    split; [reflexivity | split; reflexivity].
  - intros [|[|j]] Hj; [reflexivity | reflexivity | lia].
  - lia.
  - reflexivity.
  - reflexivity.
  - cbn. intros [H|[H|[H|[H|[]]]]]; discriminate H.
Defined.

(** The same with an error response whose body is [null]. *)
Example pollForDeviceToken_null_error_body :
  let net := mock [reply_null false 400] (reply_token sample_tokens)
               (Rejected "offline") 100 in
  exists w',
    pollForDeviceToken 1 net (sample_auth 900 5) false None (initial 0 ∅)
    = Some (Throw "Cannot read properties of null (reading 'error')", w')
    /\ requests_to Token w' = 1%nat.
Proof. intros net. eexists. split; [vm_compute; reflexivity | reflexivity]. Qed.

(** X5: every timer that [pollForDeviceToken] sets has the delay
    [(auth.interval || 5) * 1000], whether the answer before it was
    [authorization_pending] or [slow_down]: a [slow_down] does not lengthen
    the wait. *)
Theorem pollForDeviceToken_timers (fuel : nat) (net : Network)
    (auth : DeviceAuthResponse) (onPoll : bool)
    (shouldStop : option (World -> bool)) (w : World)
    (out : Outcome (option TokenResponse)) (w' : World) (ms : Z) :
  pollForDeviceToken fuel net auth onPoll shouldStop w = Some (out, w') ->
  In (SetTimeout ms) (log w') ->
  In (SetTimeout ms) (log w) \/ ms = pollInterval auth.
Proof.
  intros Hrun Hin.
  destruct (pollForDeviceToken_cases fuel net auth onPoll shouldStop w)
    as [[e He] | [endpoints He]]; rewrite He in Hrun.
  - injection Hrun as <- <-. destruct Hin as [H|H]; [discriminate H | auto].
  - destruct (poll_loop_timers _ _ _ _ _ _ _ _ _ _ Hrun ms Hin) as [[H|H]|H];
      [discriminate H | auto | auto].
Qed.

Lemma pollForDeviceToken_timers_witness :
  let net := mock [reply_error "slow_down"; reply_error "slow_down"]
               (reply_token sample_tokens) (Rejected "offline") 100 in
  let auth := sample_auth 900 7 in
  In (SetTimeout 7000) [] \/ 7000 = pollInterval auth.
Proof.
  intros net auth.
  set (url := token_endpoint sample_endpoints).
  set (w' := requested net auth false None url
               (slept net auth false None url
                  (slept net auth false None url
                     (discovered net (initial 0 ∅))))).
  refine (pollForDeviceToken_timers 3 net auth false None (initial 0 ∅)
            (Return (Some sample_tokens)) w' 7000 _ _).
  - vm_compute. reflexivity.
  - cbn. auto.
Defined.

(** X6: [pollForDeviceToken] always terminates, whatever the servers
    answer, as long as each iteration of the loop takes time: from
    [expires_in] one gets an amount of fuel with which the run has a result,
    and more fuel gives the same result. *)
Theorem pollForDeviceToken_terminates (net : Network)
    (auth : DeviceAuthResponse) (onPoll : bool)
    (shouldStop : option (World -> bool)) (w : World) :
  (forall n m, 0 < latency net Token n
                   + (Z.max 0 (pollInterval auth) + timer_lag net m)) ->
  exists out w', forall fuel,
    (S (Z.to_nat (expires_in auth * 1000)) <= fuel)%nat ->
    pollForDeviceToken fuel net auth onPoll shouldStop w = Some (out, w').
Proof.
  intros Hprogress.
  destruct (discoverAuthEndpoints_world net w) as [[endpoints|e] Hd].
  - set (deadline := now (discovered net w) + expires_in auth * 1000).
    set (fuel0 := S (Z.to_nat (expires_in auth * 1000))).
    destruct (poll_loop_terminates net auth onPoll shouldStop
                (token_endpoint endpoints) deadline fuel0 Hprogress
                (discovered net w)) as [[out w'] Hrun];
      [unfold deadline, fuel0; lia|].
    exists out, w'. intros fuel Hfuel.
    unfold pollForDeviceToken, bind at 1. rewrite Hd.
    unfold bind, Date_now. fold deadline.
    replace fuel with ((fuel - fuel0) + fuel0)%nat by (fold fuel0 in Hfuel; lia).
    apply poll_loop_any_more_fuel. exact Hrun.
  - exists (Throw e), (discovered net w). intros fuel _.
    apply pollForDeviceToken_undiscovered. exact Hd.
Qed.

Lemma pollForDeviceToken_terminates_witness :
  let net := mock [reply_error "slow_down"]
               (reply_error "authorization_pending")
               (Rejected "offline") 100 in
  let auth := sample_auth 12 5 in
  exists out w', forall fuel, (S (Z.to_nat 12000) <= fuel)%nat ->
    pollForDeviceToken fuel net auth false (Some (fun w => 9000 <? now w))
      (initial 0 ∅) = Some (out, w').
Proof.
  intros net auth.
  refine (pollForDeviceToken_terminates net auth false
            (Some (fun w => 9000 <? now w)) (initial 0 ∅) _).
  intros n m. vm_compute. reflexivity.
Defined.



(** X8: [pollForDeviceToken] returns a token payload only when its last
    token request was answered by an [ok] response with that payload as its
    JSON body. *)
Theorem pollForDeviceToken_token_sound (fuel : nat) (net : Network)
    (auth : DeviceAuthResponse) (onPoll : bool)
    (shouldStop : option (World -> bool)) (w : World)
    (tokens : TokenResponse) (w' : World) :
  pollForDeviceToken fuel net auth onPoll shouldStop w
  = Some (Return (Some tokens), w') ->
  exists k, requests_to Token w' = S k
            /\ (requests_to Token w <= k)%nat
            /\ carries_token (token net k) tokens.
Proof.
  intros Hrun.
  destruct (pollForDeviceToken_cases fuel net auth onPoll shouldStop w)
    as [[e He] | [endpoints He]]; rewrite He in Hrun; [discriminate Hrun|].
  destruct (poll_loop_token_sound _ _ _ _ _ _ _ _ _ _ Hrun)
    as (k & Hk & Hle & Htok).
  rewrite requests_to_discovered in Hle. eauto.
Qed.

Lemma pollForDeviceToken_token_sound_witness :
  let net := mock [reply_error "authorization_pending"]
               (reply_token sample_tokens) (Rejected "offline") 100 in
  let auth := sample_auth 900 5 in
  exists w' k,
    pollForDeviceToken 4 net auth false None (initial 0 ∅)
    = Some (Return (Some sample_tokens), w')
    /\ requests_to Token w' = S k
    /\ (0 <= k)%nat
    /\ carries_token (token net k) sample_tokens.
Proof.
  intros net auth.
  assert (Hrun : exists w',
             pollForDeviceToken 4 net auth false None (initial 0 ∅)
             = Some (Return (Some sample_tokens), w'))
    by (eexists; vm_compute; reflexivity).
  destruct Hrun as [w' Hrun].
  destruct (pollForDeviceToken_token_sound 4 net auth false None
              (initial 0 ∅) sample_tokens w' Hrun) as (k & Hk).
  exists w', k. split; [exact Hrun | exact Hk].
Defined.

(** X9: [pollForDeviceToken] returns null only when the deadline has
    passed, the stop signal fired, or the token endpoint answered null: a
    null result means that the clock has reached the deadline computed after
    discovery, or that the last action was a call of [shouldStop] that
    returned true, or that the last token request was answered by an [ok]
    response whose JSON body is the literal [null].  Without a stop
    callback, and when no answer of the token endpoint is such a response,
    null always means that the device code expired. *)
Theorem pollForDeviceToken_null_reason (fuel : nat) (net : Network)
    (auth : DeviceAuthResponse) (onPoll : bool)
    (shouldStop : option (World -> bool)) (w w' : World) :
  pollForDeviceToken fuel net auth onPoll shouldStop w
  = Some (Return None, w') ->
  (now (discovered net w) + expires_in auth * 1000 <= now w'
   \/ (exists w0, stops shouldStop w0 = true /\ w' = note ShouldStop w0)
   \/ (exists k, requests_to Token w' = S k
                 /\ (requests_to Token w <= k)%nat
                 /\ carries_null (token net k)))
  /\ (shouldStop = None ->
      (forall k, ~ carries_null (token net k)) ->
      now (discovered net w) + expires_in auth * 1000 <= now w').
Proof.
  intros Hrun.
  assert (H : now (discovered net w) + expires_in auth * 1000 <= now w'
              \/ (exists w0, stops shouldStop w0 = true
                             /\ w' = note ShouldStop w0)
              \/ (exists k, requests_to Token w' = S k
                            /\ (requests_to Token w <= k)%nat
                            /\ carries_null (token net k))).
  { destruct (pollForDeviceToken_cases fuel net auth onPoll shouldStop w)
      as [[e He] | [endpoints He]]; rewrite He in Hrun; [discriminate Hrun|].
    destruct (poll_loop_null_reason _ _ _ _ _ _ _ _ _ Hrun)
      as [H | [H | (k & Hk & Hle & Hnull)]]; auto.
    right. right. exists k. rewrite requests_to_discovered in Hle. auto. }
  split; [exact H|]. intros -> Hnonnull.
  destruct H as [H | [(w0 & Hstop & _) | (k & _ & _ & Hnull)]];
    [exact H | discriminate Hstop | destruct (Hnonnull k Hnull)].
Qed.

Lemma pollForDeviceToken_null_reason_witness :
  let net := mock [] (reply_error "authorization_pending")
               (Rejected "offline") 100 in
  let auth := sample_auth 12 5 in
  exists w',
    pollForDeviceToken 10 net auth true None (initial 0 ∅)
    = Some (Return None, w')
    /\ 12100 <= now w'.
Proof.
  intros net auth.
  assert (Hrun : exists w',
             pollForDeviceToken 10 net auth true None (initial 0 ∅)
             = Some (Return None, w'))
    by (eexists; vm_compute; reflexivity).
  destruct Hrun as [w' Hrun]. exists w'. split; [exact Hrun|].
  refine (proj2 (pollForDeviceToken_null_reason 10 net auth true None
                   (initial 0 ∅) w' Hrun) eq_refl _).
  intros k (r & Hr & Hok & _). unfold net, mock, token in Hr.
  destruct k as [|k]; cbn in Hr; injection Hr as <-; discriminate Hok.
Defined.

(** An [ok] response whose body is [null] ends the polling with null, long
    before the deadline and with no stop signal. *)
Example pollForDeviceToken_null_body :
  let net := mock [reply_error "authorization_pending"] (reply_null true 200)
               (Rejected "offline") 100 in
  exists w',
    pollForDeviceToken 5 net (sample_auth 900 5) false None (initial 0 ∅)
    = Some (Return None, w')
    /\ requests_to Token w' = 2%nat
    /\ now w' = 5300.
Proof.
  intros net. eexists.
  split; [vm_compute; reflexivity | split; reflexivity].
Qed.

(* ===================================================================== *)
(** ** The two requests before and after the polling *)
(* ===================================================================== *)

(** X10: [startDeviceAuthorization] returns only the JSON body of an [ok]
    response to its POST, and that POST goes to the
    [device_authorization_endpoint] that discovery announced; when discovery
    fails it throws the error of discovery and sends no POST; when the POST
    is answered by an error response it throws a message with the HTTP
    status and the body text ("Unknown error" when the body cannot be
    read). *)
Theorem startDeviceAuthorization_outcomes (net : Network) (w : World) :
  (forall deviceAuth w',
     startDeviceAuthorization net w = Some (Return deviceAuth, w') ->
     exists endpoints r,
       discovers net (requests_to OpenidConfiguration w) endpoints
       /\ device_authorization net (requests_to DeviceAuthorization w)
          = Responded r
       /\ ok r = true /\ json r = Some deviceAuth
       /\ log w'
          = Fetch (PostDeviceAuthorization
                     (device_authorization_endpoint endpoints))
            :: Fetch GetOpenidConfiguration :: log w)
  /\ (forall e,
        discoverAuthEndpoints net w = Some (Throw e, discovered net w) ->
        startDeviceAuthorization net w = Some (Throw e, discovered net w)
        /\ requests_to DeviceAuthorization (discovered net w)
           = requests_to DeviceAuthorization w)
  /\ (forall endpoints r,
        discovers net (requests_to OpenidConfiguration w) endpoints ->
        device_authorization net (requests_to DeviceAuthorization w)
        = Responded r ->
        ok r = false ->
        exists w',
          startDeviceAuthorization net w
          = Some (Throw ("Failed to start device authorization: "
                         +:+ toString (status r) +:+ " "
                         +:+ match text r with
                             | Some t => t
                             | None => "Unknown error"
                             end), w')).
Proof.
  split; [|split].
  - intros deviceAuth w' Hrun.
    unfold startDeviceAuthorization, bind at 1 in Hrun.
    unfold discoverAuthEndpoints, bind at 1, fetch in Hrun.
    cbn [endpoint_of] in Hrun.
    destruct (openid_configuration net (requests_to OpenidConfiguration w))
      as [r0|e0] eqn:E0; [|discriminate Hrun].
    destruct (ok r0) eqn:Eok0; cbn [negb] in Hrun; [|discriminate Hrun].
    unfold response_json in Hrun.
    destruct (json r0) as [endpoints|] eqn:Ej0; [|discriminate Hrun].
    unfold ret, bind, fetch in Hrun. cbn [endpoint_of] in Hrun.
    change (requests_to DeviceAuthorization (after _ _ w))
      with (requests_to DeviceAuthorization w) in Hrun.
    destruct (device_authorization net (requests_to DeviceAuthorization w))
      as [r|e] eqn:E1; [|discriminate Hrun].
    destruct (ok r) eqn:Eok; cbn [negb] in Hrun; [|discriminate Hrun].
    destruct (json r) as [body|] eqn:Ej; [|discriminate Hrun].
    injection Hrun as <- <-.
    exists endpoints, r. split; [exists r0; auto|]. auto.
  - intros e Hd. split; [|reflexivity].
    unfold startDeviceAuthorization, bind at 1. rewrite Hd. reflexivity.
  - intros endpoints r Hd Hr Hok.
    unfold startDeviceAuthorization, bind at 1.
    rewrite (discoverAuthEndpoints_ok _ _ _ Hd).
    unfold bind, fetch. cbn [endpoint_of].
    change (requests_to DeviceAuthorization (discovered net w))
      with (requests_to DeviceAuthorization w).
    rewrite Hr, Hok. cbn [negb]. eexists. reflexivity.
Qed.

(** X11: a session obtained from [exchangeForDashboardToken] with a lifetime
    of [e] seconds counts as expired, for [isSessionExpired], from
    [e * 1000 - 300000] ms after the exchange on: it is usable for [e - 300]
    seconds, and a lifetime under 300 seconds gives a session that is
    expired the moment it is obtained. *)
Theorem exchanged_session_lifetime (net : Network) (oidcToken : string)
    (w : World) (r : Response AuthorizeData) (data : AuthorizeData) (e : Z) :
  authorize net (requests_to Authorize w) = Responded r ->
  ok r = true -> json r = Some data ->
  data_expiresAt data = Some e ->
  0 < e -> 0 <= now (authorized net oidcToken w) ->
  exists session,
    exchangeForDashboardToken net oidcToken w
    = Some (Return session, authorized net oidcToken w)
    /\ accessToken session = data_accessToken data
    /\ (forall t, isSessionExpired t session
                  = (t >? now (authorized net oidcToken w)
                          + e * 1000 - 300000))
    /\ isSessionExpired (now (authorized net oidcToken w)) session
       = (e <? 300).
Proof.
  intros Hr Hok Hjson He Hpos Hnow.
  unfold exchangeForDashboardToken, bind at 1, fetch. cbn [endpoint_of].
  rewrite Hr, Hok. cbn [negb]. fold (authorized net oidcToken w).
  unfold bind, response_json, Date_now, ret. rewrite Hjson, He.
  destruct (Z.eqb_spec e 0) as [->|_]; [lia|].
  eexists. split; [reflexivity|]. split; [reflexivity|].
  set (t0 := now (authorized net oidcToken w)) in *.
  assert (Hexp : forall t,
            isSessionExpired t
              {| accessToken := data_accessToken data;
                 tokenType := default "Bearer" (data_tokenType data);
                 expiresAt := Some (Num (t0 + e * 1000));
                 refreshToken := data_refreshToken data |}
            = (t >? t0 + e * 1000 - 300000)).
  { intros t. unfold isSessionExpired.
    cbn [expiresAt truthy truthy_number].
    destruct (Z.eqb_spec (t0 + e * 1000) 0) as [H0|_]; [lia|].
    cbn [negb num_sub num_gtb]. reflexivity. }
  split; [exact Hexp|]. rewrite Hexp.
  destruct (Z.ltb_spec e 300), (Z.gtb_spec t0 (t0 + e * 1000 - 300000));
    [reflexivity | lia | lia | reflexivity].
Qed.

Lemma exchanged_session_lifetime_witness :
  let data := {| data_accessToken := "dashboard-token";
                 data_tokenType := None; data_expiresAt := Some 120;
                 data_refreshToken := None |} in
  let r := {| ok := true; status := 200; text := None;
              json := Some data |} in
  let net := mock [] (reply_token sample_tokens) (Responded r) 100 in
  let w := initial 1700000000000 ∅ in
  exists session,
    exchangeForDashboardToken net "oidc-token" w
    = Some (Return session, authorized net "oidc-token" w)
    /\ accessToken session = "dashboard-token"
    /\ (forall t, isSessionExpired t session
                  = (t >? now (authorized net "oidc-token" w)
                          + 120 * 1000 - 300000))
    /\ isSessionExpired (now (authorized net "oidc-token" w)) session = true.
Proof.
  intros data r net w.
  refine (exchanged_session_lifetime net "oidc-token" w r data 120
            _ _ _ _ _ _); [reflexivity.. | | ].
  - reflexivity.
  - vm_compute. discriminate.
Defined.

(* ===================================================================== *)
(** ** What the flow shows and stores *)
(* ===================================================================== *)

Section Unchanged.

Context {X : Type} (part : World -> X).
Hypothesis part_after : forall ev took w, part (after ev took w) = part w.
Hypothesis part_note : forall ev w, part (note ev w) = part w.

Lemma unchanged_ret {A : Type} (a : A) : unchanged part (ret a).
Proof. intros w out w' H. injection H as <- <-. reflexivity. Qed.

Lemma unchanged_throw {A : Type} (e : string) : unchanged part (@throw A e).
Proof. intros w out w' H. injection H as <- <-. reflexivity. Qed.

Lemma unchanged_bind {A B : Type} (m : M A) (k : A -> M B) :
  unchanged part m -> (forall a, unchanged part (k a)) ->
  unchanged part (bind m k).
Proof.
  intros Hm Hk w out w' H. unfold bind in H.
  destruct (m w) as [[[a|e] w1]|] eqn:E; [| |discriminate H].
  - rewrite (Hk a _ _ _ H). exact (Hm _ _ _ E).
  - injection H as <- <-. exact (Hm _ _ _ E).
Qed.

Lemma unchanged_fetch {A : Type} (net : Network) (r : Request)
    (server : nat -> Fetched A) :
  unchanged part (fetch net r server).
Proof.
  intros w out w' H. unfold fetch in H.
  destruct (server _); injection H as <- <-; apply part_after.
Qed.

Lemma unchanged_response_json {A : Type} (net : Network)
    (response : Response A) :
  unchanged part (response_json net response).
Proof.
  unfold response_json. destruct (json response);
    [apply unchanged_ret | apply unchanged_throw].
Qed.

Lemma unchanged_Date_now : unchanged part Date_now.
Proof. intros w out w' H. injection H as <- <-. reflexivity. Qed.

Lemma unchanged_setTimeout (net : Network) (ms : Z) :
  unchanged part (setTimeout net ms).
Proof. intros w out w' H. injection H as <- <-. apply part_after. Qed.

Lemma unchanged_open (net : Network) (url : string) :
  unchanged part (open net url).
Proof.
  intros w out w' H. unfold open in H.
  destruct (open_fails net); injection H as <- <-; apply part_note.
Qed.

Lemma unchanged_call_shouldStop (shouldStop : option (World -> bool)) :
  unchanged part (call_shouldStop shouldStop).
Proof.
  destruct shouldStop; intros w out w' H; injection H as <- <-;
    [apply part_note | reflexivity].
Qed.

Lemma unchanged_call_onPoll (onPoll : bool) :
  unchanged part (call_onPoll onPoll).
Proof.
  destruct onPoll; intros w out w' H; injection H as <- <-;
    [apply part_note | reflexivity].
Qed.

Lemma unchanged_discoverAuthEndpoints (net : Network) :
  unchanged part (discoverAuthEndpoints net).
Proof.
  unfold discoverAuthEndpoints.
  apply unchanged_bind; [apply unchanged_fetch | intros response].
  destruct (negb (ok response));
    [apply unchanged_throw | apply unchanged_response_json].
Qed.

Lemma unchanged_startDeviceAuthorization (net : Network) :
  unchanged part (startDeviceAuthorization net).
Proof.
  unfold startDeviceAuthorization.
  apply unchanged_bind; [apply unchanged_discoverAuthEndpoints | intros config].
  apply unchanged_bind; [apply unchanged_fetch | intros response].
  destruct (negb (ok response));
    [apply unchanged_throw | apply unchanged_response_json].
Qed.

Lemma unchanged_poll_loop (net : Network) (auth : DeviceAuthResponse)
    (onPoll : bool) (shouldStop : option (World -> bool)) (url : string)
    (expiresAt : Z) (fuel : nat) :
  unchanged part (poll_loop fuel net auth onPoll shouldStop url expiresAt).
Proof.
  induction fuel as [|fuel IH]; [intros w out w' H; discriminate H|].
  cbn [poll_loop].
  apply unchanged_bind; [apply unchanged_Date_now | intros t].
  destruct (t <? expiresAt); [|apply unchanged_ret].
  apply unchanged_bind; [apply unchanged_call_shouldStop | intros stop].
  destruct stop; [apply unchanged_ret|].
  apply unchanged_bind; [apply unchanged_call_onPoll | intros _].
  apply unchanged_bind; [apply unchanged_fetch | intros response].
  destruct (ok response); [apply unchanged_response_json|].
  destruct (body_is_null response); [apply unchanged_throw|].
  cbn zeta. destruct (_ || _).
  - apply unchanged_bind; [apply unchanged_setTimeout | intros _; exact IH].
  - destruct (error_is _ "expired_token"); [apply unchanged_throw|].
    destruct (error_is _ "access_denied"); apply unchanged_throw.
Qed.

Lemma unchanged_pollForDeviceToken (fuel : nat) (net : Network)
    (auth : DeviceAuthResponse) (onPoll : bool)
    (shouldStop : option (World -> bool)) :
  unchanged part (pollForDeviceToken fuel net auth onPoll shouldStop).
Proof.
  unfold pollForDeviceToken.
  apply unchanged_bind;
    [apply unchanged_discoverAuthEndpoints | intros endpoints].
  apply unchanged_bind; [apply unchanged_Date_now | intros t].
  apply unchanged_poll_loop.
Qed.

Lemma unchanged_exchangeForDashboardToken (net : Network)
    (oidcToken : string) :
  unchanged part (exchangeForDashboardToken net oidcToken).
Proof.
  unfold exchangeForDashboardToken.
  apply unchanged_bind; [apply unchanged_fetch | intros response].
  destruct (negb (ok response)); [apply unchanged_throw|].
  apply unchanged_bind; [apply unchanged_response_json | intros data].
  apply unchanged_bind; [apply unchanged_Date_now | intros t].
  apply unchanged_ret.
Qed.

End Unchanged.

Lemma screen_and_storage_after (ev : Event) (took : Z) (w : World) :
  screen_and_storage (after ev took w) = screen_and_storage w.
Proof. reflexivity. Qed.

Lemma screen_and_storage_note (ev : Event) (w : World) :
  screen_and_storage (note ev w) = screen_and_storage w.
Proof. reflexivity. Qed.

Lemma bind_returns {A B : Type} (m : M A) (k : A -> M B) (w : World)
    (b : B) (w' : World) :
  bind m k w = Some (Return b, w') ->
  exists a w1, m w = Some (Return a, w1) /\ k a w1 = Some (Return b, w').
Proof.
  unfold bind. destruct (m w) as [[[a|e] w1]|]; [eauto | discriminate..].
Qed.

Lemma bind_throws {A B : Type} (m : M A) (k : A -> M B) (w : World)
    (e : string) (w' : World) :
  bind m k w = Some (Throw e, w') ->
  m w = Some (Throw e, w')
  \/ exists a w1, m w = Some (Return a, w1) /\ k a w1 = Some (Throw e, w').
Proof.
  unfold bind. destruct (m w) as [[[a|e1] w1]|]; intros H;
    [right; eauto | left; injection H as <- <-; reflexivity | discriminate H].
Qed.

Lemma shown_of_unchanged {A : Type} (m : M A) :
  unchanged screen_and_storage m -> keeps_toast_shown m.
Proof.
  intros Hm w out w' Hshown Hrun.
  pose proof (Hm _ _ _ Hrun) as Heq. unfold screen_and_storage in Heq.
  injection Heq as Ht _. rewrite Ht. exact Hshown.
Qed.

Lemma shown_bind {A B : Type} (m : M A) (k : A -> M B) :
  keeps_toast_shown m -> (forall a, keeps_toast_shown (k a)) ->
  keeps_toast_shown (bind m k).
Proof.
  intros Hm Hk w out w' Hshown H. unfold bind in H.
  destruct (m w) as [[[a|e] w1]|] eqn:E; [| |discriminate H].
  - exact (Hk a _ _ _ (Hm _ _ _ Hshown E) H).
  - injection H as <- <-. exact (Hm _ _ _ Hshown E).
Qed.

Lemma shown_update_toast (f : Toast -> Toast) :
  keeps_toast_shown (update_toast f).
Proof.
  intros w out w' [t Ht] H. injection H as <- <-. cbn. rewrite Ht.
  eexists. reflexivity.
Qed.

Lemma shown_update_storage (f : Storage -> Storage) :
  keeps_toast_shown (update_storage f).
Proof. intros w out w' Hshown H. injection H as <- <-. exact Hshown. Qed.

Lemma shown_ret {A : Type} (a : A) : keeps_toast_shown (ret a).
Proof. intros w out w' Hshown H. injection H as <- <-. exact Hshown. Qed.

Lemma shown_throw {A : Type} (e : string) : keeps_toast_shown (@throw A e).
Proof. intros w out w' Hshown H. injection H as <- <-. exact Hshown. Qed.

(** The [try] block of [authenticate]. *)
Lemma authenticate_body_shown (fuel : nat) (net : Network) :
  keeps_toast_shown
    (do deviceAuth <- startDeviceAuthorization net ;;
     do _ <- update_toast (fun _ =>
               {| style := Animated;
                  title := "Waiting for authentication";
                  message := Some ("Code: " +:+ user_code deviceAuth) |}) ;;
     do _ <- open net (verification_uri_complete deviceAuth) ;;
     do tokens <- pollForDeviceToken fuel net deviceAuth false None ;;
     match tokens with
     | None => throw "Authentication expired or cancelled"
     | Some tokens =>
         do _ <- update_toast (fun t =>
                   {| style := style t;
                      title := "Completing authentication...";
                      message := None |}) ;;
         do session <- exchangeForDashboardToken net (access_token tokens) ;;
         do _ <- update_storage (saveSession session) ;;
         do _ <- update_toast (fun t =>
                   {| style := Success;
                      title := "Authenticated successfully";
                      message := message t |}) ;;
         ret session
     end).
Proof.
  apply shown_bind; [apply shown_of_unchanged,
                       unchanged_startDeviceAuthorization; reflexivity|].
  intros deviceAuth. apply shown_bind; [apply shown_update_toast | intros _].
  apply shown_bind; [apply shown_of_unchanged, unchanged_open; reflexivity|].
  intros _.
  apply shown_bind; [apply shown_of_unchanged,
                       unchanged_pollForDeviceToken; reflexivity|].
  intros [tokens|]; [|apply shown_throw].
  apply shown_bind; [apply shown_update_toast | intros _].
  apply shown_bind; [apply shown_of_unchanged,
                       unchanged_exchangeForDashboardToken; reflexivity|].
  intros session.
  apply shown_bind; [apply shown_update_storage | intros _].
  apply shown_bind; [apply shown_update_toast | intros _].
  apply shown_ret.
Qed.

(** X12: whenever [authenticate] fails, the toast it leaves on screen has
    the failure style, the title "Authentication failed" and, as its
    message, the message of the error that is thrown. *)
Theorem authenticate_failure_toast (fuel : nat) (net : Network) (w : World)
    (e : string) (w' : World) :
  authenticate fuel net w = Some (Throw e, w') ->
  toast w' = Some {| style := Failure; title := "Authentication failed";
                     message := Some e |}.
Proof.
  intros Hrun. unfold authenticate, bind at 1, set_toast in Hrun.
  unfold try_catch in Hrun.
  match type of Hrun with
  | match ?body ?w0 with _ => _ end = _ =>
      destruct (body w0) as [[[session|e1] w1]|] eqn:Ebody;
        [discriminate Hrun | | discriminate Hrun];
      assert (Hshown : is_Some (toast w1))
        by (refine (authenticate_body_shown fuel net w0 _ w1 _ Ebody);
            eexists; reflexivity)
  end.
  destruct Hshown as [t Ht].
  unfold bind, update_toast, throw in Hrun. injection Hrun as <- <-.
  cbn. rewrite Ht. reflexivity.
Qed.

Lemma authenticate_failure_toast_witness :
  let net := mock [reply_error "authorization_pending"]
               (reply_error "access_denied") (Rejected "offline") 100 in
  exists w',
    authenticate 5 net (initial 0 ∅)
    = Some (Throw "Authentication was denied.", w')
    /\ toast w' = Some {| style := Failure; title := "Authentication failed";
                          message := Some "Authentication was denied." |}.
Proof.
  intros net.
  assert (H : exists w', authenticate 5 net (initial 0 ∅)
                         = Some (Throw "Authentication was denied.", w'))
    by (eexists; vm_compute; reflexivity).
  destruct H as [w' H]. exists w'. split; [exact H|].
  exact (authenticate_failure_toast 5 net (initial 0 ∅) _ w' H).
Defined.

(** X13: whenever [authenticate] returns a session, the storage it leaves is
    the storage it found with exactly that session saved (by [saveSession]),
    and the toast on screen has the success style, the title "Authenticated
    successfully" and no message. *)
Theorem authenticate_success_persists (fuel : nat) (net : Network)
    (w : World) (session : ConvexSession) (w' : World) :
  authenticate fuel net w = Some (Return session, w') ->
  storage w' = saveSession session (storage w)
  /\ toast w' = Some {| style := Success;
                        title := "Authenticated successfully";
                        message := None |}.
Proof.
  intros Hrun. unfold authenticate, bind at 1, set_toast in Hrun.
  unfold try_catch in Hrun.
  match type of Hrun with
  | match ?body ?w0 with _ => _ end = _ =>
      destruct (body w0) as [[[session1|e1] w1]|] eqn:Ebody;
        [ | unfold bind, update_toast, throw in Hrun; discriminate Hrun
          | discriminate Hrun];
      set (start := w0) in *
  end.
  injection Hrun as -> ->.
  apply bind_returns in Ebody as (deviceAuth & w1 & Hstart & Ebody).
  pose proof (unchanged_startDeviceAuthorization screen_and_storage
                screen_and_storage_after net _ _ _ Hstart) as F1.
  apply bind_returns in Ebody as ([] & w2 & Hwait & Ebody).
  injection Hwait as <-.
  apply bind_returns in Ebody as ([] & w3 & Hopen & Ebody).
  pose proof (unchanged_open screen_and_storage screen_and_storage_note
                net _ _ _ _ Hopen) as F3.
  apply bind_returns in Ebody as (tokens & w4 & Hpoll & Ebody).
  pose proof (unchanged_pollForDeviceToken screen_and_storage
                screen_and_storage_after screen_and_storage_note
                fuel net deviceAuth false None _ _ _ Hpoll) as F4.
  destruct tokens as [tokens|]; [|discriminate Ebody].
  apply bind_returns in Ebody as ([] & w5 & Hcompleting & Ebody).
  injection Hcompleting as <-.
  apply bind_returns in Ebody as (session1 & w6 & Hexchange & Ebody).
  pose proof (unchanged_exchangeForDashboardToken screen_and_storage
                screen_and_storage_after net _ _ _ _ Hexchange) as F6.
  unfold bind, update_storage, update_toast, ret in Ebody.
  injection Ebody as <- <-.
  unfold screen_and_storage in *. cbn in *.
  injection F1 as T1 S1. injection F3 as T3 S3. injection F4 as T4 S4.
  injection F6 as T6 S6.
  rewrite S6, S4, S3, S1. split; [reflexivity|].
  rewrite T6, T4, T3, T1. reflexivity.
Qed.

Lemma authenticate_success_persists_witness :
  let data := {| data_accessToken := "dashboard-token";
                 data_tokenType := None; data_expiresAt := None;
                 data_refreshToken := Some "refresh-1" |} in
  let net := mock [] (reply_token sample_tokens)
               (Responded {| ok := true; status := 200; text := None;
                             json := Some data |}) 100 in
  let st : Storage := <[SELECTED_TEAM_ID := "7"]> ∅ in
  exists session w',
    authenticate 5 net (initial 0 st) = Some (Return session, w')
    /\ storage w' = saveSession session st
    /\ toast w' = Some {| style := Success;
                          title := "Authenticated successfully";
                          message := None |}.
Proof.
  intros data net st.
  assert (H : exists session w',
             authenticate 5 net (initial 0 st) = Some (Return session, w'))
    by (eexists _, _; vm_compute; reflexivity).
  destruct H as (session & w' & H). exists session, w'.
  split; [exact H|].
  exact (authenticate_success_persists 5 net (initial 0 st) session w' H).
Defined.

(* ===================================================================== *)
(** ** Strings *)
(* ===================================================================== *)

Lemma string_app_cons (x : ascii) (a b : string) :
  String x a +:+ b = String x (a +:+ b).
Proof. reflexivity. Qed.

Lemma string_app_nil_l (b : string) : "" +:+ b = b.
Proof. reflexivity. Qed.

Ltac string_norm :=
  rewrite ?string_app_cons, ?string_app_nil_l.

Lemma string_app_length (a b : string) :
  String.length (a +:+ b) = (String.length a + String.length b)%nat.
Proof.
  induction a as [|c a IH]; string_norm; [reflexivity|].
  cbn [String.length Nat.add]. rewrite IH. reflexivity.
Qed.

Lemma string_app_assoc (a b c : string) : (a +:+ b) +:+ c = a +:+ (b +:+ c).
Proof.
  induction a as [|x a IH]; string_norm; [reflexivity|].
  rewrite IH. reflexivity.
Qed.

Lemma string_app_nil_r (a : string) : a +:+ "" = a.
Proof.
  induction a as [|x a IH]; string_norm; [reflexivity|].
  rewrite IH. reflexivity.
Qed.

Lemma string_take_drop (n : nat) (s : string) :
  string_take n s +:+ string_drop n s = s.
Proof.
  revert s. induction n as [|n IH]; intros [|a s];
    cbn [string_take string_drop]; string_norm; try reflexivity.
  rewrite IH. reflexivity.
Qed.

Lemma string_take_length (n : nat) (s : string) :
  String.length (string_take n s) = Nat.min n (String.length s).
Proof.
  revert s. induction n as [|n IH]; intros [|a s];
    cbn [string_take String.length Nat.min]; try reflexivity.
  rewrite IH. reflexivity.
Qed.

Lemma string_drop_length (n : nat) (s : string) :
  String.length (string_drop n s) = (String.length s - n)%nat.
Proof.
  revert s. induction n as [|n IH]; intros [|a s];
    cbn [string_drop String.length Nat.sub]; try reflexivity.
  apply IH.
Qed.

Lemma string_take_all (n : nat) (s : string) :
  (String.length s <= n)%nat -> string_take n s = s.
Proof.
  revert s. induction n as [|n IH]; intros [|a s] H;
    cbn [string_take String.length] in *; try reflexivity; [lia|].
  rewrite IH by lia. reflexivity.
Qed.

Lemma string_take_app (a b : string) :
  string_take (String.length a) (a +:+ b) = a.
Proof.
  induction a as [|x a IH]; string_norm; cbn [String.length string_take];
    [destruct b; reflexivity | rewrite IH; reflexivity].
Qed.

Lemma string_drop_app (a b : string) :
  string_drop (String.length a) (a +:+ b) = b.
Proof.
  induction a as [|x a IH]; string_norm; cbn [String.length string_drop];
    [reflexivity | exact IH].
Qed.

(** [s.substring(0, n)] keeps the first [n] characters. *)
Lemma substring_prefix (s : string) (n : Z) :
  substring s 0 n = string_take (Z.to_nat n) s.
Proof.
  unfold substring, string_length.
  set (len := Z.of_nat (String.length s)).
  assert (Hlen : 0 <= len) by (unfold len; lia).
  replace (Z.max 0 (Z.min 0 len)) with 0 by lia.
  replace (Z.min 0 (Z.max 0 (Z.min n len))) with 0 by lia.
  replace (Z.max 0 (Z.max 0 (Z.min n len))) with (Z.max 0 (Z.min n len)) by lia.
  change (Z.to_nat 0) with O. cbn [string_drop]. rewrite Z.sub_0_r.
  destruct (Z.le_gt_cases n len) as [Hle|Hgt].
  - destruct (Z.le_gt_cases 0 n).
    + replace (Z.max 0 (Z.min n len)) with n by lia. reflexivity.
    + replace (Z.max 0 (Z.min n len)) with 0 by lia.
      replace (Z.to_nat n) with O by lia. reflexivity.
  - replace (Z.max 0 (Z.min n len)) with len by lia.
    assert (H1 : (String.length s <= Z.to_nat len)%nat) by (subst len; lia).
    assert (H2 : (String.length s <= Z.to_nat n)%nat) by (subst len; lia).
    rewrite (string_take_all _ _ H1), (string_take_all _ _ H2). reflexivity.
Qed.

(** [s.substring(k)] drops the first [k] characters. *)
Lemma substring_from_drop (s : string) (k : nat) :
  (k <= String.length s)%nat ->
  substring_from s (Z.of_nat k) = string_drop k s.
Proof.
  intros Hk. unfold substring_from, substring, string_length.
  set (len := Z.of_nat (String.length s)).
  replace (Z.max 0 (Z.min (Z.of_nat k) len)) with (Z.of_nat k)
    by (unfold len; lia).
  replace (Z.max 0 (Z.min len len)) with len by (unfold len; lia).
  replace (Z.min (Z.of_nat k) len) with (Z.of_nat k) by (unfold len; lia).
  replace (Z.max (Z.of_nat k) len) with len by (unfold len; lia).
  rewrite Nat2Z.id. apply string_take_all.
  rewrite string_drop_length. unfold len. lia.
Qed.

Lemma prefix_nil (s : string) : String.prefix "" s = true.
Proof. destruct s; reflexivity. Qed.

Lemma prefix_cons (c a : ascii) (s : string) :
  String.prefix (String c "") (String a s) = true <-> a = c.
Proof.
  cbn [String.prefix]. destruct (Ascii.ascii_dec c a) as [->|Hne].
  - rewrite prefix_nil. tauto.
  - split; [discriminate | congruence].
Qed.

(** Where [last_index] finds a one-character string, the string splits
    there, and the character does not occur after it. *)
Lemma last_index_found (c : ascii) (s : string) (i : nat) :
  last_index s (String c "") = Some i ->
  (i < String.length s)%nat
  /\ s = string_take i s +:+ String c (string_drop (S i) s)
  /\ last_index (string_drop (S i) s) (String c "") = None.
Proof.
  revert i. induction s as [|a s IH]; intros i H; [discriminate H|].
  cbn [last_index] in H.
  destruct (last_index s (String c "")) as [j|] eqn:Ej.
  - injection H as <-. destruct (IH j eq_refl) as (Hlt & Hsplit & Hnone).
    cbn [String.length string_take string_drop].
    split; [lia|]. split; [|exact Hnone].
    rewrite string_app_cons. f_equal. exact Hsplit.
  - destruct (String.prefix (String c "") (String a s)) eqn:Ep;
      [|discriminate H].
    injection H as <-. apply prefix_cons in Ep as ->.
    cbn [String.length string_take string_drop]. string_norm.
    split; [lia|]. split; [reflexivity|].
    destruct s; exact Ej.
Qed.

Lemma last_index_none (c : ascii) (s : string) :
  last_index s (String c "") = None <->
  ~ ViewLogs.substring_of (String c "") s.
Proof.
  split.
  - induction s as [|a s IH]; intros H (before & after & Hs).
    + destruct before; discriminate Hs.
    + cbn [last_index] in H.
      destruct (last_index s (String c "")) as [j|] eqn:Ej; [discriminate H|].
      destruct (String.prefix (String c "") (String a s)) eqn:Ep;
        [discriminate H|].
      destruct before as [|b before];
        rewrite ?string_app_cons, ?string_app_nil_l in Hs;
        injection Hs as Ha Hs.
      * assert (String.prefix (String c "") (String a s) = true)
          by (apply prefix_cons; exact Ha).
        congruence.
      * apply (IH eq_refl). exists before, after. exact Hs.
  - intros Hno. destruct (last_index s (String c "")) as [i|] eqn:Ei;
      [|reflexivity].
    exfalso. apply Hno.
    destruct (last_index_found c s i Ei) as (_ & Hsplit & _).
    exists (string_take i s), (string_drop (S i) s). exact Hsplit.
Qed.

Lemma last_index_app (c : ascii) (before after : string) :
  last_index after (String c "") = None ->
  last_index (before +:+ String c after) (String c "")
  = Some (String.length before).
Proof.
  intros Hnone. induction before as [|a before IH]; string_norm;
    cbn [last_index String.length].
  - rewrite Hnone.
    assert (String.prefix (String c "") (String c after) = true) as ->
      by (apply prefix_cons; reflexivity).
    reflexivity.
  - rewrite IH. reflexivity.
Qed.

(* ===================================================================== *)
(** ** The helpers of the log view and of the function list *)
(* ===================================================================== *)

Module LogViewFacts.
Import ViewLogs LogView.

Lemma getFunctionName_found (s : string) (i : nat) :
  last_index s ":" = Some i -> getFunctionName s = string_drop (S i) s.
Proof.
  intros Hi. unfold getFunctionName, lastIndexOf. rewrite Hi.
  destruct (last_index_found _ _ _ Hi) as (Hlt & _).
  destruct (Z.gtb_spec (Z.of_nat i) (-1)) as [_|Hle]; [|lia].
  replace (Z.of_nat i + 1) with (Z.of_nat (S i)) by lia.
  apply substring_from_drop. lia.
Qed.

Lemma getFunctionName_none (s : string) :
  last_index s ":" = None -> getFunctionName s = s.
Proof.
  intros Hs. unfold getFunctionName, lastIndexOf. rewrite Hs. reflexivity.
Qed.

Lemma getFunctionName_facts (path : string) :
  ~ substring_of ":" (getFunctionName path)
  /\ exists before, path = before +:+ getFunctionName path.
Proof.
  destruct (last_index path ":") as [i|] eqn:Ei.
  - rewrite (getFunctionName_found _ _ Ei). split.
    + apply last_index_none. apply (last_index_found _ _ _ Ei).
    + exists (string_take (S i) path). symmetry. apply string_take_drop.
  - rewrite (getFunctionName_none _ Ei). split.
    + apply last_index_none. exact Ei.
    + exists "". reflexivity.
Qed.

(** X14: [getFunctionName] returns the part of the path after its last
    colon: the result contains no colon, it is a suffix of the path, a path
    without a colon is returned as it is, and [module:name] gives [name]
    whenever [name] has no colon. *)
Theorem getFunctionName_spec (path : string) :
  ~ substring_of ":" (getFunctionName path)
  /\ (exists before, path = before +:+ getFunctionName path)
  /\ (~ substring_of ":" path -> getFunctionName path = path)
  /\ (forall name, ~ substring_of ":" name ->
        getFunctionName (path +:+ ":" +:+ name) = name).
Proof.
  destruct (getFunctionName_facts path) as [Hcolon Hsuffix].
  split; [exact Hcolon|]. split; [exact Hsuffix|]. split.
  - intros Hno. apply getFunctionName_none, last_index_none, Hno.
  - intros name Hname. apply last_index_none in Hname.
    change (":" +:+ name) with (String ":" name).
    rewrite (getFunctionName_found _ _ (last_index_app _ path name Hname)).
    change (String ":" name) with (":" +:+ name).
    rewrite <- string_app_assoc.
    replace (S (String.length path)) with (String.length (path +:+ ":"))
      by (rewrite string_app_length; cbn [String.length]; lia).
    apply string_drop_app.
Qed.

Example getFunctionName_examples :
  getFunctionName "messages:list" = "list"
  /\ getFunctionName "a/b:c:d" = "d"
  /\ getFunctionName "plain" = "plain"
  /\ getFunctionName "trailing:" = "".
Proof. repeat split; reflexivity. Qed.

(** X15: [truncateError] returns an error that fits unchanged, never
    returns more than [maxLength] characters plus the 37 of its notice, and
    always keeps the first [maxLength] characters of the error at the front
    of what it returns. *)
Theorem truncateError_spec (error : string) (maxLength : Z) :
  (string_length error <= maxLength -> truncateError error maxLength = error)
  /\ string_length (truncateError error maxLength) <= Z.max 0 maxLength + 37
  /\ string_take (Z.to_nat maxLength) (truncateError error maxLength)
     = string_take (Z.to_nat maxLength) error.
Proof.
  unfold truncateError, string_length.
  destruct (Z.leb_spec (Z.of_nat (String.length error)) maxLength) as [Hfit|Hlong].
  - split; [reflexivity|]. split; [lia | reflexivity].
  - rewrite substring_prefix. split; [lia|].
    assert (Hlen : String.length (string_take (Z.to_nat maxLength) error)
                   = Z.to_nat maxLength)
      by (rewrite string_take_length; lia).
    split.
    + rewrite string_app_length, Hlen.
      change (String.length truncation_notice) with 37%nat. lia.
    + rewrite <- Hlen at 1. apply string_take_app.
Qed.

(** X16: the colours and icons agree between the views: a failed log has
    the red cross whatever its function type; a log that did not fail has
    the tint of its function type's badge; and the function list of the run
    command gives every type other than ["http"] the colour and the icon
    the log view gives it. *)
Theorem colour_coding_consistent :
  (forall log, status log = "failure" -> getLogIcon log = (XMarkCircle, Red))
  /\ (forall log, status log <> "failure" ->
        snd (getLogIcon log) = getFunctionTypeColor (functionType log))
  /\ (forall type, type <> "http" ->
        RunFunction.getFunctionColor type = getFunctionTypeColor type)
  /\ (forall log, status log <> "failure" -> functionType log <> "http" ->
        fst (getLogIcon log) = RunFunction.getFunctionIcon (functionType log)).
Proof.
  split; [|split; [|split]].
  - intros log Hs. unfold getLogIcon. rewrite Hs. reflexivity.
  - intros log Hs. unfold getLogIcon, getFunctionTypeColor.
    destruct (String.eqb_spec (status log) "failure"); [contradiction|].
    repeat match goal with
           | |- context [String.eqb ?a ?b] => destruct (String.eqb a b)
           end; reflexivity.
  - intros type Ht. unfold RunFunction.getFunctionColor, getFunctionTypeColor.
    destruct (String.eqb_spec type "http"); [contradiction|].
    repeat match goal with
           | |- context [String.eqb ?a ?b] => destruct (String.eqb a b)
           end; reflexivity.
  - intros log Hs Ht. unfold getLogIcon, RunFunction.getFunctionIcon.
    destruct (String.eqb_spec (status log) "failure"); [contradiction|].
    destruct (String.eqb_spec (functionType log) "http"); [contradiction|].
    repeat match goal with
           | |- context [String.eqb ?a ?b] => destruct (String.eqb a b)
           end; reflexivity.
Qed.

End LogViewFacts.

Module SearchFacts.
Import ViewLogs.

Lemma toLowerCase_ascii_app (a b : string) :
  toLowerCase_ascii (a +:+ b) = toLowerCase_ascii a +:+ toLowerCase_ascii b.
Proof.
  induction a as [|x a IH]; rewrite ?string_app_cons, ?string_app_nil_l;
    cbn [toLowerCase_ascii]; rewrite ?string_app_cons, ?string_app_nil_l;
    [reflexivity | rewrite IH; reflexivity].
Qed.

Lemma is_ascii_app (a b : string) :
  is_ascii (a +:+ b) = is_ascii a && is_ascii b.
Proof.
  induction a as [|x a IH]; rewrite ?string_app_cons, ?string_app_nil_l;
    cbn [is_ascii]; [reflexivity|].
  rewrite IH, andb_assoc. reflexivity.
Qed.

Lemma substring_of_trans (a b c : string) :
  substring_of a b -> substring_of b c -> substring_of a c.
Proof.
  intros (p1 & q1 & ->) (p2 & q2 & ->).
  exists (p2 +:+ p1), (q1 +:+ q2).
  rewrite !string_app_assoc. reflexivity.
Qed.

Lemma includes_nil (s : string) : includes s "" = true.
Proof. destruct s; reflexivity. Qed.

Section Folding.

Variable toLowerCase : string -> string.
Hypothesis toLowerCase_folds : folds_ascii toLowerCase.

Lemma toLowerCase_nil : toLowerCase "" = "".
Proof. apply toLowerCase_folds. reflexivity. Qed.

(** On ASCII text, lowercasing goes into the parts of a string. *)
Lemma toLowerCase_parts (before s after : string) :
  is_ascii (before +:+ s +:+ after) = true ->
  is_ascii s = true
  /\ toLowerCase (before +:+ s +:+ after)
     = toLowerCase_ascii before +:+ toLowerCase s +:+ toLowerCase_ascii after.
Proof.
  intros Hascii. pose proof Hascii as Hparts.
  rewrite !is_ascii_app, !andb_true_iff in Hparts.
  destruct Hparts as (_ & Hs & _). split; [exact Hs|].
  rewrite (toLowerCase_folds _ Hascii), (toLowerCase_folds _ Hs).
  rewrite !toLowerCase_ascii_app. reflexivity.
Qed.

Lemma substring_of_lower (a b : string) :
  is_ascii b = true ->
  substring_of a b -> substring_of (toLowerCase a) (toLowerCase b).
Proof.
  intros Hascii (p & q & ->).
  destruct (toLowerCase_parts p a q Hascii) as [_ ->].
  exists (toLowerCase_ascii p), (toLowerCase_ascii q). reflexivity.
Qed.

Lemma entry_matches_narrow (search search' : string) (log : LogEntry) :
  is_ascii search' = true ->
  substring_of search search' ->
  entry_matches toLowerCase search' log -> entry_matches toLowerCase search log.
Proof.
  intros Hascii Hsub (field & Hin & Hm). exists field. split; [exact Hin|].
  exact (substring_of_trans _ _ _ (substring_of_lower _ _ Hascii Hsub) Hm).
Qed.

(** A search text that lowercases to the empty string keeps every entry,
    as the empty search text does. *)
Lemma matches_search_blank (search : string) (log : LogEntry) :
  toLowerCase search = "" -> matches_search toLowerCase search log = true.
Proof.
  intros Hblank. unfold matches_search. rewrite Hblank, includes_nil.
  destruct (negb (truthy_string search)); reflexivity.
Qed.

End Folding.

Lemma filter_filter_implied {A : Type} (p q : A -> bool) (l : list A) :
  (forall x, p x = true -> q x = true) ->
  List.filter p (List.filter q l) = List.filter p l.
Proof.
  intros Himp. induction l as [|x l IH]; [reflexivity|].
  cbn [List.filter]. destruct (q x) eqn:Eq.
  - cbn [List.filter]. rewrite IH. reflexivity.
  - destruct (p x) eqn:Ep; [|exact IH].
    rewrite (Himp x Ep) in Eq. discriminate Eq.
Qed.

Lemma filter_same {A : Type} (p q : A -> bool) (l : list A) :
  (forall x, p x = q x) -> List.filter p l = List.filter q l.
Proof.
  intros H. induction l as [|x l IH]; [reflexivity|].
  cbn [List.filter]. rewrite H, IH. reflexivity.
Qed.

(** X17: with a search text in ASCII, typing more into the search field
    of the log view only narrows the list, and can be done on the list
    already filtered: when the earlier search text occurs in the later one,
    filtering the buffer by the later text gives the same list as filtering
    the earlier result by it, whatever the entries hold; and two search
    texts with the same lowercase form give the same list.  Of
    [toLowerCase] this assumes only that it folds A-Z on ASCII text. *)
Theorem filteredLogs_narrowing (toLowerCase : string -> string)
    (logs : list LogEntry) (search search' : string) :
  folds_ascii toLowerCase ->
  (is_ascii search' = true -> substring_of search search' ->
   filteredLogs toLowerCase logs search'
   = filteredLogs toLowerCase (filteredLogs toLowerCase logs search) search')
  /\ (toLowerCase search = toLowerCase search' ->
      filteredLogs toLowerCase logs search
      = filteredLogs toLowerCase logs search').
Proof.
  intros Hfolds. pose proof (toLowerCase_nil toLowerCase Hfolds) as Hnil.
  split.
  - intros Hascii Hsub. unfold filteredLogs. symmetry.
    apply filter_filter_implied. intros log Hm.
    apply ViewLogsFacts.matches_search_entry_matches; [exact Hnil|].
    apply ViewLogsFacts.matches_search_entry_matches in Hm; [|exact Hnil].
    exact (entry_matches_narrow toLowerCase Hfolds _ _ _ Hascii Hsub Hm).
  - intros Hcase. unfold filteredLogs. apply filter_same. intros log.
    destruct search as [|a s], search' as [|a' s'].
    + reflexivity.
    + rewrite Hnil in Hcase. symmetry in Hcase.
      rewrite (matches_search_blank toLowerCase _ log Hcase). reflexivity.
    + rewrite Hnil in Hcase.
      rewrite (matches_search_blank toLowerCase _ log Hcase). reflexivity.
    + unfold matches_search. rewrite Hcase. reflexivity.
Qed.

Lemma filteredLogs_narrowing_witness :
  let entry path type st req :=
    {| id := req; functionPath := path; functionType := type; status := st;
       requestId := req; timestamp := 0; executionTimeMs := 1;
       cached := false; logLines := []; errorMessage := None |} in
  let logs := [entry "messages:list" "query" "success" "r1";
               entry "messages:send" "mutation" "failure" "r2";
               entry "users:list" "query" "success" "r3"] in
  filteredLogs toLowerCase_ascii logs "Messages:S"
  = filteredLogs toLowerCase_ascii (filteredLogs toLowerCase_ascii logs "Mess")
      "Messages:S".
Proof.
  intros entry logs.
  refine (proj1 (filteredLogs_narrowing toLowerCase_ascii logs "Mess"
                   "Messages:S" _) _ _).
  - intros s _. reflexivity.
  - reflexivity.
  - exists "", "ages:S". reflexivity.
Defined.

End SearchFacts.

Module RunFunctionFacts.
Import RunFunction.

(** X18: [formatArgsPreview] returns a validator string of at most 100
    characters unchanged, never returns more than 103 characters, and
    always keeps the first 100 characters of the string at the front of
    what it returns. *)
Theorem formatArgsPreview_spec (args : string) :
  (string_length args <= 100 -> formatArgsPreview args = args)
  /\ string_length (formatArgsPreview args) <= 103
  /\ string_take 100 (formatArgsPreview args) = string_take 100 args.
Proof.
  unfold formatArgsPreview, string_length.
  destruct (Z.gtb_spec (Z.of_nat (String.length args)) 100) as [Hlong|Hfit].
  - rewrite substring_prefix. change (Z.to_nat 100) with 100%nat.
    assert (Hlen : String.length (string_take 100 args) = 100%nat)
      by (rewrite string_take_length; lia).
    split; [lia|]. split.
    + rewrite string_app_length, Hlen. cbn [String.length]. lia.
    + rewrite <- Hlen at 1. apply string_take_app.
  - split; [reflexivity|]. split; [lia | reflexivity].
Qed.

Lemma in_allFunctions (modules : list ModuleSpec) (f : FunctionWithPath) :
  In f (allFunctions modules) <->
  exists module fn, In module modules /\ In fn (functions module)
                    /\ visibility fn = Some "public"
                    /\ f = with_path module fn.
Proof.
  unfold allFunctions. rewrite in_flat_map. split.
  - intros (module & Hm & Hf). apply in_map_iff in Hf as (fn & <- & Hfn).
    apply filter_In in Hfn as (Hfn & Hpub). exists module, fn.
    repeat split; try assumption.
    unfold is_public in Hpub. destruct (visibility fn) as [kind|];
      [|discriminate Hpub].
    apply String.eqb_eq in Hpub. subst kind. reflexivity.
  - intros (module & fn & Hm & Hfn & Hpub & ->). exists module.
    split; [exact Hm|]. apply in_map. apply filter_In.
    split; [exact Hfn|]. unfold is_public. rewrite Hpub. reflexivity.
Qed.

(** X19: the function list shows exactly the public functions of the
    modules, each under the path of its module, with its full identifier as
    [fullPath] and, as its name, the part of the identifier after the last
    colon (what [getFunctionName] of the log view computes), which has no
    colon. *)
Theorem allFunctions_spec (modules : list ModuleSpec) (f : FunctionWithPath) :
  (In f (allFunctions modules) <->
   exists module fn, In module modules /\ In fn (functions module)
                     /\ visibility fn = Some "public"
                     /\ f = with_path module fn)
  /\ (In f (allFunctions modules) ->
      identifier (spec f) = LogView.getFunctionName (fullPath f)
      /\ ~ ViewLogs.substring_of ":" (identifier (spec f))
      /\ visibility (spec f) = Some "public"
      /\ exists before, fullPath f = before +:+ identifier (spec f)).
Proof.
  split; [apply in_allFunctions|].
  intros Hin. apply in_allFunctions in Hin as (module & fn & _ & _ & Hpub & ->).
  cbn [with_path spec identifier fullPath visibility].
  change (if lastIndexOf (identifier fn) ":" >? -1
          then substring_from (identifier fn)
                 (lastIndexOf (identifier fn) ":" + 1)
          else identifier fn)
    with (LogView.getFunctionName (identifier fn)).
  destruct (LogViewFacts.getFunctionName_facts (identifier fn))
    as (Hcolon & Hsuffix).
  repeat split; assumption.
Qed.

Lemma includes_suffix (toLowerCase : string -> string)
    (before name search : string) :
  ViewLogs.folds_ascii toLowerCase ->
  ViewLogs.is_ascii (before +:+ name) = true ->
  ViewLogs.includes (toLowerCase name) search = true ->
  ViewLogs.includes (toLowerCase (before +:+ name)) search = true.
Proof.
  intros Hfolds Hascii. rewrite !ViewLogsFacts.includes_substring_of.
  intros (p & q & Hname).
  rewrite <- (string_app_nil_r name) in Hascii |- * at 1.
  destruct (SearchFacts.toLowerCase_parts toLowerCase Hfolds before name ""
              Hascii) as [_ ->].
  rewrite Hname. exists (ViewLogs.toLowerCase_ascii before +:+ p), q.
  cbn [ViewLogs.toLowerCase_ascii].
  rewrite string_app_nil_r, !string_app_assoc. reflexivity.
Qed.

(** X20: in the function list of functions whose identifiers are ASCII
    text, a public function is kept by the search exactly when the
    lowercased search text occurs in its lowercased full path or function
    type: the test on the name adds nothing, the name being the end of the
    full path; and the empty search text keeps every function.  Of
    [toLowerCase] this assumes only that it folds A-Z on ASCII text. *)
Theorem filteredFunctions_spec (toLowerCase : string -> string)
    (modules : list ModuleSpec) (searchText : string) :
  ViewLogs.folds_ascii toLowerCase ->
  (forall module fn, In module modules -> In fn (functions module) ->
     ViewLogs.is_ascii (identifier fn) = true) ->
  filteredFunctions toLowerCase (allFunctions modules) searchText
  = List.filter
      (fun fn =>
         ViewLogs.includes (toLowerCase (fullPath fn))
           (toLowerCase searchText)
         || ViewLogs.includes (toLowerCase (functionType (spec fn)))
              (toLowerCase searchText))
      (allFunctions modules)
  /\ filteredFunctions toLowerCase (allFunctions modules) ""
     = allFunctions modules.
Proof.
  intros Hfolds Hascii. split.
  - unfold filteredFunctions. apply filter_ext_in. intros f Hin.
    apply in_allFunctions in Hin as (module & fn & Hmodule & Hfn & _ & ->).
    specialize (Hascii module fn Hmodule Hfn).
    unfold matches_function.
    cbn [with_path spec identifier fullPath functionType].
    change (if lastIndexOf (identifier fn) ":" >? -1
            then substring_from (identifier fn)
                   (lastIndexOf (identifier fn) ":" + 1)
            else identifier fn)
      with (LogView.getFunctionName (identifier fn)).
    destruct (LogViewFacts.getFunctionName_facts (identifier fn))
      as (_ & before & Hsuffix).
    destruct (ViewLogs.includes
                (toLowerCase (LogView.getFunctionName (identifier fn)))
                (toLowerCase searchText)) eqn:Ename.
    + rewrite Hsuffix in Hascii.
      apply (includes_suffix toLowerCase before _ _ Hfolds Hascii) in Ename.
      rewrite <- Hsuffix in Ename. rewrite Ename. reflexivity.
    + rewrite orb_false_r. reflexivity.
  - unfold filteredFunctions.
    induction (allFunctions modules) as [|f l IH]; [reflexivity|].
    cbn [List.filter]. unfold matches_function at 1.
    rewrite (SearchFacts.toLowerCase_nil toLowerCase Hfolds),
      SearchFacts.includes_nil. cbn [orb].
    rewrite IH. reflexivity.
Qed.

Lemma filteredFunctions_spec_witness :
  let fn name type :=
    {| identifier := name; functionType := type;
       visibility := Some "public"; args := None |} in
  let modules :=
    [{| path := "messages.js";
        functions := [fn "messages.js:List" "Query";
                      fn "messages.js:send" "Mutation"] |}] in
  filteredFunctions ViewLogs.toLowerCase_ascii (allFunctions modules) ""
  = allFunctions modules.
Proof.
  intros fn modules.
  refine (proj2 (filteredFunctions_spec ViewLogs.toLowerCase_ascii modules ""
                   _ _)).
  - intros s _. reflexivity.
  - intros module f [<-|[]] [<-|[<-|[]]]; reflexivity.
Defined.

Lemma group_fold (fns : list FunctionWithPath) :
  forall groups0 : gmap string (list FunctionWithPath),
    (forall fn, In fn fns -> is_inherited (modulePath fn) = false) ->
    exists groups,
      fold_left group_step fns (Some groups0) = Some groups
      /\ forall module,
           groups !! module
           = match groups0 !! module, List.filter (in_module module) fns with
             | Some members, more => Some (members ++ more)%list
             | None, [] => None
             | None, more => Some more
             end.
Proof.
  induction fns as [|fn fns IH]; intros groups0 Hok.
  - exists groups0. split; [reflexivity|]. intros module. cbn [List.filter].
    destruct (groups0 !! module); [rewrite app_nil_r|]; reflexivity.
  - cbn [fold_left]. unfold group_step at 2.
    assert (Hfn : is_inherited (modulePath fn) = false)
      by (apply Hok; left; reflexivity).
    assert (Hrest : forall f, In f fns -> is_inherited (modulePath f) = false)
      by (intros f Hf; apply Hok; right; exact Hf).
    destruct (groups0 !! modulePath fn) as [members|] eqn:Eg.
    + destruct (IH (<[modulePath fn := (members ++ [fn])%list]> groups0) Hrest)
        as (groups & Hfold & Hgroups).
      exists groups. split; [exact Hfold|]. intros module.
      rewrite Hgroups. cbn [List.filter].
      destruct (String.eqb_spec (modulePath fn) module) as [<-|Hne].
      * assert (in_module (modulePath fn) fn = true) as ->
          by (unfold in_module; apply String.eqb_refl).
        rewrite lookup_insert_eq, Eg, <- app_assoc. reflexivity.
      * assert (in_module module fn = false) as ->
          by (unfold in_module; apply String.eqb_neq; exact Hne).
        rewrite lookup_insert_ne by exact Hne. reflexivity.
    + rewrite Hfn.
      destruct (IH (<[modulePath fn := [fn]]> groups0) Hrest)
        as (groups & Hfold & Hgroups).
      exists groups. split; [exact Hfold|]. intros module.
      rewrite Hgroups. cbn [List.filter].
      destruct (String.eqb_spec (modulePath fn) module) as [<-|Hne].
      * assert (in_module (modulePath fn) fn = true) as ->
          by (unfold in_module; apply String.eqb_refl).
        rewrite lookup_insert_eq, Eg. reflexivity.
      * assert (in_module module fn = false) as ->
          by (unfold in_module; apply String.eqb_neq; exact Hne).
        rewrite lookup_insert_ne by exact Hne. reflexivity.
Qed.

Lemma group_fold_thrown (fns : list FunctionWithPath) :
  fold_left group_step fns None = None.
Proof. induction fns as [|fn fns IH]; [reflexivity | exact IH]. Qed.

Lemma group_fold_inherited (fns : list FunctionWithPath) :
  forall groups0 : gmap string (list FunctionWithPath),
    (forall key, is_inherited key = true -> groups0 !! key = None) ->
    (exists fn, In fn fns /\ is_inherited (modulePath fn) = true) ->
    fold_left group_step fns (Some groups0) = None.
Proof.
  induction fns as [|fn fns IH]; intros groups0 Hclean (bad & Hin & Hbad);
    [destruct Hin|].
  cbn [fold_left]. unfold group_step at 2.
  destruct (is_inherited (modulePath fn)) eqn:Efn.
  - rewrite (Hclean _ Efn). apply group_fold_thrown.
  - destruct Hin as [->|Hin]; [congruence|].
    assert (Hkeep : forall members key,
              is_inherited key = true ->
              <[modulePath fn := members]> groups0 !! key = None).
    { intros members key Hkey. rewrite lookup_insert_ne by congruence.
      apply Hclean. exact Hkey. }
    destruct (groups0 !! modulePath fn) as [members|];
      apply IH; eauto.
Qed.

(** X21: grouping the listed functions by module is a partition: when no
    module path is a member name that objects inherit, every module that has
    a listed function gets the group of exactly its functions, in the order
    of the list, and no other key appears.  When a function sits in a
    module named like an inherited member (["constructor"], ["toString"],
    ...), the grouping throws. *)
Theorem groupedFunctions_partition (fns : list FunctionWithPath) :
  ((forall fn, In fn fns -> is_inherited (modulePath fn) = false) ->
   exists groups,
     groupedFunctions fns = Some groups
     /\ forall module,
          groups !! module
          = match List.filter (in_module module) fns with
            | [] => None
            | members => Some members
            end)
  /\ ((exists fn, In fn fns /\ is_inherited (modulePath fn) = true) ->
      groupedFunctions fns = None).
Proof.
  split.
  - intros Hok. destruct (group_fold fns ∅ Hok) as (groups & Hfold & Hgroups).
    exists groups. split; [exact Hfold|]. intros module.
    rewrite Hgroups, lookup_empty. reflexivity.
  - intros Hbad. apply group_fold_inherited; [|exact Hbad].
    intros key _. apply lookup_empty.
Qed.

Lemma groupedFunctions_partition_witness :
  let fn module name :=
    {| spec := {| identifier := name; functionType := "query";
                  visibility := Some "public"; args := None |};
       fullPath := module +:+ ":" +:+ name; modulePath := module |} in
  let fns := [fn "messages.js" "list"; fn "users.js" "get";
              fn "messages.js" "send"] in
  exists groups,
    groupedFunctions fns = Some groups
    /\ forall module,
         groups !! module
         = match List.filter (in_module module) fns with
           | [] => None
           | members => Some members
           end.
Proof.
  intros fn fns.
  apply (proj1 (groupedFunctions_partition fns)).
  intros f [<-|[<-|[<-|[]]]]; reflexivity.
Defined.

End RunFunctionFacts.

(* ===================================================================== *)
(** ** The helpers of the table browser *)
(* ===================================================================== *)

Module BrowseTablesFacts.
Import BrowseTables.

(** X22: [formatFieldValue] never returns the empty string; a string value
    is shown in quotation marks, with at most its first 50 characters (then
    an ellipsis), so in at most 55 characters. *)
Theorem formatFieldValue_spec :
  (forall v, formatFieldValue v <> "")
  /\ (forall s, exists body,
        formatFieldValue (VString s) = quote +:+ body +:+ quote
        /\ string_take 50 body = string_take 50 s
        /\ string_length (formatFieldValue (VString s)) <= 55).
Proof.
  split.
  - intros v Hempty.
    assert (Hlen : String.length (formatFieldValue v) = O)
      by (rewrite Hempty; reflexivity).
    destruct v as [| |[]|[z|]|s|items|fields];
      cbn [formatFieldValue number_toString] in Hlen;
      try discriminate Hlen;
      try (destruct (string_length s >? 50));
      try (rewrite !string_app_length in Hlen;
           cbn [quote String.length] in Hlen; lia).
    pose proof (toString_truthy z) as Ht.
    destruct (toString z); [discriminate Ht | discriminate Hlen].
  - intros s. cbn [formatFieldValue]. unfold string_length.
    destruct (Z.gtb_spec (Z.of_nat (String.length s)) 50) as [Hlong|Hfit].
    + exists (substring s 0 50 +:+ "...").
      rewrite substring_prefix. change (Z.to_nat 50) with 50%nat.
      assert (Hlen : String.length (string_take 50 s) = 50%nat)
        by (rewrite string_take_length; lia).
      split; [rewrite !string_app_assoc; reflexivity|]. split.
      * rewrite <- Hlen at 1. apply string_take_app.
      * rewrite !string_app_length, Hlen. cbn [quote String.length]. lia.
    + exists s. split; [reflexivity|]. split; [reflexivity|].
      rewrite !string_app_length. cbn [quote String.length]. lia.
Qed.

Lemma filter_all {A : Type} (p : A -> bool) (l : list A) :
  (forall x, In x l -> p x = true) -> List.filter p l = l.
Proof.
  induction l as [|x l IH]; intros H; [reflexivity|].
  cbn [List.filter]. rewrite (H x) by (left; reflexivity).
  rewrite IH by (intros y Hy; apply H; right; exact Hy). reflexivity.
Qed.

Lemma filter_none {A : Type} (p : A -> bool) (l : list A) :
  (forall x, In x l -> p x = false) -> List.filter p l = [].
Proof.
  induction l as [|x l IH]; intros H; [reflexivity|].
  cbn [List.filter]. rewrite (H x) by (left; reflexivity).
  apply IH. intros y Hy. apply H. right. exact Hy.
Qed.

Lemma in_firstn {A : Type} (n : nat) (l : list A) (x : A) :
  In x (firstn n l) -> In x l.
Proof.
  revert l. induction n as [|n IH]; intros [|y l] H; cbn in *; try tauto.
  destruct H as [->|H]; [left; reflexivity | right; apply IH; exact H].
Qed.

(** X23: the subtitle of a document depends only on its first two user
    fields: it is the subtitle of the document cut down to them; an entry
    whose key starts with an underscore (["_id"], ["_creationTime"]) never
    shows and never counts; and a document without user fields has the
    subtitle "Empty document". *)
Theorem getDocumentSubtitle_spec (doc : Document) :
  getDocumentSubtitle doc
  = getDocumentSubtitle (firstn 2 (List.filter is_user_field doc))
  /\ (forall before key v after,
        doc = (before ++ (key, v) :: after)%list ->
        startsWith key "_" = true ->
        getDocumentSubtitle doc = getDocumentSubtitle (before ++ after)%list)
  /\ ((forall entry, In entry doc -> startsWith (fst entry) "_" = true) ->
      getDocumentSubtitle doc = "Empty document").
Proof.
  split; [|split].
  - unfold getDocumentSubtitle.
    rewrite (filter_all is_user_field
               (firstn 2 (List.filter is_user_field doc))).
    + rewrite firstn_firstn. reflexivity.
    + intros entry Hin. apply in_firstn in Hin.
      apply filter_In in Hin. tauto.
  - intros before key v after -> Hkey. unfold getDocumentSubtitle.
    rewrite !List.filter_app. cbn [List.filter].
    assert (is_user_field (key, v) = false) as ->
      by (unfold is_user_field; cbn [fst]; rewrite Hkey; reflexivity).
    reflexivity.
  - intros Hsystem. unfold getDocumentSubtitle.
    rewrite filter_none; [reflexivity|].
    intros entry Hin. unfold is_user_field. rewrite (Hsystem entry Hin).
    reflexivity.
Qed.

Lemma first_title_short (doc : Document) (fields : list string)
    (title : string) :
  first_title doc fields = Some title -> string_length title <= 43.
Proof.
  induction fields as [|field fields IH]; [discriminate|].
  cbn [first_title].
  destruct (get doc field) as [[| | | |s| |]|]; try exact IH.
  destruct (truthy_string s); [|exact IH].
  intros H. injection H as <-. unfold string_length.
  destruct (Z.gtb_spec (Z.of_nat (String.length s)) 40) as [Hlong|Hfit];
    [|lia].
  rewrite substring_prefix, string_app_length, string_take_length.
  cbn [String.length]. lia.
Qed.

Lemma first_title_none (doc : Document) (fields : list string) :
  (forall field s, In field fields ->
     get doc field = Some (VString s) -> s = "") ->
  first_title doc fields = None.
Proof.
  induction fields as [|field fields IH]; intros Hnone; [reflexivity|].
  cbn [first_title].
  assert (Hrest : first_title doc fields = None)
    by (apply IH; intros f s Hf; apply Hnone; right; exact Hf).
  destruct (get doc field) as [[| | | |s| |]|] eqn:Eget; try exact Hrest.
  rewrite (Hnone field s) by (auto; left; reflexivity). exact Hrest.
Qed.

(** X24: the title of a document is, in the order name, title, label, text,
    email, username, id, the first of these fields that holds a non-empty
    string, cut to 40 characters and an ellipsis (at most 43 characters);
    a non-empty string in [name] wins over every other field; and when none
    of the fields holds a non-empty string the title is the formatted
    [_id]. *)
Theorem getDocumentTitle_spec (formatDocumentId : option value -> string)
    (doc : Document) :
  (getDocumentTitle formatDocumentId doc = formatDocumentId (get doc "_id")
   \/ string_length (getDocumentTitle formatDocumentId doc) <= 43)
  /\ (forall s, get doc "name" = Some (VString s) -> s <> "" ->
        getDocumentTitle formatDocumentId doc
        = if string_length s >? 40 then substring s 0 40 +:+ "..." else s)
  /\ ((forall field s, In field titleFields ->
         get doc field = Some (VString s) -> s = "") ->
      getDocumentTitle formatDocumentId doc
      = formatDocumentId (get doc "_id")).
Proof.
  split; [|split].
  - unfold getDocumentTitle.
    destruct (first_title doc titleFields) as [title|] eqn:Et;
      [right; exact (first_title_short _ _ _ Et) | left; reflexivity].
  - intros s Hname Hs. unfold getDocumentTitle, titleFields.
    cbn [first_title]. rewrite Hname.
    destruct s as [|a s]; [congruence|]. reflexivity.
  - intros Hnone. unfold getDocumentTitle.
    rewrite (first_title_none _ _ Hnone). reflexivity.
Qed.

Example getDocument_examples :
  let doc := [("_id", VString "j57abc"); ("_creationTime", VNumber (Num 17));
              ("body", VString "hello"); ("author", VString "Ada");
              ("likes", VArray [VNumber (Num 1); VNumber (Num 2)]);
              ("title", VString "Greetings")] in
  getDocumentTitle (fun _ => "j57...") doc = "Greetings"
  /\ getDocumentSubtitle doc
     = "body: " +:+ quote +:+ "hello" +:+ quote +:+ " | author: "
       +:+ quote +:+ "Ada" +:+ quote
  /\ getDocumentSubtitle [("_id", VString "j57abc")] = "Empty document"
  /\ formatFieldValue (VArray [VNull; VNull]) = "[2 items]".
Proof. repeat split; reflexivity. Qed.

End BrowseTablesFacts.
